(** * split: cutting a file of FASTA records into pieces of balanced size

    A shallow embedding of [find_bound.cpp] (the boundary locator
    [split_FindBound]) and of the core of [split.cpp] (the bound-decision
    layer [split_CalcUpperBoundOfOutputTransfer] and the transfer engine
    [split_SplitSource]), followed by the properties established for them.

    Conventions of the embedding:
    - [int64_t] values are integers of [Z].  Every quantity the engine
      computes lies between [-1] and the larger of the input size and twice
      the chunk size, so no 64-bit operation wraps; the [char] counter of the
      locator is the one value that can wrap and its wrap-around is written
      out ([char_incr]).
    - [char] buffers are lists of [byte]; [buff + k] is [skipn k buff] and
      [buff[k]] is [char_at buff k].
    - [SPLIT_ASSERT] is the empty macro of the default build (no
      [SPLIT_DEBUG]); the values it would test are exposed by
      [assert_values] for the locator and by the log of the engine.
    - [SPLIT_ERROR] prints and calls [exit (EXIT_FAILURE)]; here it is the
      outcome [Fatal].
    - The engine is embedded twice: first on a system that answers every
      call ([split_SplitSource]), which is where the decisions of the
      engine are studied, then with the answers of the system as a
      parameter ([OnSystem.split_SplitSource]), where the calls of
      [SPLIT_ERROR] that follow a refused call are ways out of the run. *)

From Stdlib Require Import ZArith List Lia Bool.
From Stdlib Require Import Strings.Byte.
Import ListNotations.
Local Open Scope Z_scope.

(** ** Bytes and buffers *)

Module Chars.

(** ['>'], the first byte of every element. *)
Definition element_start : byte := x3e.
(** ['\n'] *)
Definition new_line : byte := x0a.
(** ['a'], the byte the locator substitutes for a probe past an end. *)
Definition filler : byte := x61.

(** [buff[k]] *)
Definition char_at (buff : list byte) (k : Z) : byte :=
  nth (Z.to_nat k) buff x00.

(** [c++] on a [char] (signed, 8 bits wide on the x86-64 ABI). *)
Definition char_incr (c : Z) : Z :=
  if c + 1 >? 127 then c + 1 - 256 else c + 1.

End Chars.
Import Chars.

(** ** find_bound.cpp *)

Definition SPLIT_BOUND_NOT_FOUND : Z := -12345.

(** What one pass through the body of the [for] loop does: leave the
    function with a value, or reach the end of the body with the new value
    of [num_new_lines]. *)
Inductive body_result : Type :=
| Return (bound : Z)
| Continue (num_new_lines : Z).

Section FindBound.

Variable buff : list byte.
Variable projected_bound : Z.
Variable buff_size : Z.
Variable is_first_block : bool.

Definition distance_to_l_bound : Z := projected_bound + 1.
Definition distance_to_u_bound : Z := buff_size - projected_bound.

Definition left_symb (i : Z) : byte :=
  if i >=? distance_to_l_bound then filler
  else char_at buff (projected_bound - i).

Definition right_symb (i : Z) : byte :=
  if i >=? distance_to_u_bound then filler
  else char_at buff (projected_bound + i).

Definition find_bound_body (i num_new_lines : Z) : body_result :=
  if Byte.eqb (left_symb i) element_start
     && ((i <? distance_to_l_bound - 1) || negb is_first_block)
  then Return (projected_bound - i - 1)
  else if Byte.eqb (right_symb i) element_start && negb (i =? 0)
  then Return (projected_bound + i - 1)
  else
    let n1 := if Byte.eqb (left_symb i) new_line
              then char_incr num_new_lines else num_new_lines in
    let n2 := if Byte.eqb (right_symb i) new_line && negb (i =? 0)
              then char_incr n1 else n1 in
    if (n2 =? 2) && (i >=? distance_to_u_bound - 1)
       && Byte.eqb (char_at buff (buff_size - 1)) new_line
    then Return (buff_size - 1)
    else Continue n2.

(** The [for] loop from radius [i] on; [rounds] counts the passes that are
    left and is [max distance_to_l_bound distance_to_u_bound - i] at every
    entry, so it reaches [O] exactly when the loop condition fails. *)
Fixpoint find_bound_loop (rounds : nat) (i num_new_lines : Z) : Z :=
  match rounds with
  | O => SPLIT_BOUND_NOT_FOUND
  | S rounds' =>
      if i <? Z.max distance_to_l_bound distance_to_u_bound then
        match find_bound_body i num_new_lines with
        | Return bound => bound
        | Continue n => find_bound_loop rounds' (i + 1) n
        end
      else SPLIT_BOUND_NOT_FOUND
  end.

Definition split_FindBound : Z :=
  find_bound_loop
    (Z.to_nat (Z.max distance_to_l_bound distance_to_u_bound)) 0 0.

(** The values of [num_new_lines] that reach
    [SPLIT_ASSERT( num_new_lines <= 2)], in the order of the passes. *)
Fixpoint assert_values_from (rounds : nat) (i num_new_lines : Z) : list Z :=
  match rounds with
  | O => []
  | S rounds' =>
      if i <? Z.max distance_to_l_bound distance_to_u_bound then
        match find_bound_body i num_new_lines with
        | Return _ => []
        | Continue n => n :: assert_values_from rounds' (i + 1) n
        end
      else []
  end.

Definition assert_values : list Z :=
  assert_values_from
    (Z.to_nat (Z.max distance_to_l_bound distance_to_u_bound)) 0 0.

End FindBound.

(** The format the reference locator is written for: between two element
    starts there are at most two line ends.  [c] is the number of line ends
    met since the last element start. *)
Fixpoint two_newlines_per_element (c : Z) (w : list byte) : bool :=
  match w with
  | [] => true
  | x :: r =>
      if Byte.eqb x element_start then two_newlines_per_element 0 r
      else if Byte.eqb x new_line
           then (c + 1 <=? 2) && two_newlines_per_element (c + 1) r
           else two_newlines_per_element c r
  end.

(** The first [n] bytes of the region a pointer designates. *)
Definition window (buff : list byte) (n : Z) : list byte :=
  firstn (Z.to_nat n) buff.

(** The number of line ends in a list of bytes, and in the first [k] bytes
    of a buffer. *)
Fixpoint count_new_lines (l : list byte) : Z :=
  match l with
  | [] => 0
  | x :: r => (if Byte.eqb x new_line then 1 else 0) + count_new_lines r
  end.

Definition new_lines_before (buff : list byte) (k : Z) : Z :=
  count_new_lines (firstn (Z.to_nat k) buff).

Definition no_element_start (l : list byte) : bool :=
  forallb (fun x => negb (Byte.eqb x element_start)) l.

(** Before the pass at radius [i] the probes whose line ends were counted
    are the offsets from [low_probe i] up to, not including, [top_probe i]. *)
Definition low_probe (projected_bound i : Z) : Z :=
  Z.max 0 (projected_bound - i + 1).

Definition top_probe (projected_bound buff_size i : Z) : Z :=
  Z.min buff_size (projected_bound + Z.max i 1).

Definition counted (buff : list byte) (projected_bound buff_size i c : Z)
    : Prop :=
  c <= 2
  /\ c = new_lines_before buff (top_probe projected_bound buff_size i)
         - new_lines_before buff (low_probe projected_bound i)
  /\ forall k,
       low_probe projected_bound i <= k
       < top_probe projected_bound buff_size i ->
       1 <= k -> char_at buff k <> element_start.

(** ** split.cpp *)

(** The calls of [SPLIT_ERROR] that the engine can reach on a system that
    refuses no call; the calls that follow a refused call are in
    [system_error]. *)
Inductive error : Type :=
| CouldNotProducePieces (pieces_written : Z)
| NoItemBound
| ShortRead (bytes_read io_size : Z)
| ShortWrite (bytes_written io_size : Z).

(** [Done]: the function returned.  [Fatal]: the process left through
    [SPLIT_ERROR].  [OutOfFuel]: the bound on the number of passes of a
    [while] loop was too small ([split_source_spec] shows it never is). *)
Inductive outcome (A : Type) : Type :=
| Done (a : A)
| Fatal (e : error)
| OutOfFuel.
Arguments Done {A} a.
Arguments Fatal {A} e.
Arguments OutOfFuel {A}.

(** The part of [split_Opts_t] the engine reads.  [split_ParseCmdLine]
    takes no sign, so that [buffer_size] is never negative, and asks for two
    pieces or more. *)
Record split_Opts_t : Type := {
  num_pieces : Z;
  buffer_size : Z
}.

(** What the run leaves behind for an observer of the decisions: the target
    computed at the start of a piece and the arguments of every call of the
    bound-decision layer. *)
Inductive event : Type :=
| PieceTarget (piece_num to_read : Z)
| CalcCall (buff_size data_start data_end projected_max : Z)
           (is_first_block is_end_of_input is_last_piece : bool).

(** The local variables of [split_SplitSource] that live across pieces, the
    input file and the output files.
    - [input_rest]: the bytes of the input file after the file offset;
    - [files]: the contents of the output files, the newest (the one
      [output_fd] is open on) first;
    - [log]: the events so far, the newest first. *)
Record engine : Type := {
  double_buff : list byte;
  data_start : Z;
  data_end : Z;
  bytes_available : Z;
  bytes_not_read : Z;
  input_rest : list byte;
  files : list (list byte);
  log : list event
}.

(** [n] bytes of [buff] from offset [off] on. *)
Definition slice (buff : list byte) (off n : Z) : list byte :=
  firstn (Z.to_nat n) (skipn (Z.to_nat off) buff).

(** [buff] after [data] was stored at offset [off] ([read] into
    [buff + off], [memcpy] to [buff + off]).  A store or a slice that
    reaches past the end of the buffer is undefined in C; [engine_ok] shows
    that the engine stays inside its [2 * buff_size] bytes. *)
Definition store (buff : list byte) (off : Z) (data : list byte) : list byte :=
  firstn (Z.to_nat off) buff ++ data
  ++ skipn (Z.to_nat off + length data) buff.

(** [read (fd, double_buff + buff_size, io_size)] on a regular file delivers
    the next [io_size] bytes, or all that are left.  The result is
    [bytes_read], the buffer and the rest of the input. *)
Definition split_FillUpperBuffHalfFromInput
    (input : list byte) (double_buff : list byte)
    (buff_size bytes_available : Z) : outcome (Z * list byte * list byte) :=
  if bytes_available =? 0 then Done (0, double_buff, input)
  else
    let io_size :=
      if buff_size >? bytes_available then bytes_available else buff_size in
    let data := firstn (Z.to_nat io_size) input in
    let bytes_read := Z.of_nat (length data) in
    if negb (bytes_read =? io_size) then Fatal (ShortRead bytes_read io_size)
    else Done (bytes_read, store double_buff buff_size data,
               skipn (Z.to_nat io_size) input).

(** [write (fd, buff + data_start, io_size)] appends the bytes to the file.
    The result is [bytes_written] and the file. *)
Definition split_WriteOutput
    (file : list byte) (buff : list byte) (data_start data_end : Z)
    : outcome (Z * list byte) :=
  let io_size := data_end - data_start + 1 in
  let data := slice buff data_start io_size in
  let bytes_written := Z.of_nat (length data) in
  if negb (bytes_written =? io_size)
  then Fatal (ShortWrite bytes_written io_size)
  else Done (bytes_written, file ++ data).

Section Decision.

(** [find_bound.cpp] is the part of the tool a builder replaces; the
    decision layer is written over any locator. *)
Variable find_bound : list byte -> Z -> Z -> bool -> Z.

Definition calc_upper_bound_with
    (buff : list byte) (buff_size data_start data_end projected_max : Z)
    (is_first_block is_end_of_input is_last_piece : bool) : outcome Z :=
  let active_data_size := data_end - data_start + 1 in
  if projected_max >? active_data_size then
    if active_data_size >=? buff_size
    then Done (data_start + buff_size - 1)
    else Done data_end
  else if is_last_piece then Done data_end
  else
    let bound :=
      find_bound (skipn (Z.to_nat data_start) buff) (projected_max - 1)
                 (data_end - data_start + 1) is_first_block in
    if negb (bound =? SPLIT_BOUND_NOT_FOUND) then Done (bound + data_start)
    else if is_end_of_input then Done data_end
    else Fatal NoItemBound.

End Decision.

Definition split_CalcUpperBoundOfOutputTransfer :=
  calc_upper_bound_with split_FindBound.

(** [write] on the file [output_fd] is open on. *)
Definition write_newest (fs : list (list byte)) (file : list byte)
    : list (list byte) :=
  match fs with
  | [] => []
  | _ :: older => file :: older
  end.

Definition newest (fs : list (list byte)) : list byte :=
  match fs with
  | [] => []
  | f :: _ => f
  end.

Section SplitSource.

Variable opts : split_Opts_t.

Let buff_size := buffer_size opts.

(** The window after the move to the lower half and the reset of the
    bounds (the two [if]s that end the body of the [while] loop). *)
Definition slide (buff : list byte) (data_start data_end : Z)
    : list byte * Z * Z :=
  let '(buff, data_start, data_end) :=
    if (data_start >=? buff_size) && (data_end - data_start >=? 0) then
      let active_data_size := data_end - data_start + 1 in
      (store buff (buff_size - active_data_size)
             (slice buff data_start active_data_size),
       buff_size - active_data_size, buff_size - 1)
    else (buff, data_start, data_end) in
  if data_start >? data_end then (buff, buff_size, buff_size - 1)
  else (buff, data_start, data_end).

(** The first statement of the body of [while ( to_read )]: fill the upper
    half when the active data ends where the lower half ends. *)
Definition refill (st : engine) : outcome engine :=
  if data_end st =? buff_size - 1 then
    match split_FillUpperBuffHalfFromInput (input_rest st) (double_buff st)
                                           buff_size (bytes_not_read st)
    with
    | Done (bytes_read, buff, rest) =>
        Done {| double_buff := buff; data_start := data_start st;
                data_end := data_end st + bytes_read;
                bytes_available := bytes_available st;
                bytes_not_read := bytes_not_read st - bytes_read;
                input_rest := rest; files := files st; log := log st |}
    | Fatal e => Fatal e
    | OutOfFuel => OutOfFuel
    end
  else Done st.

(** One pass through the body of [while ( to_read )]: the new [to_read]
    and the engine after it. *)
Definition transfer_step (piece_num : Z) (is_first_block : bool)
    (to_read : Z) (st : engine) : outcome Z * engine :=
  match refill st with
  | Fatal e => (Fatal e, st)
  | OutOfFuel => (OutOfFuel, st)
  | Done st0 =>
      let is_last_piece := piece_num =? num_pieces opts - 1 in
      let is_end_of_input := bytes_not_read st0 =? 0 in
      let st1 := {| double_buff := double_buff st0;
                    data_start := data_start st0;
                    data_end := data_end st0;
                    bytes_available := bytes_available st0;
                    bytes_not_read := bytes_not_read st0;
                    input_rest := input_rest st0; files := files st0;
                    log := CalcCall buff_size (data_start st0)
                             (data_end st0) to_read is_first_block
                             is_end_of_input is_last_piece :: log st0 |} in
      match split_CalcUpperBoundOfOutputTransfer
              (double_buff st0) buff_size (data_start st0) (data_end st0)
              to_read is_first_block is_end_of_input is_last_piece with
      | Fatal e => (Fatal e, st1)
      | OutOfFuel => (OutOfFuel, st1)
      | Done output_chunk_end =>
          let to_read1 :=
            if output_chunk_end <? data_start st0 then 0
            else if output_chunk_end - data_start st0 + 1 >? to_read then 0
            else to_read - (output_chunk_end - data_start st0 + 1) in
          match split_WriteOutput (newest (files st0)) (double_buff st0)
                                  (data_start st0) output_chunk_end with
          | Fatal e => (Fatal e, st1)
          | OutOfFuel => (OutOfFuel, st1)
          | Done (_, file) =>
              let '(buff2, data_start2, data_end2) :=
                slide (double_buff st0) (output_chunk_end + 1)
                      (data_end st0) in
              (Done to_read1,
               {| double_buff := buff2; data_start := data_start2;
                  data_end := data_end2;
                  bytes_available :=
                    bytes_available st0
                    - (output_chunk_end - data_start st0 + 1);
                  bytes_not_read := bytes_not_read st0;
                  input_rest := input_rest st0;
                  files := write_newest (files st0) file;
                  log := log st1 |})
          end
      end
  end.

(** [while ( to_read )], with a bound on the number of passes. *)
Fixpoint transfer_loop (fuel : nat) (piece_num : Z) (is_first_block : bool)
    (to_read : Z) (st : engine) : outcome unit * engine :=
  if to_read =? 0 then (Done tt, st)
  else
    match fuel with
    | O => (OutOfFuel, st)
    | S fuel' =>
        match transfer_step piece_num is_first_block to_read st with
        | (Done to_read', st') =>
            transfer_loop fuel' piece_num false to_read' st'
        | (Fatal e, st') => (Fatal e, st')
        | (OutOfFuel, st') => (OutOfFuel, st')
        end
    end.

(** The target of piece [piece_num] when [bytes_available] bytes are not
    yet in a piece: C's [/] and [%] are [Z.quot] and [Z.rem]. *)
Definition piece_target (bytes_available piece_num : Z) : Z :=
  let to_read := Z.quot bytes_available (num_pieces opts - piece_num) in
  if negb (Z.rem bytes_available (num_pieces opts - piece_num) =? 0)
  then to_read + 1 else to_read.

(** The [for] loop over the pieces from [piece_num] on; [rounds] is
    [num_pieces - piece_num] at every entry.  Every pass of the [while]
    loop either ends it or takes a byte or more off [to_read], so
    [to_read] passes are enough. *)
Fixpoint pieces_loop (rounds : nat) (piece_num : Z) (st : engine)
    : outcome unit * engine :=
  match rounds with
  | O => (Done tt, st)
  | S rounds' =>
      if piece_num <? num_pieces opts then
        let to_read := piece_target (bytes_available st) piece_num in
        let st0 := {| double_buff := double_buff st;
                      data_start := data_start st; data_end := data_end st;
                      bytes_available := bytes_available st;
                      bytes_not_read := bytes_not_read st;
                      input_rest := input_rest st; files := files st;
                      log := PieceTarget piece_num to_read :: log st |} in
        if to_read =? 0
        then (Fatal (CouldNotProducePieces piece_num), st0)
        else
          (* split_StartNewPiece *)
          let st1 := {| double_buff := double_buff st;
                        data_start := data_start st;
                        data_end := data_end st;
                        bytes_available := bytes_available st;
                        bytes_not_read := bytes_not_read st;
                        input_rest := input_rest st;
                        files := [] :: files st;
                        log := PieceTarget piece_num to_read :: log st |}
          in
          match transfer_loop (Z.to_nat to_read) piece_num true to_read st1
          with
          | (Done _, st2) =>
              (* split_FinalizePiece *)
              pieces_loop rounds' (piece_num + 1) st2
          | other => other
          end
      else (Done tt, st)
  end.

(** The engine when the [for] loop is entered, on the input file
    [input]; the buffer [malloc] returns is taken to hold zeros. *)
Definition initial (input : list byte) : engine :=
  let input_size := Z.of_nat (length input) in
  {| double_buff := repeat x00 (Z.to_nat (2 * buff_size));
     data_start := buff_size; data_end := buff_size - 1;
     bytes_available := input_size; bytes_not_read := input_size;
     input_rest := input; files := []; log := [] |}.

Definition split_SplitSource (input : list byte) : outcome unit * engine :=
  pieces_loop (Z.to_nat (num_pieces opts)) 0 (initial input).

End SplitSource.

(** The output files of a run, piece 0 first. *)
Definition pieces_of (r : outcome unit * engine) : list (list byte) :=
  rev (files (snd r)).

(** The arguments of the calls of the decision layer, the first call first,
    as (buff_size, data_start, data_end, projected_max, is_last_piece). *)
Definition calc_calls (l : list event) : list (Z * Z * Z * Z * bool) :=
  rev (flat_map (fun e =>
         match e with
         | CalcCall b s e' p _ _ lp => [(b, s, e', p, lp)]
         | PieceTarget _ _ => []
         end) l).

(** The targets of the pieces, piece 0 first. *)
Definition targets (l : list event) : list Z :=
  rev (flat_map (fun e =>
         match e with
         | PieceTarget _ t => [t]
         | CalcCall _ _ _ _ _ _ _ => []
         end) l).

(** ** What the engine maintains *)

(** Between two passes of the [while] loop, on the input file [input] with
    chunks of [buff_size] bytes: the buffer has its two halves, the active
    data ends in the upper half or where the lower half ends and starts in
    the lower half or where the upper half starts, the two counters agree
    with the file offset and the active data, and the bytes written so far,
    the active data and the bytes not yet read make up the input. *)
Record engine_ok (buff_size : Z) (input : list byte) (st : engine) : Prop := {
  ok_buffer : Z.of_nat (length (double_buff st)) = 2 * buff_size;
  ok_start : 0 <= data_start st <= buff_size;
  ok_end : buff_size - 1 <= data_end st <= 2 * buff_size - 1;
  ok_order : data_start st <= data_end st + 1;
  ok_not_read : bytes_not_read st = Z.of_nat (length (input_rest st));
  ok_available :
    bytes_available st
    = data_end st - data_start st + 1 + bytes_not_read st;
  ok_bytes :
    concat (rev (files st))
    ++ slice (double_buff st) (data_start st)
             (data_end st - data_start st + 1)
    ++ input_rest st = input
}.

(** What every logged call of the decision layer satisfies: the active data
    fit the buffer, and in the last piece they do not exceed the target. *)
Definition call_ok (e : event) : Prop :=
  match e with
  | CalcCall b s e' p _ _ lp =>
      e' - s + 1 <= 2 * b /\ (lp = true -> e' - s + 1 <= p)
  | PieceTarget _ _ => True
  end.

(** Every element of the list is at most the one before it. *)
Fixpoint non_increasing (l : list Z) : Prop :=
  match l with
  | a :: (b :: _) as r => b <= a /\ non_increasing r
  | _ => True
  end.

(** The targets [ts] and the files [ps] of the pieces from [piece_num] on,
    in the order of the pieces, when [bytes] bytes were available at the
    start of piece [piece_num]: every target is computed from the bytes that
    the pieces before it left. *)
Fixpoint targets_follow (opts : split_Opts_t) (bytes piece_num : Z)
    (ts : list Z) (ps : list (list byte)) : Prop :=
  match ts with
  | [] => ps = []
  | t :: ts' =>
      t = piece_target opts bytes piece_num
      /\ 0 <= bytes /\ piece_num < num_pieces opts
      /\ match ps with
         | [] => ts' = []
         | p :: ps' =>
             targets_follow opts (bytes - Z.of_nat (length p))
                            (piece_num + 1) ts' ps'
         end
  end.

(** ** Inputs of the scenarios *)

Definition mk_opts (n b : Z) : split_Opts_t :=
  {| num_pieces := n; buffer_size := b |}.

(** [">a\nAC\n>b\nGT\n"] *)
Definition two_elements : list byte :=
  [x3e; x61; x0a; x41; x43; x0a; x3e; x62; x0a; x47; x54; x0a].

(** [">a\nAC\n"] *)
Definition one_element : list byte :=
  [x3e; x61; x0a; x41; x43; x0a].

(** [">a\nA\n>b\nC\n>c\nG\n"]: three elements of five bytes. *)
Definition three_elements : list byte :=
  [x3e; x61; x0a; x41; x0a; x3e; x62; x0a; x43; x0a;
   x3e; x63; x0a; x47; x0a].

(** [">a\nA\n>b\nCCCCC\n"]: an element of five bytes, then one of nine. *)
Definition uneven_elements : list byte :=
  [x3e; x61; x0a; x41; x0a;
   x3e; x62; x0a; x43; x43; x43; x43; x43; x0a].

(** ["C\n>a\nAC\n>b\nGT\n"]: the end of an element and two elements; the
    bytes at distance 3 from offset 5 are both ['>']. *)
Definition tie_window : list byte :=
  [x43; x0a; x3e; x61; x0a; x41; x43; x0a; x3e; x62; x0a; x47; x54; x0a].

(** [">a\nAC\nGT\n>b\nA\n"]: the sequence of the first element is wrapped
    over two lines. *)
Definition wrapped_sequence : list byte :=
  [x3e; x61; x0a; x41; x43; x0a; x47; x54; x0a; x3e; x62; x0a; x41; x0a].

(** [">abc\nAC\n>b\nGT\n"]: the first element has eight bytes. *)
Definition long_element : list byte :=
  [x3e; x61; x62; x63; x0a; x41; x43; x0a; x3e; x62; x0a; x47; x54; x0a].

(** The engine of scenario D when the pass that fails starts: three passes
    of piece 0 have written six bytes, one byte is left of the target. *)
Definition before_failing_pass : engine :=
  snd (transfer_loop (mk_opts 2 2) 3 0 true 7
         {| double_buff := double_buff (initial (mk_opts 2 2) long_element);
            data_start := 2; data_end := 1;
            bytes_available := 14; bytes_not_read := 14;
            input_rest := long_element; files := [[]];
            log := [PieceTarget 0 7] |}).

Definition in_failing_pass : engine :=
  match refill (mk_opts 2 2) before_failing_pass with
  | Done st0 => st0
  | _ => before_failing_pass
  end.

(** [">a\nAC"]: an element whose last line has no line end. *)
Definition open_element : list byte :=
  [x3e; x61; x0a; x41; x43].

(** The engine of the run on [two_elements] with two pieces and chunks of
    12 bytes when the only pass of the last piece starts: piece 0 holds the
    first element, the second element is in the lower half of the buffer. *)
Definition before_last_pass : engine :=
  let st := snd (pieces_loop (mk_opts 2 12) 1 0
                   (initial (mk_opts 2 12) two_elements)) in
  {| double_buff := double_buff st; data_start := data_start st;
     data_end := data_end st; bytes_available := bytes_available st;
     bytes_not_read := bytes_not_read st; input_rest := input_rest st;
     files := [] :: files st; log := PieceTarget 1 6 :: log st |}.

(** [">seq1\nAC\nGT\n>b\nA\n"]: two elements; the sequence of the first is
    wrapped over two lines. *)
Definition wrapped_lines : list byte :=
  [x3e; x73; x65; x71; x31; x0a; x41; x43; x0a; x47; x54; x0a;
   x3e; x62; x0a; x41; x0a].

(** The engine of the run on [wrapped_lines] with two pieces and chunks of
    32 bytes when the first pass of piece 0 calls the decision layer: the
    upper half holds the file. *)
Definition in_first_pass : engine :=
  let st := initial (mk_opts 2 32) wrapped_lines in
  match refill (mk_opts 2 32)
          {| double_buff := double_buff st; data_start := data_start st;
             data_end := data_end st; bytes_available := bytes_available st;
             bytes_not_read := bytes_not_read st;
             input_rest := input_rest st;
             files := [] :: files st; log := PieceTarget 0 9 :: log st |}
  with
  | Done st0 => st0
  | _ => st
  end.

(** ** What the locator looks for *)

(** An element start the locator may return the byte before: a ['>'] of the
    window, but not the one at offset 0 of a window that starts a file. *)
Definition usable_start (buff : list byte) (is_first_block : bool) (k : Z)
    : bool :=
  Byte.eqb (char_at buff k) element_start
  && (negb (k =? 0) || negb is_first_block).

(** The locator has found no such element start closer to the projected
    bound than [i]. *)
Definition swept (buff : list byte) (projected_bound buff_size : Z)
    (is_first_block : bool) (i : Z) : Prop :=
  forall k, 0 <= k < buff_size -> Z.abs (k - projected_bound) < i ->
            usable_start buff is_first_block k = false.

(** ** The format of the elements *)

(** The format the header of [find_bound.cpp] names, [">IDENTIFIER\n"]
    ["SEQUENCE\n"], read byte by byte: where the reader is after a byte. *)
Inductive fasta_state : Type :=
| Outside
| InIdentifier
| InSequence
| Malformed.

Definition fasta_step (s : fasta_state) (x : byte) : fasta_state :=
  match s with
  | Outside => if Byte.eqb x element_start then InIdentifier else Malformed
  | InIdentifier =>
      if Byte.eqb x element_start then Malformed
      else if Byte.eqb x new_line then InSequence else InIdentifier
  | InSequence =>
      if Byte.eqb x element_start then Malformed
      else if Byte.eqb x new_line then Outside else InSequence
  | Malformed => Malformed
  end.

Definition fasta_run (s : fasta_state) (l : list byte) : fasta_state :=
  fold_left fasta_step l s.

(** The bytes are a sequence of whole elements. *)
Definition whole_elements (l : list byte) : bool :=
  match fasta_run Outside l with
  | Outside => true
  | _ => false
  end.

(** The line ends met since the last element start. *)
Definition lines_met (s : fasta_state) : Z :=
  match s with
  | Outside => 2
  | InIdentifier => 0
  | InSequence => 1
  | Malformed => 0
  end.

(** The number of element starts among the bytes. *)
Fixpoint count_element_starts (l : list byte) : Z :=
  match l with
  | [] => 0
  | x :: r =>
      (if Byte.eqb x element_start then 1 else 0) + count_element_starts r
  end.

(** ** The helpers of split.cpp *)

(** [split_CalcNumWidth]: [num--], then the loop [while ( num )] that
    counts a digit and divides by ten, with a bound on the number of
    passes; [None] when the bound is too small. *)
Fixpoint calc_num_width_loop (fuel : nat) (num num_digits : Z) : option Z :=
  if num =? 0 then Some num_digits
  else
    match fuel with
    | O => None
    | S fuel' => calc_num_width_loop fuel' (Z.quot num 10) (num_digits + 1)
    end.

Definition split_CalcNumWidth (num : Z) : option Z :=
  calc_num_width_loop (Z.to_nat (Z.abs (num - 1))) (num - 1) 0.

(** The character of a decimal digit. *)
Definition digit_char (d : Z) : byte :=
  match d with
  | 0 => x30 | 1 => x31 | 2 => x32 | 3 => x33 | 4 => x34
  | 5 => x35 | 6 => x36 | 7 => x37 | 8 => x38 | _ => x39
  end.

(** The digits of [n], the most significant first, before [acc]. *)
Fixpoint decimal_digits (fuel : nat) (n : Z) (acc : list byte) : list byte :=
  if n =? 0 then acc
  else
    match fuel with
    | O => acc
    | S fuel' =>
        decimal_digits fuel' (Z.quot n 10) (digit_char (Z.rem n 10) :: acc)
    end.

(** What [snprintf] writes for ["%ld"] and a number that is not negative,
    and for ["%0*ld"], which fills with zeros on the left up to the
    width. *)
Definition print_ld (n : Z) : list byte :=
  if n =? 0 then [x30] else decimal_digits (Z.to_nat n) n [].

Definition print_0ld (width n : Z) : list byte :=
  repeat x30 (Z.to_nat width - length (print_ld n)) ++ print_ld n.

(** The name of the file [split_StartNewPiece] creates:
    [dir_name + "/" + file_name + "."] and the number of the piece. *)
Definition piece_name (dir_name file_name : list byte)
    (num_digits piece_num : Z) : list byte :=
  dir_name ++ [x2f] ++ file_name ++ [x2e] ++ print_0ld num_digits piece_num.

(** What [split_FinalizePiece] prints after ["Piece N written. Size: "]:
    ["unknown"], the size in bytes, or a value, a unit and the size in
    bytes.  The value is a [double] that is assigned the quotient of two
    integers, so that it is a whole number and ["%.1f"] prints it with [.0]
    after it. *)
Inductive size_report : Type :=
| SizeUnknown
| SizeBytes (piece_size : Z)
| SizeUnits (value : Z) (units : byte) (piece_size : Z).

(** The part of [split_FinalizePiece] after [lseek], which returns the size
    of the piece or [-1]. *)
Definition piece_size_report (piece_size : Z) : size_report :=
  if negb (piece_size =? -1) then
    if negb (Z.quot piece_size (1024 * 1024 * 1024) =? 0)
    then SizeUnits (Z.quot piece_size (1024 * 1024 * 1024)) x47 piece_size
    else if negb (Z.quot piece_size (1024 * 1024) =? 0)
    then SizeUnits (Z.quot piece_size (1024 * 1024)) x4d piece_size
    else if negb (Z.quot piece_size 1024 =? 0)
    then SizeUnits (Z.quot piece_size 1024) x4b piece_size
    else SizeBytes piece_size
  else SizeUnknown.

(** The number of bytes the unit letter stands for. *)
Definition unit_size (units : byte) : Z :=
  match units with
  | x47 => 1024 * 1024 * 1024
  | x4d => 1024 * 1024
  | x4b => 1024
  | _ => 1
  end.

(** *** The command line *)

Definition INT64_MAX : Z := 9223372036854775807.
Definition INT64_MIN : Z := -9223372036854775808.
Definition ERANGE : Z := 34.

(** The value of a [char] (signed, 8 bits wide on the x86-64 ABI). *)
Definition char_value (b : byte) : Z :=
  let v := Z.of_N (Byte.to_N b) in
  if v >? 127 then v - 256 else v.

Definition split_IsStrtolOK (first_symb : byte) (err_no : Z)
    (curr_symb : byte) (base : Z) : bool :=
  let check_res :=
    (char_value first_symb <? 48)
    || (char_value first_symb >? 48 + base - 1)
    || (err_no =? ERANGE)
    || negb (char_value curr_symb =? 0) in
  negb check_res.

(** [strtol (nptr, &endptr, 10)] of the C library in the "C" locale: white
    space, a sign, decimal digits.  The result is the value, the bytes from
    [endptr] on and [errno] after the call; a value that does not fit
    [long] is replaced by the nearest bound and sets [errno] to [ERANGE];
    without a digit nothing is converted and [endptr] is [nptr]. *)
Definition isspace (b : byte) : bool :=
  match b with
  | x20 | x09 | x0a | x0b | x0c | x0d => true
  | _ => false
  end.

Definition isdigit (b : byte) : bool :=
  (48 <=? char_value b) && (char_value b <=? 57).

Fixpoint skip_spaces (s : list byte) : list byte :=
  match s with
  | x :: r => if isspace x then skip_spaces r else s
  | [] => []
  end.

Fixpoint digits_value (s : list byte) (acc : Z) : Z * list byte :=
  match s with
  | x :: r =>
      if isdigit x then digits_value r (10 * acc + (char_value x - 48))
      else (acc, s)
  | [] => (acc, [])
  end.

Definition strtol (nptr : list byte) (err_no : Z) : Z * list byte * Z :=
  let s1 := skip_spaces nptr in
  let '(negative, s2) :=
    match s1 with
    | x2d :: r => (true, r)
    | x2b :: r => (false, r)
    | _ => (false, s1)
    end in
  if isdigit (hd x00 s2) then
    let '(v, endptr) := digits_value s2 0 in
    let v := if negative : bool then - v else v in
    if v >? INT64_MAX then (INT64_MAX, endptr, ERANGE)
    else if v <? INT64_MIN then (INT64_MIN, endptr, ERANGE)
    else (v, endptr, err_no)
  else (0, nptr, err_no).

(** The ways [split_ParseCmdLine] does not take a command line: the calls
    of [split_ExitWithAssist] and of [SPLIT_ERROR], and [ChunkSizeEmpty],
    the end of the process on an empty value of [--cs]. *)
Inductive option_error : Type :=
| ChunkSizeEmpty
| IntegerWithUnitsExpected
| UnexpectedUnits
| ChunkSizeTooBig
| IntegerExpected
| TooFewPieces
| ArgumentMissing
| UnknownOption
| InputFileRequired
| NumberOfPiecesRequired.

(** [switch ( unit )]: the shift of the units, [None] for [default:]. *)
Definition units_shift (unit : byte) : option Z :=
  match unit with
  | x00 | x62 | x42 => Some 0
  | x6b | x4b => Some 10
  | x6d | x4d => Some 20
  | x67 | x47 => Some 30
  | _ => None
  end.

(** [case 'c':] of [split_ParseCmdLine], on the value [optarg] of the
    option and [errno] as it is before the call of [strtol]: the error, or
    the new [opts->buffer_size].  On an empty value ([--cs=]) [back ()] is
    undefined; what it reads there is no digit, [erase] is called at
    position [size () - 1], which is past the end, and throws
    [std::out_of_range]: the process is ended, and not through
    [SPLIT_ERROR].  [front ()] of the string left empty by the removal of
    the units is the terminating zero. *)
Definition chunk_size_option (optarg : list byte) (err_no : Z)
    : option_error + Z :=
  match optarg with
  | [] => inl ChunkSizeEmpty
  | _ :: _ =>
      let back := last optarg x00 in
      let '(unit, arg_copy) :=
        if (char_value back <? 48) || (char_value back >? 57)
        then (back, removelast optarg)
        else (x00, optarg) in
      let '(buff_size, c_ptr, err_no') := strtol arg_copy err_no in
      if negb (split_IsStrtolOK (hd x00 arg_copy) err_no' (hd x00 c_ptr) 10)
      then inl IntegerWithUnitsExpected
      else
        match units_shift unit with
        | None => inl UnexpectedUnits
        | Some shift_val =>
            if buff_size >? Z.shiftr INT64_MAX (shift_val + 1)
            then inl ChunkSizeTooBig
            else inr (Z.shiftl buff_size shift_val)
        end
  end.

(** [case 'n':] of [split_ParseCmdLine]: the error, or the new
    [opts->num_pieces]. *)
Definition num_pieces_option (optarg : list byte) (err_no : Z)
    : option_error + Z :=
  let '(num_pieces, c_ptr, err_no') := strtol optarg err_no in
  if negb (split_IsStrtolOK (hd x00 optarg) err_no' (hd x00 c_ptr) 10)
  then inl IntegerExpected
  else if num_pieces <? 2 then inl TooFewPieces
  else inr num_pieces.

(** The number a string of decimal digits writes. *)
Definition decimal (digits : list byte) : Z :=
  fold_left (fun acc x => 10 * acc + (char_value x - 48)) digits 0.

(** [split_InitOpts] *)
Definition split_InitOpts : split_Opts_t :=
  {| num_pieces := 0; buffer_size := 4194304 |}.

(** What [getopt_long] returns in a pass of the loop of
    [split_ParseCmdLine], with [optarg] where the option has a value:
    ['d'], ['f'], ['c'], ['n'], [':'] and ['?']. *)
Inductive parsed_option : Type :=
| OutputDir (optarg : list byte)
| OutputFile (optarg : list byte)
| ChunkSize (optarg : list byte)
| NumPieces (optarg : list byte)
| MissingArgument
| NotAnOption.

(** The loop [while ( 1 )] of [split_ParseCmdLine] over the options that
    [getopt_long] finds.  The directory and the base name of the output
    files have no part in what is modelled of the run.  [errno] is as the
    last call of [strtol] left it, which is as it was when that call was
    accepted. *)
Fixpoint parse_options (options : list parsed_option) (opts : split_Opts_t)
    (err_no : Z) : option_error + split_Opts_t :=
  match options with
  | [] => inr opts
  | OutputDir _ :: rest => parse_options rest opts err_no
  | OutputFile _ :: rest => parse_options rest opts err_no
  | ChunkSize optarg :: rest =>
      match chunk_size_option optarg err_no with
      | inl e => inl e
      | inr size =>
          parse_options rest
            {| num_pieces := num_pieces opts; buffer_size := size |} err_no
      end
  | NumPieces optarg :: rest =>
      match num_pieces_option optarg err_no with
      | inl e => inl e
      | inr n =>
          parse_options rest
            {| num_pieces := n; buffer_size := buffer_size opts |} err_no
      end
  | MissingArgument :: _ => inl ArgumentMissing
  | NotAnOption :: _ => inl UnknownOption
  end.

(** How the program ends before the run: with the help message and
    [exit( EXIT_SUCCESS)], or through [SPLIT_ERROR]. *)
Inductive parse_result : Type :=
| Parsed (opts : split_Opts_t)
| HelpPrinted
| Refused (e : option_error).

(** [split_ParseCmdLine]: [operands] is [argc - optind] after the loop, the
    number of arguments that are no options. *)
Definition split_ParseCmdLine (argc : Z) (options : list parsed_option)
    (operands : Z) (opts : split_Opts_t) (err_no : Z) : parse_result :=
  match parse_options options opts err_no with
  | inl e => Refused e
  | inr opts' =>
      if operands =? 0 then
        if argc =? 1 then HelpPrinted else Refused InputFileRequired
      else if num_pieces opts' =? 0 then Refused NumberOfPiecesRequired
      else Parsed opts'
  end.

(** ** More of what the engine maintains *)

(** A place where a piece may end: the end of the input, before an element
    start, or after a line end. *)
Definition cut_ok (input : list byte) (c : Z) : bool :=
  (c =? Z.of_nat (length input))
  || Byte.eqb (char_at input c) element_start
  || ((1 <=? c) && Byte.eqb (char_at input (c - 1)) new_line).

(** Every file of the list, newest first, ends at a good offset of the
    input. *)
Fixpoint cuts_good (good_cut : Z -> Prop) (fs : list (list byte)) : Prop :=
  match fs with
  | [] => True
  | p :: older =>
      good_cut (Z.of_nat (length (concat (rev older))) + Z.of_nat (length p))
      /\ cuts_good good_cut older
  end.

(** What the arguments of every call of the decision layer satisfy: the
    bounds of the active data are where the two [SPLIT_ASSERT]s that open
    the body of the [while] loop want them, something is asked for, and
    while input is left a chunk or more is active. *)
Definition call_bounds (e : event) : Prop :=
  match e with
  | CalcCall b s e' p _ eoi _ =>
      0 <= s <= b /\ b - 1 <= e' <= 2 * b - 1 /\ s <= e' + 1 /\ 1 <= p
      /\ (eoi = false -> b <= e' - s + 1)
  | PieceTarget _ _ => True
  end.

(** While input is left, the active data end where a half of the buffer
    ends. *)
Definition steady (buff_size : Z) (st : engine) : Prop :=
  0 < bytes_not_read st ->
  data_end st = buff_size - 1 \/ data_end st = 2 * buff_size - 1.

(** [n] bytes of the input from offset [c] on, of which none after the first
    is an element start. *)
Definition no_start_inside (input : list byte) (c n : Z) : Prop :=
  0 <= c /\ c + n <= Z.of_nat (length input)
  /\ forall j, 1 <= j < n -> char_at input (c + j) <> element_start.

(** The engine between two passes when the chunk size is 0: nothing is
    active and nothing was read. *)
Definition idle (input : list byte) (st : engine) : Prop :=
  double_buff st = [] /\ data_start st = 0 /\ data_end st = -1
  /\ bytes_available st = Z.of_nat (length input)
  /\ bytes_not_read st = Z.of_nat (length input)
  /\ input_rest st = input.

(** ** The run on a system whose calls can fail *)

(** The embedding above is the run on a system that answers every call:
    the files open, the buffer is allocated, [read] and [write] transfer
    what they are asked for.  [OnSystem] is the same code with the answers
    of the system as a parameter, and with the calls of [SPLIT_ERROR] that
    follow a call the system refused.  What ends the process without a call
    of [SPLIT_ERROR] has no part in it: a signal, or an exception of the C++
    library when memory is exhausted. *)

(** How the system answers a call of [read] or [write]: it returns [-1],
    it transfers [bytes] bytes at most, or it transfers all it is asked
    for. *)
Inductive transfer : Type :=
| Declined
| Partial (bytes : Z)
| Whole.

(** The answers of the system to the calls of a run.
    - [open_input]: [open( input_path, O_RDONLY)] gives a descriptor;
    - [seek_end], [seek_start]: the two calls of [lseek] in
      [split_GetInputSize] do not return [-1];
    - [allocate_name]: [malloc] gives [split_ParseCmdLine] the buffer it
      copies the input path to;
    - [allocate_buffer size]: [malloc( size)] gives the double buffer;
    - [create_output piece_num]: [open( ..., O_CREAT | O_EXCL | O_WRONLY)]
      gives a descriptor for the file of the piece, which it does not when
      a file of that name exists;
    - [read_answer n], [write_answer n]: the answer to the call of [read],
      of [write], that [n] calls came before;
    - [sync_output piece_num]: [fsync] of the file of the piece does not
      return [-1]. *)
Record system : Type := {
  open_input : bool;
  seek_end : bool;
  seek_start : bool;
  allocate_name : bool;
  allocate_buffer : Z -> bool;
  create_output : Z -> bool;
  read_answer : nat -> transfer;
  write_answer : nat -> transfer;
  sync_output : Z -> bool
}.

(** The calls of [SPLIT_ERROR] that follow a call the system refused. *)
Inductive system_error : Type :=
| CannotAllocateName
| CannotOpenInput
| CannotSeekInput
| CannotAllocateBuffer (size : Z)
| CannotCreateOutput (piece_num : Z)
| CannotRead
| CannotWrite
| CannotSyncOutput.

(** How a function ends on such a system: as on a system that answers
    every call, or through one of these errors. *)
Inductive ending (A : Type) : Type :=
| Ended (o : outcome A)
| Failed (e : system_error).
Arguments Ended {A} o.
Arguments Failed {A} e.

(** The engine and the number of calls of [read] and of [write] so far. *)
Record process : Type := {
  state : engine;
  reads : nat;
  writes : nat
}.

(** What a call of [read] or [write] returns and transfers when [data]
    are the bytes it is asked for, as far as the file or the buffer holds
    them. *)
Definition transferred (answer : transfer) (data : list byte)
    : Z * list byte :=
  match answer with
  | Declined => (-1, [])
  | Partial bytes =>
      let part := firstn (Z.to_nat bytes) data in
      (Z.of_nat (length part), part)
  | Whole => (Z.of_nat (length data), data)
  end.

(** A system that answers every call. *)
Definition reliable (sys : system) : Prop :=
  open_input sys = true /\ seek_end sys = true /\ seek_start sys = true
  /\ allocate_name sys = true
  /\ (forall size, allocate_buffer sys size = true)
  /\ (forall piece_num, create_output sys piece_num = true)
  /\ (forall n, read_answer sys n = Whole)
  /\ (forall n, write_answer sys n = Whole)
  /\ (forall piece_num, sync_output sys piece_num = true).

(** The call that an error of the system follows. *)
Definition caused (sys : system) (e : system_error) : Prop :=
  match e with
  | CannotAllocateName => allocate_name sys = false
  | CannotOpenInput => open_input sys = false
  | CannotSeekInput => seek_end sys = false \/ seek_start sys = false
  | CannotAllocateBuffer size => allocate_buffer sys size = false
  | CannotCreateOutput piece_num => create_output sys piece_num = false
  | CannotRead => exists n, read_answer sys n = Declined
  | CannotWrite => exists n, write_answer sys n = Declined
  | CannotSyncOutput => exists piece_num, sync_output sys piece_num = false
  end.

(** The ways out of a run that only a system that is not reliable opens:
    an error of the system, after a call that failed, and the errors of
    [read] and [write] that transferred a part of what they were asked
    for. *)
Definition stopped_by {A : Type} (sys : system) (r : ending A) : Prop :=
  match r with
  | Failed e => caused sys e
  | Ended (Fatal (ShortRead _ _)) =>
      exists n bytes, read_answer sys n = Partial bytes
  | Ended (Fatal (ShortWrite _ _)) =>
      exists n bytes, write_answer sys n = Partial bytes
  | Ended _ => False
  end.

(** A run on a system follows the run on a system that answers every call:
    it ends as that one does, and when that one returns the engine is the
    same. *)
Definition follows {A : Type} (r : ending A * process)
    (r0 : outcome A * engine) : Prop :=
  fst r = Ended (fst r0)
  /\ forall a, fst r0 = Done a -> state (snd r) = snd r0.

(** The base name of the output files that the options leave: the value of
    the last [--of], empty without one. *)
Definition output_file (options : list parsed_option) : list byte :=
  fold_left (fun name o =>
               match o with
               | OutputFile optarg => optarg
               | _ => name
               end) options [].

Module OnSystem.

Section Run.

Variable sys : system.
Variable opts : split_Opts_t.

Let buff_size := buffer_size opts.

(** [split_GetInputSize] on the input file [input]. *)
Definition split_GetInputSize (input : list byte) : system_error + Z :=
  if negb (seek_end sys) then inl CannotSeekInput
  else if negb (seek_start sys) then inl CannotSeekInput
  else inr (Z.of_nat (length input)).

(** [split_StartNewPiece] *)
Definition split_StartNewPiece (piece_num : Z) : system_error + unit :=
  if negb (create_output sys piece_num)
  then inl (CannotCreateOutput piece_num)
  else inr tt.

(** [split_FinalizePiece]: the size that [lseek] gives is for the message
    only, and what [close] returns is not looked at. *)
Definition split_FinalizePiece (piece_num : Z) : system_error + unit :=
  if negb (sync_output sys piece_num) then inl CannotSyncOutput
  else inr tt.

(** [split_FillUpperBuffHalfFromInput], with the answer of the system to
    the call of [read] it makes when bytes are left. *)
Definition split_FillUpperBuffHalfFromInput (answer : transfer)
    (input : list byte) (double_buff : list byte)
    (buff_size bytes_available : Z) : ending (Z * list byte * list byte) :=
  if bytes_available =? 0 then Ended (Done (0, double_buff, input))
  else
    let io_size :=
      if buff_size >? bytes_available then bytes_available else buff_size in
    let '(bytes_read, data) :=
      transferred answer (firstn (Z.to_nat io_size) input) in
    if bytes_read =? -1 then Failed CannotRead
    else if negb (bytes_read =? io_size)
    then Ended (Fatal (ShortRead bytes_read io_size))
    else Ended (Done (bytes_read, store double_buff buff_size data,
                      skipn (Z.to_nat io_size) input)).

(** [split_WriteOutput], with the answer of the system to its call of
    [write]: what the function does and the file after it, which holds
    what was written also when the function does not return. *)
Definition split_WriteOutput (answer : transfer)
    (file : list byte) (buff : list byte) (data_start data_end : Z)
    : ending Z * list byte :=
  let io_size := data_end - data_start + 1 in
  let '(bytes_written, part) :=
    transferred answer (slice buff data_start io_size) in
  if bytes_written =? -1 then (Failed CannotWrite, file)
  else if negb (bytes_written =? io_size)
  then (Ended (Fatal (ShortWrite bytes_written io_size)), file ++ part)
  else (Ended (Done bytes_written), file ++ part).

Definition refill (p : process) : ending process :=
  let st := state p in
  if data_end st =? buff_size - 1 then
    match split_FillUpperBuffHalfFromInput
            (read_answer sys (reads p)) (input_rest st) (double_buff st)
            buff_size (bytes_not_read st)
    with
    | Ended (Done (bytes_read, buff, rest)) =>
        Ended (Done
          {| state :=
               {| double_buff := buff; data_start := data_start st;
                  data_end := data_end st + bytes_read;
                  bytes_available := bytes_available st;
                  bytes_not_read := bytes_not_read st - bytes_read;
                  input_rest := rest; files := files st; log := log st |};
             (* [read] is called when bytes are left *)
             reads := if bytes_not_read st =? 0 then reads p
                      else S (reads p);
             writes := writes p |})
    | Ended (Fatal e) => Ended (Fatal e)
    | Ended OutOfFuel => Ended OutOfFuel
    | Failed e => Failed e
    end
  else Ended (Done p).

(** One pass through the body of [while ( to_read )]. *)
Definition transfer_step (piece_num : Z) (is_first_block : bool)
    (to_read : Z) (p : process) : ending Z * process :=
  match refill p with
  | Failed e => (Failed e, p)
  | Ended (Fatal e) => (Ended (Fatal e), p)
  | Ended OutOfFuel => (Ended OutOfFuel, p)
  | Ended (Done p0) =>
      let st0 := state p0 in
      let is_last_piece := piece_num =? num_pieces opts - 1 in
      let is_end_of_input := bytes_not_read st0 =? 0 in
      let st1 := {| double_buff := double_buff st0;
                    data_start := data_start st0;
                    data_end := data_end st0;
                    bytes_available := bytes_available st0;
                    bytes_not_read := bytes_not_read st0;
                    input_rest := input_rest st0; files := files st0;
                    log := CalcCall buff_size (data_start st0)
                             (data_end st0) to_read is_first_block
                             is_end_of_input is_last_piece :: log st0 |} in
      let p1 := {| state := st1; reads := reads p0; writes := writes p0 |} in
      match split_CalcUpperBoundOfOutputTransfer
              (double_buff st0) buff_size (data_start st0) (data_end st0)
              to_read is_first_block is_end_of_input is_last_piece with
      | Fatal e => (Ended (Fatal e), p1)
      | OutOfFuel => (Ended OutOfFuel, p1)
      | Done output_chunk_end =>
          let to_read1 :=
            if output_chunk_end <? data_start st0 then 0
            else if output_chunk_end - data_start st0 + 1 >? to_read then 0
            else to_read - (output_chunk_end - data_start st0 + 1) in
          match split_WriteOutput (write_answer sys (writes p0))
                  (newest (files st0)) (double_buff st0)
                  (data_start st0) output_chunk_end with
          | (Ended (Done _), file) =>
              let '(buff2, data_start2, data_end2) :=
                slide opts (double_buff st0) (output_chunk_end + 1)
                      (data_end st0) in
              (Ended (Done to_read1),
               {| state :=
                    {| double_buff := buff2; data_start := data_start2;
                       data_end := data_end2;
                       bytes_available :=
                         bytes_available st0
                         - (output_chunk_end - data_start st0 + 1);
                       bytes_not_read := bytes_not_read st0;
                       input_rest := input_rest st0;
                       files := write_newest (files st0) file;
                       log := log st1 |};
                  reads := reads p0; writes := S (writes p0) |})
          | (stopped, file) =>
              (stopped,
               {| state :=
                    {| double_buff := double_buff st0;
                       data_start := data_start st0;
                       data_end := data_end st0;
                       bytes_available := bytes_available st0;
                       bytes_not_read := bytes_not_read st0;
                       input_rest := input_rest st0;
                       files := write_newest (files st0) file;
                       log := log st1 |};
                  reads := reads p0; writes := S (writes p0) |})
          end
      end
  end.

(** [while ( to_read )], with a bound on the number of passes. *)
Fixpoint transfer_loop (fuel : nat) (piece_num : Z) (is_first_block : bool)
    (to_read : Z) (p : process) : ending unit * process :=
  if to_read =? 0 then (Ended (Done tt), p)
  else
    match fuel with
    | O => (Ended OutOfFuel, p)
    | S fuel' =>
        match transfer_step piece_num is_first_block to_read p with
        | (Ended (Done to_read'), p') =>
            transfer_loop fuel' piece_num false to_read' p'
        | (Ended (Fatal e), p') => (Ended (Fatal e), p')
        | (Ended OutOfFuel, p') => (Ended OutOfFuel, p')
        | (Failed e, p') => (Failed e, p')
        end
    end.

(** The [for] loop over the pieces from [piece_num] on. *)
Fixpoint pieces_loop (rounds : nat) (piece_num : Z) (p : process)
    : ending unit * process :=
  match rounds with
  | O => (Ended (Done tt), p)
  | S rounds' =>
      if piece_num <? num_pieces opts then
        let st := state p in
        let to_read := piece_target opts (bytes_available st) piece_num in
        let with_files fs :=
          {| state :=
               {| double_buff := double_buff st;
                  data_start := data_start st; data_end := data_end st;
                  bytes_available := bytes_available st;
                  bytes_not_read := bytes_not_read st;
                  input_rest := input_rest st; files := fs;
                  log := PieceTarget piece_num to_read :: log st |};
             reads := reads p; writes := writes p |} in
        if to_read =? 0
        then (Ended (Fatal (CouldNotProducePieces piece_num)),
              with_files (files st))
        else
          match split_StartNewPiece piece_num with
          | inl e => (Failed e, with_files (files st))
          | inr _ =>
              match transfer_loop (Z.to_nat to_read) piece_num true to_read
                                  (with_files ([] :: files st))
              with
              | (Ended (Done _), p2) =>
                  match split_FinalizePiece piece_num with
                  | inl e => (Failed e, p2)
                  | inr _ => pieces_loop rounds' (piece_num + 1) p2
                  end
              | other => other
              end
          end
      else (Ended (Done tt), p)
  end.

(** [split_SplitSource] on the input file [input]. *)
Definition split_SplitSource (input : list byte) : ending unit * process :=
  let p := {| state := initial opts input; reads := O; writes := O |} in
  if negb (open_input sys) then (Failed CannotOpenInput, p)
  else
    match split_GetInputSize input with
    | inl e => (Failed e, p)
    | inr _ =>
        if negb (allocate_buffer sys (2 * buff_size))
        then (Failed (CannotAllocateBuffer (2 * buff_size)), p)
        else pieces_loop (Z.to_nat (num_pieces opts)) 0 p
    end.

End Run.

(** The output files of a run, piece 0 first. *)
Definition pieces_of (r : ending unit * process) : list (list byte) :=
  rev (files (state (snd r))).

(** [split_ParseCmdLine] to its end: when the options leave no base name
    for the output files, it is taken from the input path, which is copied
    to a buffer that [malloc] gives. *)
Definition split_ParseCmdLine (sys : system) (argc : Z)
    (options : list parsed_option) (operands : Z) (opts : split_Opts_t)
    (err_no : Z) : system_error + parse_result :=
  match split_ParseCmdLine argc options operands opts err_no with
  | Parsed opts' =>
      match output_file options with
      | [] => if negb (allocate_name sys) then inl CannotAllocateName
              else inr (Parsed opts')
      | _ :: _ => inr (Parsed opts')
      end
  | stopped => inr stopped
  end.

(** [main], on the content of the file the first operand names: how the
    command line is refused, or the run. *)
Definition main (sys : system) (argc : Z) (options : list parsed_option)
    (operands : Z) (err_no : Z) (input : list byte)
    : parse_result + ending unit * process :=
  match split_ParseCmdLine sys argc options operands split_InitOpts err_no
  with
  | inl e =>
      inr (Failed e, {| state := initial split_InitOpts input;
                        reads := O; writes := O |})
  | inr (Parsed opts) => inr (split_SplitSource sys opts input)
  | inr stopped => inl stopped
  end.

End OnSystem.

(** A system that answers every call. *)
Definition obliging : system :=
  {| open_input := true; seek_end := true; seek_start := true;
     allocate_name := true; allocate_buffer := fun _ => true;
     create_output := fun _ => true; read_answer := fun _ => Whole;
     write_answer := fun _ => Whole; sync_output := fun _ => true |}.

(** A system on which a file with the name of piece 1 exists. *)
Definition piece_1_exists : system :=
  {| open_input := true; seek_end := true; seek_start := true;
     allocate_name := true; allocate_buffer := fun _ => true;
     create_output := fun piece_num => negb (piece_num =? 1);
     read_answer := fun _ => Whole;
     write_answer := fun _ => Whole; sync_output := fun _ => true |}.

(* ================================================================== *)
(** * Properties *)

(** ** Comparisons *)

Ltac bool_to_prop :=
  repeat match goal with
    | H : context [(_ >=? _)] |- _ => rewrite Z.geb_leb in H
    | H : context [(_ >? _)] |- _ => rewrite Z.gtb_ltb in H
    end;
  repeat match goal with
    | H : _ && _ = true |- _ => apply andb_true_iff in H; destruct H
    | H : _ || _ = false |- _ => apply orb_false_iff in H; destruct H
    | H : negb _ = true |- _ => apply negb_true_iff in H
    | H : negb _ = false |- _ => apply negb_false_iff in H
    | H : (_ <=? _) = true |- _ => apply Z.leb_le in H
    | H : (_ <=? _) = false |- _ => apply Z.leb_gt in H
    | H : (_ <? _) = true |- _ => apply Z.ltb_lt in H
    | H : (_ <? _) = false |- _ => apply Z.ltb_ge in H
    | H : (_ =? _) = true |- _ => apply Z.eqb_eq in H
    | H : (_ =? _) = false |- _ => apply Z.eqb_neq in H
    end.

(** ** The boundary locator *)

Section FindBoundFacts.

Variable buff : list byte.
Variables projected_bound buff_size : Z.
Variable is_first_block : bool.

Hypothesis bound_inside : 0 <= projected_bound < buff_size.

Local Abbreviation body :=
  (find_bound_body buff projected_bound buff_size is_first_block).
Local Abbreviation loop :=
  (find_bound_loop buff projected_bound buff_size is_first_block).

(** A probe past the lower end is never an element start. *)
Lemma left_start_inside i :
  Byte.eqb (left_symb buff projected_bound i) element_start = true ->
  i <= projected_bound.
Proof.
  unfold left_symb, distance_to_l_bound.
  destruct (i >=? projected_bound + 1) eqn:E.
  - discriminate.
  - bool_to_prop. lia.
Qed.

Lemma right_start_inside i :
  Byte.eqb (right_symb buff projected_bound buff_size i) element_start
  = true ->
  projected_bound + i < buff_size.
Proof.
  unfold right_symb, distance_to_u_bound.
  destruct (i >=? buff_size - projected_bound) eqn:E.
  - discriminate.
  - bool_to_prop. lia.
Qed.

Lemma body_return_range i c r :
  0 <= i ->
  body i c = Return r ->
  -1 <= r <= buff_size - 1 /\ (is_first_block = true -> r <> -1).
Proof.
  intros Hi. unfold find_bound_body.
  destruct (Byte.eqb (left_symb _ _ i) element_start
            && ((i <? distance_to_l_bound projected_bound - 1)
                || negb is_first_block)) eqn:L.
  - intros [= <-]. apply andb_true_iff in L. destruct L as [L1 L2].
    apply left_start_inside in L1. split; [lia|].
    intros ->. unfold distance_to_l_bound in L2. simpl in L2.
    rewrite orb_false_r in L2. bool_to_prop. lia.
  - destruct (Byte.eqb (right_symb _ _ _ i) element_start
              && negb (i =? 0)) eqn:R.
    + intros [= <-]. apply andb_true_iff in R. destruct R as [R1 R2].
      apply right_start_inside in R1. bool_to_prop. split; lia.
    + match goal with
      | |- (if ?c then _ else _) = _ -> _ => destruct c
      end; [intros [= <-]; split; lia | discriminate].
Qed.

Lemma loop_range rounds : forall i c,
  0 <= i ->
  let r := loop rounds i c in
  (r = SPLIT_BOUND_NOT_FOUND \/ -1 <= r <= buff_size - 1)
  /\ (is_first_block = true -> r <> -1).
Proof.
  induction rounds as [|rounds IH]; intros i c Hi; simpl.
  - split; [now left | intros _; discriminate].
  - destruct (i <? _).
    + destruct (body i c) as [r|n] eqn:B.
      * apply body_return_range in B; [|assumption].
        split; [right|]; tauto.
      * apply IH. lia.
    + split; [now left | intros _; discriminate].
Qed.

End FindBoundFacts.

(** The range of the locator, in the form the engine uses. *)
Lemma find_bound_range buff projected_bound buff_size is_first_block :
  0 <= projected_bound < buff_size ->
  let r := split_FindBound buff projected_bound buff_size is_first_block in
  (r = SPLIT_BOUND_NOT_FOUND \/ -1 <= r <= buff_size - 1)
  /\ (is_first_block = true -> r <> -1).
Proof.
  intros H. unfold split_FindBound. apply loop_range; [assumption | lia].
Qed.

(** C2. For every buffer, every size of at least 1 and every projected bound
    inside the buffer, [split_FindBound] returns [SPLIT_BOUND_NOT_FOUND] or
    an offset from [-1] to [buff_size - 1], and when [is_first_block] holds
    the offset is not [-1]. *)
Theorem find_bound_result_range :
  forall buff projected_bound buff_size is_first_block,
    1 <= buff_size ->
    0 <= projected_bound < buff_size ->
    (split_FindBound buff projected_bound buff_size is_first_block
     = SPLIT_BOUND_NOT_FOUND
     \/ -1 <= split_FindBound buff projected_bound buff_size is_first_block
        <= buff_size - 1)
    /\ (is_first_block = true ->
        split_FindBound buff projected_bound buff_size is_first_block <> -1).
Proof.
  intros buff pb n fb _ H. exact (find_bound_range buff pb n fb H).
Qed.

Lemma find_bound_result_range_witness :
  (split_FindBound two_elements 5 12 true = SPLIT_BOUND_NOT_FOUND
   \/ -1 <= split_FindBound two_elements 5 12 true <= 12 - 1)
  /\ (true = true -> split_FindBound two_elements 5 12 true <> -1).
Proof.
  apply (find_bound_result_range two_elements 5 12 true); lia.
Defined.

(** *** The left candidate goes first *)

Lemma byte_eqb_false x y : x <> y -> Byte.eqb x y = false.
Proof.
  intros N. destruct (Byte.eqb x y) eqn:E; [|reflexivity].
  apply byte_dec_bl in E. contradiction.
Qed.

Section LeftFirst.

Variable buff : list byte.
Variables projected_bound buff_size : Z.
Variable is_first_block : bool.
Variable i : Z.

Hypothesis bound_inside : 0 <= projected_bound < buff_size.
Hypothesis left_inside : i <= projected_bound.
Hypothesis right_inside : projected_bound + i < buff_size.
Hypothesis left_start : char_at buff (projected_bound - i) = element_start.
Hypothesis not_suppressed : i < projected_bound \/ is_first_block = false.
Hypothesis nothing_closer : forall j, 0 <= j < i ->
  char_at buff (projected_bound - j) <> element_start
  /\ char_at buff (projected_bound + j) <> element_start.

Lemma loop_returns_left rounds : forall j c,
  0 <= j <= i ->
  Z.of_nat rounds
  = Z.max (distance_to_l_bound projected_bound)
          (distance_to_u_bound projected_bound buff_size) - j ->
  find_bound_loop buff projected_bound buff_size is_first_block rounds j c
  = projected_bound - i - 1.
Proof.
  unfold distance_to_l_bound, distance_to_u_bound.
  induction rounds as [|rounds IH]; intros j c Hj Hr; [lia|].
  cbn [find_bound_loop].
  unfold distance_to_l_bound, distance_to_u_bound.
  destruct (Z.ltb_spec j (Z.max (projected_bound + 1)
                                (buff_size - projected_bound))); [|lia].
  unfold find_bound_body, left_symb, right_symb,
    distance_to_l_bound, distance_to_u_bound.
  destruct (Z.eq_dec j i) as [->|Hne].
  - replace (i >=? projected_bound + 1) with false
      by (symmetry; rewrite Z.geb_leb; apply Z.leb_gt; lia).
    rewrite left_start. cbn [Byte.eqb].
    replace ((i <? projected_bound + 1 - 1) || negb is_first_block)
      with true; [reflexivity|].
    symmetry. apply orb_true_iff.
    destruct not_suppressed as [Hlt| ->]; [left; apply Z.ltb_lt; lia|now right].
  - destruct (nothing_closer j ltac:(lia)) as [NL NR].
    replace (j >=? projected_bound + 1) with false
      by (symmetry; rewrite Z.geb_leb; apply Z.leb_gt; lia).
    replace (j >=? buff_size - projected_bound) with false
      by (symmetry; rewrite Z.geb_leb; apply Z.leb_gt; lia).
    replace (j >=? buff_size - projected_bound - 1) with false
      by (symmetry; rewrite Z.geb_leb; apply Z.leb_gt; lia).
    rewrite (byte_eqb_false _ _ NL), (byte_eqb_false _ _ NR).
    cbn [andb]. rewrite andb_false_r. cbn [andb].
    apply IH; lia.
Qed.

End LeftFirst.

(** C9, as amended. For every buffer and every projected bound inside it,
    when at a radius [i > 0] the left candidate at [projected_bound - i] and
    the right candidate at [projected_bound + i] are both inside the buffer
    and both ['>'], no byte closer to the projected bound than [i] is ['>'],
    and the left return is not suppressed by the first-block condition,
    [split_FindBound] returns the left bound [projected_bound - i - 1] and
    not the right one. *)
Theorem left_candidate_decided_first :
  forall buff projected_bound buff_size is_first_block i,
    0 <= projected_bound < buff_size ->
    0 < i ->
    i <= projected_bound ->
    projected_bound + i < buff_size ->
    char_at buff (projected_bound - i) = element_start ->
    char_at buff (projected_bound + i) = element_start ->
    (i < distance_to_l_bound projected_bound - 1 \/ is_first_block = false) ->
    (forall j, 0 <= j < i ->
       char_at buff (projected_bound - j) <> element_start
       /\ char_at buff (projected_bound + j) <> element_start) ->
    split_FindBound buff projected_bound buff_size is_first_block
    = projected_bound - i - 1
    /\ split_FindBound buff projected_bound buff_size is_first_block
       <> projected_bound + i - 1.
Proof.
  intros buff pb n fb i Hpb Hi Hl Hr HL _ Hs Hc.
  assert (E : split_FindBound buff pb n fb = pb - i - 1).
  { unfold split_FindBound.
    unfold distance_to_l_bound in Hs.
    apply (loop_returns_left buff pb n fb i); try assumption;
      unfold distance_to_l_bound, distance_to_u_bound; try lia.
    destruct Hs as [Hs|Hs]; [left; lia | now right]. }
  split; [exact E | rewrite E; lia].
Qed.

Lemma left_candidate_decided_first_witness :
  split_FindBound tie_window 5 14 true = 5 - 3 - 1
  /\ split_FindBound tie_window 5 14 true <> 5 + 3 - 1.
Proof.
  apply (left_candidate_decided_first tie_window 5 14 true 3).
  - lia.
  - lia.
  - lia.
  - lia.
  - reflexivity.
  - reflexivity.
  - left. unfold distance_to_l_bound. lia.
  - intros j Hj.
    assert (C : j = 0 \/ j = 1 \/ j = 2) by lia.
    destruct C as [ -> | [ -> | -> ] ]; split; discriminate.
Defined.

(** C9 as stated, without the condition on the closer bytes, fails: in
    [three_elements] the bytes at distance 5 from offset 5 are both ['>'],
    but so is the byte at offset 5, and the locator returns 4. *)
Lemma left_candidate_counterexample :
  ~ (forall buff projected_bound buff_size is_first_block i,
       0 <= projected_bound < buff_size ->
       0 < i ->
       i <= projected_bound ->
       projected_bound + i < buff_size ->
       char_at buff (projected_bound - i) = element_start ->
       char_at buff (projected_bound + i) = element_start ->
       (i < distance_to_l_bound projected_bound - 1
        \/ is_first_block = false) ->
       split_FindBound buff projected_bound buff_size is_first_block
       = projected_bound - i - 1).
Proof.
  intros H.
  specialize (H three_elements 5 15 false 5).
  assert (E : split_FindBound three_elements 5 15 false = 4) by reflexivity.
  rewrite E in H.
  assert (4 = 5 - 5 - 1); [|lia].
  apply H; try lia; reflexivity.
Qed.

(** *** The counter of line ends *)

Lemma firstn_succ_nth (l : list byte) : forall m,
  (m < length l)%nat ->
  firstn (S m) l = firstn m l ++ [nth m l x00].
Proof.
  induction l as [|x l IH]; intros m Hm; simpl in Hm; [lia|].
  destruct m as [|m]; [reflexivity|].
  change (x :: firstn (S m) l = x :: (firstn m l ++ [nth m l x00])).
  rewrite (IH m) by lia. reflexivity.
Qed.

Lemma count_new_lines_app l1 l2 :
  count_new_lines (l1 ++ l2) = count_new_lines l1 + count_new_lines l2.
Proof.
  induction l1 as [|x l1 IH]; simpl; [reflexivity|]. rewrite IH. lia.
Qed.

Lemma new_lines_before_succ buff k :
  0 <= k < Z.of_nat (length buff) ->
  new_lines_before buff (k + 1)
  = new_lines_before buff k
    + (if Byte.eqb (char_at buff k) new_line then 1 else 0).
Proof.
  intros Hk. unfold new_lines_before, char_at.
  replace (Z.to_nat (k + 1)) with (S (Z.to_nat k)) by lia.
  rewrite firstn_succ_nth by lia.
  rewrite count_new_lines_app. simpl. lia.
Qed.

(** Inside an element the count of line ends stays below the limit. *)
Lemma new_lines_inside_element s : forall c post,
  two_newlines_per_element c (s ++ post) = true ->
  no_element_start s = true ->
  0 <= c <= 2 ->
  c + count_new_lines s <= 2.
Proof.
  induction s as [|x s IH]; intros c post H F Hc; simpl in *; [lia|].
  apply andb_true_iff in F. destruct F as [Fx Fs].
  apply negb_true_iff in Fx. rewrite Fx in H.
  destruct (Byte.eqb x new_line).
  - apply andb_true_iff in H. destruct H as [H1 H2]. apply Z.leb_le in H1.
    specialize (IH (c + 1) post H2 Fs). lia.
  - specialize (IH c post H Fs). lia.
Qed.

Lemma two_newlines_suffix pre : forall c rest,
  two_newlines_per_element c (pre ++ rest) = true ->
  0 <= c <= 2 ->
  exists c', 0 <= c' <= 2 /\ two_newlines_per_element c' rest = true.
Proof.
  induction pre as [|x pre IH]; intros c rest H Hc; simpl in H.
  - exists c. tauto.
  - destruct (Byte.eqb x element_start).
    + apply (IH 0 rest H). lia.
    + destruct (Byte.eqb x new_line).
      * apply andb_true_iff in H. destruct H as [H1 H2]. apply Z.leb_le in H1.
        apply (IH (c + 1) rest H2). lia.
      * apply (IH c rest H Hc).
Qed.

(** A stretch whose bytes after the first are no element starts has at most
    two line ends. *)
Lemma new_lines_in_stretch pre x s post :
  two_newlines_per_element 0 (pre ++ (x :: s) ++ post) = true ->
  no_element_start s = true ->
  count_new_lines (x :: s) <= 2.
Proof.
  intros H F.
  destruct (two_newlines_suffix pre 0 _ H ltac:(lia)) as (c & Hc & H').
  simpl in H'. simpl.
  destruct (Byte.eqb x element_start) eqn:Ex.
  - apply byte_dec_bl in Ex. subst x.
    change (Byte.eqb element_start new_line) with false.
    pose proof (new_lines_inside_element s 0 post H' F). lia.
  - destruct (Byte.eqb x new_line).
    + apply andb_true_iff in H'. destruct H' as [H1 H2]. apply Z.leb_le in H1.
      pose proof (new_lines_inside_element s (c + 1) post H2 F). lia.
    + pose proof (new_lines_inside_element s c post H' F). lia.
Qed.

Lemma firstn_split (l : list byte) m1 m2 :
  (m1 <= m2)%nat ->
  firstn m2 l = firstn m1 l ++ firstn (m2 - m1) (skipn m1 l).
Proof.
  intros H. rewrite <- (firstn_skipn m1 (firstn m2 l)) at 1.
  rewrite firstn_firstn, skipn_firstn_comm.
  replace (Nat.min m1 m2) with m1 by lia. reflexivity.
Qed.

Lemma skipn_nth_cons (l : list byte) : forall m,
  (m < length l)%nat ->
  skipn m l = nth m l x00 :: skipn (S m) l.
Proof.
  induction l as [|x l IH]; intros m Hm; simpl in Hm; [lia|].
  destruct m as [|m]; [reflexivity|].
  change (skipn m l = nth m l x00 :: skipn (S m) l).
  apply IH. lia.
Qed.

Section Format.

Variable buff : list byte.
Variable buff_size : Z.

Hypothesis in_buffer : buff_size <= Z.of_nat (length buff).
Hypothesis format : two_newlines_per_element 0 (window buff buff_size) = true.

Lemma new_lines_between a b :
  0 <= a <= b -> b < buff_size ->
  (forall k, a < k <= b -> char_at buff k <> element_start) ->
  new_lines_before buff (b + 1) - new_lines_before buff a <= 2.
Proof.
  intros Hab Hb Hfree.
  pose (A := Z.to_nat a). pose (L := Z.to_nat (b - a)).
  pose (s := firstn L (skipn (S A) buff)).
  assert (E1 : firstn (Z.to_nat (b + 1)) buff
               = firstn A buff ++ nth A buff x00 :: s).
  { rewrite (firstn_split buff A (Z.to_nat (b + 1))) by lia.
    f_equal. rewrite (skipn_nth_cons buff A) by lia.
    replace (Z.to_nat (b + 1) - A)%nat with (S L) by lia.
    reflexivity. }
  assert (E2 : window buff buff_size
               = firstn A buff ++ (nth A buff x00 :: s)
                 ++ firstn (Z.to_nat buff_size - Z.to_nat (b + 1))
                      (skipn (Z.to_nat (b + 1)) buff)).
  { unfold window.
    rewrite (firstn_split buff (Z.to_nat (b + 1)) (Z.to_nat buff_size))
      by lia.
    rewrite E1, <- app_assoc. reflexivity. }
  assert (F : no_element_start s = true).
  { apply forallb_forall. intros y Hy.
    destruct (In_nth s y x00 Hy) as (j & Hj & <-).
    assert (HjL : (j < L)%nat).
    { unfold s in Hj. rewrite length_firstn in Hj. lia. }
    unfold s. rewrite nth_firstn.
    destruct (Nat.ltb_spec j L); [|lia].
    rewrite nth_skipn. apply negb_true_iff, byte_eqb_false.
    specialize (Hfree (a + 1 + Z.of_nat j) ltac:(lia)).
    unfold char_at in Hfree.
    replace (Z.to_nat (a + 1 + Z.of_nat j)) with (S A + j)%nat in Hfree
      by lia.
    exact Hfree. }
  rewrite E2 in format.
  pose proof (new_lines_in_stretch _ _ _ _ format F) as B.
  unfold new_lines_before. fold A. rewrite E1, count_new_lines_app. lia.
Qed.

End Format.

Section Counter.

Variable buff : list byte.
Variables projected_bound buff_size : Z.
Variable is_first_block : bool.

Hypothesis bound_inside : 0 <= projected_bound < buff_size.
Hypothesis in_buffer : buff_size <= Z.of_nat (length buff).
Hypothesis format : two_newlines_per_element 0 (window buff buff_size) = true.

Local Abbreviation low := (low_probe projected_bound).
Local Abbreviation top := (top_probe projected_bound buff_size).

(** The left probe at radius [i]: what it adds to the counter, and that
    it moves the lower end of the counted offsets by at most one. *)
Lemma left_probe_counted i :
  0 <= i ->
  exists d : Z,
    (if Byte.eqb (left_symb buff projected_bound i) new_line
     then 1 else 0) = d
    /\ 0 <= d <= 1
    /\ new_lines_before buff (low i) = new_lines_before buff (low (i + 1)) + d
    /\ (forall k, low (i + 1) <= k < low i ->
          k = projected_bound - i /\ i < distance_to_l_bound projected_bound
          /\ left_symb buff projected_bound i = char_at buff k).
Proof.
  intros Hi. unfold left_symb, distance_to_l_bound, low_probe.
  destruct (i >=? projected_bound + 1) eqn:E; bool_to_prop.
  - exists 0. change (Byte.eqb filler new_line) with false.
    replace (Z.max 0 (projected_bound - (i + 1) + 1))
      with (Z.max 0 (projected_bound - i + 1)) by lia.
    repeat split; lia.
  - eexists. split; [reflexivity|].
    replace (Z.max 0 (projected_bound - i + 1))
      with (projected_bound - i + 1) by lia.
    replace (Z.max 0 (projected_bound - (i + 1) + 1))
      with (projected_bound - i) by lia.
    rewrite new_lines_before_succ by lia.
    split; [destruct (Byte.eqb _ new_line); lia|].
    split; [lia|].
    intros k Hk. replace k with (projected_bound - i) by lia.
    repeat split; lia.
Qed.

Lemma right_probe_counted i :
  0 <= i ->
  exists d : Z,
    (if Byte.eqb (right_symb buff projected_bound buff_size i) new_line
        && negb (i =? 0)
     then 1 else 0) = d
    /\ 0 <= d <= 1
    /\ new_lines_before buff (top (i + 1)) = new_lines_before buff (top i) + d
    /\ (forall k, top i <= k < top (i + 1) ->
          k = projected_bound + i /\ i <> 0
          /\ right_symb buff projected_bound buff_size i = char_at buff k).
Proof.
  intros Hi. unfold right_symb, distance_to_u_bound, top_probe.
  destruct (i >=? buff_size - projected_bound) eqn:E; bool_to_prop.
  - exists 0. change (Byte.eqb filler new_line) with false.
    replace (Z.min buff_size (projected_bound + Z.max (i + 1) 1))
      with (Z.min buff_size (projected_bound + Z.max i 1)) by lia.
    repeat split; lia.
  - destruct (Z.eqb_spec i 0) as [->|Hn].
    + exists 0. rewrite andb_false_r.
      replace (Z.min buff_size (projected_bound + Z.max (0 + 1) 1))
        with (Z.min buff_size (projected_bound + Z.max 0 1)) by lia.
      repeat split; lia.
    + eexists. split; [reflexivity|]. rewrite !andb_true_r.
      replace (Z.min buff_size (projected_bound + Z.max (i + 1) 1))
        with (projected_bound + i + 1) by lia.
      replace (Z.min buff_size (projected_bound + Z.max i 1))
        with (projected_bound + i) by lia.
      rewrite new_lines_before_succ by lia.
      split; [destruct (Byte.eqb _ new_line); lia|].
      split; [lia|].
      intros k Hk. replace k with (projected_bound + i) by lia.
      repeat split; lia.
Qed.

Lemma char_incr_small c : c <= 2 -> char_incr c = c + 1.
Proof.
  intros H. unfold char_incr. destruct (Z.gtb_spec (c + 1) 127); lia.
Qed.

Lemma body_keeps_count i c c' :
  0 <= i ->
  counted buff projected_bound buff_size i c ->
  find_bound_body buff projected_bound buff_size is_first_block i c
  = Continue c' ->
  counted buff projected_bound buff_size (i + 1) c'.
Proof.
  intros Hi (Hc2 & Hc & Hfree) B.
  destruct (left_probe_counted i Hi) as (dl & Edl & Hdl & Pl & Fl).
  destruct (right_probe_counted i Hi) as (dr & Edr & Hdr & Pr & Fr).
  unfold find_bound_body in B.
  destruct (Byte.eqb (left_symb _ _ i) element_start
            && ((i <? distance_to_l_bound projected_bound - 1)
                || negb is_first_block)) eqn:CL; [discriminate|].
  destruct (Byte.eqb (right_symb _ _ _ i) element_start && negb (i =? 0))
    eqn:CR; [discriminate|].
  assert (Free' : forall k, low (i + 1) <= k < top (i + 1) -> 1 <= k ->
                            char_at buff k <> element_start).
  { intros k Hk Hk1.
    destruct (Z.lt_ge_cases k (low i)) as [Hlow|Hlow].
    - destruct (Fl k ltac:(lia)) as (Ek & Hin & Es).
      rewrite <- Es. intros Eq. rewrite Eq in CL. cbn [Byte.eqb] in CL.
      replace (i <? distance_to_l_bound projected_bound - 1) with true in CL;
        [discriminate|].
      symmetry. apply Z.ltb_lt. unfold distance_to_l_bound. lia.
    - destruct (Z.lt_ge_cases k (top i)) as [Htop|Htop].
      + apply Hfree; lia.
      + destruct (Fr k ltac:(lia)) as (Ek & Hin & Es).
        rewrite <- Es. intros Eq. rewrite Eq in CR.
        apply andb_false_iff in CR. destruct CR as [CR|CR];
          [discriminate|bool_to_prop; lia]. }
  assert (Sum : new_lines_before buff (top (i + 1))
                - new_lines_before buff (low (i + 1)) = c + dl + dr) by lia.
  assert (Le : c + dl + dr <= 2).
  { rewrite <- Sum.
    replace (top (i + 1)) with (top (i + 1) - 1 + 1) by lia.
    apply (new_lines_between buff buff_size in_buffer format);
      unfold low_probe, top_probe in *; try lia.
    intros k Hk. apply Free'; lia. }
  assert (Ec' : c' = c + dl + dr).
  { cbv zeta in B.
    assert (E1 : (if Byte.eqb (left_symb buff projected_bound i) new_line
                  then char_incr c else c) = c + dl).
    { rewrite <- Edl.
      destruct (Byte.eqb (left_symb buff projected_bound i) new_line);
        [apply char_incr_small|]; lia. }
    rewrite E1 in B.
    assert (E2 : (if Byte.eqb (right_symb buff projected_bound buff_size i)
                       new_line && negb (i =? 0)
                  then char_incr (c + dl) else c + dl) = c + dl + dr).
    { rewrite <- Edr.
      destruct (Byte.eqb (right_symb buff projected_bound buff_size i)
                         new_line && negb (i =? 0));
        [apply char_incr_small|]; lia. }
    rewrite E2 in B.
    destruct ((c + dl + dr =? 2) && _ && _); [discriminate|].
    injection B as <-. reflexivity. }
  subst c'. repeat split; [lia | lia | exact Free'].
Qed.

Lemma assert_values_small rounds : forall i c,
  0 <= i ->
  counted buff projected_bound buff_size i c ->
  Forall (fun v => v <= 2)
    (assert_values_from buff projected_bound buff_size is_first_block
                        rounds i c).
Proof.
  induction rounds as [|rounds IH]; intros i c Hi Hc; cbn [assert_values_from].
  - constructor.
  - destruct (i <? _); [|constructor].
    destruct (find_bound_body _ _ _ _ i c) as [r|c'] eqn:B; [constructor|].
    pose proof (body_keeps_count i c c' Hi Hc B) as Hc'.
    constructor; [apply Hc'|]. apply IH; [lia|exact Hc'].
Qed.

End Counter.

(** Where the assertion holds: for every window that lies in its buffer
    and in which no more than two line ends come before the first element
    start, after the last or between two of them, and every projected bound
    inside it, [num_new_lines] is at most 2 whenever the end of the body of
    the search loop is reached. *)
Lemma new_line_counter_bounded :
  forall buff projected_bound buff_size is_first_block,
    0 <= projected_bound < buff_size ->
    buff_size <= Z.of_nat (length buff) ->
    two_newlines_per_element 0 (window buff buff_size) = true ->
    Forall (fun v => v <= 2)
           (assert_values buff projected_bound buff_size is_first_block).
Proof.
  intros buff pb n fb Hpb Hlen Hfmt. unfold assert_values.
  apply assert_values_small; try assumption; [lia|].
  unfold counted, low_probe, top_probe.
  replace (Z.min n (pb + Z.max 0 1)) with (pb + 1) by lia.
  replace (Z.max 0 (pb - 0 + 1)) with (pb + 1) by lia.
  repeat split; lia.
Qed.

Lemma new_line_counter_bounded_witness :
  Forall (fun v => v <= 2) (assert_values tie_window 5 14 true).
Proof.
  apply (new_line_counter_bounded tie_window 5 14 true).
  - lia.
  - simpl. lia.
  - reflexivity.
Defined.

(** Without that form the counter passes 2: in [wrapped_sequence] the
    sequence of the first element takes two lines, and with the projected
    bound at offset 5 the pass at radius 3 counts the second and the third
    line end of that element. *)
Lemma new_line_counter_counterexample :
  ~ (forall buff projected_bound buff_size is_first_block,
       0 <= projected_bound < buff_size ->
       buff_size <= Z.of_nat (length buff) ->
       Forall (fun v => v <= 2)
              (assert_values buff projected_bound buff_size is_first_block)).
Proof.
  intros H.
  specialize (H wrapped_sequence 5 14 true ltac:(lia) ltac:(simpl; lia)).
  assert (E : assert_values wrapped_sequence 5 14 true = [1; 1; 1; 3])
    by reflexivity.
  rewrite E in H.
  repeat match goal with
         | H : Forall _ (_ :: _) |- _ => inversion H; subst; clear H
         end.
  lia.
Qed.

(** C10, at an input the claim does not hold for.  [wrapped_lines] is a
    FASTA file whose first sequence is wrapped over two lines.  In the run
    with two pieces and chunks of 32 bytes the first pass calls the
    decision layer with the 17 bytes of the file as active data and a
    projected size of 9; the locator is run on them with the projected
    bound at offset 8, a line end, and at radius 3 both probes are line
    ends: [num_new_lines] goes from 1 to 3 and
    [SPLIT_ASSERT( num_new_lines <= 2)] does not hold.  In the default
    build, where the assertion is empty, the run ends, with the two
    elements as its pieces. *)
Theorem new_line_counter_exceeds_two :
  In (32, 32, 48, 9, false)
     (calc_calls (log (snd (split_SplitSource (mk_opts 2 32)
                                              wrapped_lines))))
  /\ data_start in_first_pass = 32 /\ data_end in_first_pass = 48
  /\ window (skipn (Z.to_nat (data_start in_first_pass))
                   (double_buff in_first_pass)) 17 = wrapped_lines
  /\ assert_values (skipn (Z.to_nat (data_start in_first_pass))
                          (double_buff in_first_pass)) (9 - 1)
                   (48 - 32 + 1) true = [1; 1; 1; 3]
  /\ ~ (3 <= 2)
  /\ fst (split_SplitSource (mk_opts 2 32) wrapped_lines) = Done tt
  /\ pieces_of (split_SplitSource (mk_opts 2 32) wrapped_lines)
     = [[x3e; x73; x65; x71; x31; x0a; x41; x43; x0a; x47; x54; x0a];
        [x3e; x62; x0a; x41; x0a]].
Proof.
  split; [vm_compute; left; reflexivity|].
  repeat split; try (vm_compute; reflexivity). lia.
Qed.

(** ** Slices of the double buffer *)

Section Slices.

Variable buff : list byte.

Lemma slice_length off n :
  0 <= off -> 0 <= n -> off + n <= Z.of_nat (length buff) ->
  Z.of_nat (length (slice buff off n)) = n.
Proof.
  intros Ho Hn Hl. unfold slice.
  rewrite length_firstn, length_skipn. lia.
Qed.

Lemma slice_nil off n : n <= 0 -> slice buff off n = [].
Proof.
  intros Hn. unfold slice. replace (Z.to_nat n) with O by lia. reflexivity.
Qed.

Lemma slice_split off n1 n2 :
  0 <= off -> 0 <= n1 -> 0 <= n2 ->
  slice buff off (n1 + n2)
  = slice buff off n1 ++ slice buff (off + n1) n2.
Proof.
  intros Ho H1 H2. unfold slice.
  rewrite (firstn_split _ (Z.to_nat n1) (Z.to_nat (n1 + n2))) by lia.
  rewrite skipn_skipn. repeat f_equal; lia.
Qed.

Lemma store_length off data :
  0 <= off ->
  off + Z.of_nat (length data) <= Z.of_nat (length buff) ->
  length (store buff off data) = length buff.
Proof.
  intros Ho Hl. unfold store.
  rewrite !length_app, length_firstn, length_skipn. lia.
Qed.

(** The bytes from [from] up to the end of the stored data: what was
    there before offset [off], then the data. *)
Lemma slice_store from off data :
  0 <= from <= off ->
  off + Z.of_nat (length data) <= Z.of_nat (length buff) ->
  slice (store buff off data) from (off - from + Z.of_nat (length data))
  = slice buff from (off - from) ++ data.
Proof.
  intros Hf Hl. unfold slice, store.
  rewrite skipn_app, length_firstn.
  replace (Z.to_nat from - Nat.min (Z.to_nat off) (length buff))%nat
    with O by lia.
  cbn [skipn]. rewrite skipn_firstn_comm.
  rewrite firstn_app, length_firstn, length_skipn.
  rewrite firstn_firstn.
  replace (Nat.min (Z.to_nat (off - from + Z.of_nat (length data)))
                   (Z.to_nat off - Z.to_nat from))
    with (Z.to_nat (off - from)) by lia.
  f_equal.
  rewrite firstn_app.
  replace (Z.to_nat (off - from + Z.of_nat (length data))
           - Nat.min (Z.to_nat off - Z.to_nat from)
                     (length buff - Z.to_nat from))%nat
    with (length data) by lia.
  rewrite firstn_all, Nat.sub_diag. cbn [firstn].
  apply app_nil_r.
Qed.

Lemma slice_store_same off data :
  0 <= off ->
  off + Z.of_nat (length data) <= Z.of_nat (length buff) ->
  slice (store buff off data) off (Z.of_nat (length data)) = data.
Proof.
  intros Ho Hl.
  pose proof (slice_store off off data ltac:(lia) Hl) as E.
  replace (off - off + Z.of_nat (length data))
    with (Z.of_nat (length data)) in E by lia.
  rewrite E, slice_nil by lia. reflexivity.
Qed.

End Slices.

(** ** The bound-decision layer *)

Lemma calc_range buff buff_size data_start data_end projected_max
      is_first_block is_end_of_input is_last_piece output_chunk_end :
  0 <= buff_size ->
  data_start <= data_end + 1 ->
  1 <= projected_max ->
  split_CalcUpperBoundOfOutputTransfer
    buff buff_size data_start data_end projected_max
    is_first_block is_end_of_input is_last_piece = Done output_chunk_end ->
  data_start - 1 <= output_chunk_end <= data_end.
Proof.
  intros HB Hord Hpm.
  unfold split_CalcUpperBoundOfOutputTransfer, calc_upper_bound_with.
  destruct (projected_max >? data_end - data_start + 1) eqn:E1.
  - destruct (data_end - data_start + 1 >=? buff_size) eqn:E2;
      intros [= <-]; bool_to_prop; lia.
  - bool_to_prop. destruct is_last_piece; [intros [= <-]; lia|].
    pose proof (find_bound_range (skipn (Z.to_nat data_start) buff)
                  (projected_max - 1) (data_end - data_start + 1)
                  is_first_block ltac:(lia)) as [R _].
    cbv zeta in R.
    destruct (negb (_ =? SPLIT_BOUND_NOT_FOUND)) eqn:E3.
    + intros [= <-]. bool_to_prop. lia.
    + destruct is_end_of_input; [intros [= <-]; lia | discriminate].
Qed.

Lemma write_output_done file buff data_start data_end :
  0 <= data_start ->
  data_start - 1 <= data_end ->
  data_end < Z.of_nat (length buff) ->
  split_WriteOutput file buff data_start data_end
  = Done (data_end - data_start + 1,
          file ++ slice buff data_start (data_end - data_start + 1)).
Proof.
  intros H0 H1 H2. unfold split_WriteOutput.
  rewrite slice_length by lia. rewrite Z.eqb_refl. reflexivity.
Qed.

(** ** The engine *)

Ltac fields :=
  cbn [double_buff data_start data_end bytes_available bytes_not_read
       input_rest files log] in *.

Section Engine.

Variable opts : split_Opts_t.
Variable input : list byte.

Local Abbreviation B := (buffer_size opts).

Hypothesis chunk_size_nonneg : 0 <= B.

Lemma slide_ok buff data_start data_end buff2 data_start2 data_end2 :
  Z.of_nat (length buff) = 2 * B ->
  0 <= data_start <= data_end + 1 ->
  B - 1 <= data_end <= 2 * B - 1 ->
  slide opts buff data_start data_end = (buff2, data_start2, data_end2) ->
  Z.of_nat (length buff2) = 2 * B
  /\ 0 <= data_start2 <= B
  /\ B - 1 <= data_end2 <= 2 * B - 1
  /\ data_end2 - data_start2 = data_end - data_start
  /\ slice buff2 data_start2 (data_end2 - data_start2 + 1)
     = slice buff data_start (data_end - data_start + 1).
Proof.
  intros Hlen Hs He. unfold slide.
  destruct ((data_start >=? B) && (data_end - data_start >=? 0)) eqn:M.
  - bool_to_prop. cbv beta iota zeta.
    destruct (Z.gtb_spec (B - (data_end - data_start + 1)) (B - 1));
      [lia|].
    intros [= <- <- <-].
    assert (L : Z.of_nat (length (slice buff data_start
                                    (data_end - data_start + 1)))
                = data_end - data_start + 1)
      by (apply slice_length; lia).
    repeat split; try lia.
    + rewrite store_length; lia.
    + replace (B - 1 - (B - (data_end - data_start + 1)) + 1)
        with (Z.of_nat (length (slice buff data_start
                                  (data_end - data_start + 1)))) by lia.
      apply slice_store_same; lia.
  - cbv beta iota zeta.
    destruct (data_start >? data_end) eqn:R; bool_to_prop.
    + intros [= <- <- <-]. repeat split; try lia.
      rewrite !slice_nil by lia. reflexivity.
    + intros [= <- <- <-].
      assert (data_start < B).
      { apply andb_false_iff in M. destruct M; bool_to_prop; lia. }
      repeat split; lia.
Qed.

Lemma refill_done st :
  engine_ok B input st ->
  exists st0,
    refill opts st = Done st0
    /\ engine_ok B input st0
    /\ data_start st0 = data_start st
    /\ bytes_available st0 = bytes_available st
    /\ files st0 = files st
    /\ log st0 = log st
    /\ (1 <= B -> 0 < bytes_available st ->
        1 <= data_end st0 - data_start st0 + 1).
Proof.
  intros [Hlen Hs He Ho Hn Ha Hb]. unfold refill.
  destruct (data_end st =? B - 1) eqn:E; bool_to_prop.
  - unfold split_FillUpperBuffHalfFromInput.
    destruct (bytes_not_read st =? 0) eqn:N; bool_to_prop.
    + eexists. split; [reflexivity|].
      repeat split; fields; rewrite ?Z.add_0_r, ?Z.sub_0_r;
        try assumption; try lia.
    + set (io_size := if B >? bytes_not_read st
                      then bytes_not_read st else B).
      assert (Hio : 0 <= io_size <= bytes_not_read st /\ io_size <= B
                    /\ (1 <= B -> 1 <= io_size)).
      { unfold io_size. destruct (B >? bytes_not_read st) eqn:G;
          bool_to_prop; lia. }
      assert (Ld : Z.of_nat (length (firstn (Z.to_nat io_size)
                                       (input_rest st))) = io_size)
        by (rewrite length_firstn; lia).
      rewrite Ld, Z.eqb_refl. cbn [negb].
      eexists. split; [reflexivity|].
      repeat split; fields; try assumption; try lia.
      * rewrite store_length; lia.
      * rewrite length_skipn. lia.
      * replace (data_end st + io_size - data_start st + 1)
          with (B - data_start st
                + Z.of_nat (length (firstn (Z.to_nat io_size)
                                      (input_rest st)))) by lia.
        rewrite slice_store by lia.
        rewrite <- app_assoc, firstn_skipn.
        replace (B - data_start st)
          with (data_end st - data_start st + 1) by lia.
        exact Hb.
  - exists st. repeat split; try assumption; lia.
Qed.

Lemma concat_write_newest fs data :
  fs <> [] ->
  concat (rev (write_newest fs (newest fs ++ data)))
  = concat (rev fs) ++ data.
Proof.
  destruct fs as [|f older]; [contradiction|]. intros _.
  cbn [write_newest newest rev].
  rewrite !concat_app. cbn [concat]. rewrite !app_nil_r.
  apply app_assoc.
Qed.

Lemma write_newest_length fs file :
  length (write_newest fs file) = length fs.
Proof. destruct fs; reflexivity. Qed.

(** A pass that ends keeps the engine in order.  The new [to_read] is 0
    or what the pass took off it, and in the last piece, where [to_read]
    is what is available, it stays so when chunks are not empty. *)
Lemma transfer_step_done piece_num is_first_block to_read st to_read' st' :
  engine_ok B input st ->
  files st <> [] ->
  1 <= to_read ->
  transfer_step opts piece_num is_first_block to_read st
  = (Done to_read', st') ->
  engine_ok B input st'
  /\ length (files st') = length (files st)
  /\ 0 <= to_read' < to_read
  /\ (to_read' = 0
      \/ to_read' = to_read - (bytes_available st - bytes_available st'))
  /\ (1 <= B -> piece_num = num_pieces opts - 1 ->
      to_read = bytes_available st -> to_read' = bytes_available st').
Proof.
  intros Hok Hf Htr. unfold transfer_step.
  destruct (refill_done st Hok)
    as (st0 & R & Hok0 & Eds & Eba & Ef & El & Hact).
  rewrite R.
  destruct (split_CalcUpperBoundOfOutputTransfer _ _ _ _ _ _ _ _)
    as [oce| |] eqn:C; try discriminate.
  destruct Hok0 as [Hlen Hs He Ho Hn Ha Hb].
  pose proof (calc_range _ _ _ _ _ _ _ _ _ chunk_size_nonneg Ho Htr C) as Hr.
  rewrite write_output_done by lia.
  destruct (slide opts (double_buff st0) (oce + 1) (data_end st0))
    as [[buff2 ds2] de2] eqn:S.
  apply slide_ok in S; [|assumption|lia|lia].
  destruct S as (S1 & S2 & S3 & S4 & S5).
  intros [= <- <-]. fields.
  split; [|split; [|split; [|split]]].
  - constructor; fields; try lia.
    + rewrite S5. rewrite concat_write_newest by congruence.
      replace (data_end st0 - data_start st0 + 1)
        with ((oce - data_start st0 + 1) + (data_end st0 - (oce + 1) + 1))
        in Hb by lia.
      rewrite slice_split in Hb by lia.
      replace (data_start st0 + (oce - data_start st0 + 1))
        with (oce + 1) in Hb by lia.
      rewrite <- !app_assoc in *. exact Hb.
  - rewrite write_newest_length. congruence.
  - destruct (oce <? data_start st0) eqn:E1; [lia|].
    destruct (oce - data_start st0 + 1 >? to_read) eqn:E2; [lia|].
    bool_to_prop. lia.
  - destruct (oce <? data_start st0) eqn:E1; [now left|].
    destruct (oce - data_start st0 + 1 >? to_read) eqn:E2; [now left|].
    right. lia.
  - intros HB Hlast Hall.
    specialize (Hact HB ltac:(lia)).
    revert C.
    unfold split_CalcUpperBoundOfOutputTransfer, calc_upper_bound_with.
    replace (piece_num =? num_pieces opts - 1) with true
      by (symmetry; apply Z.eqb_eq; exact Hlast).
    destruct (to_read >? data_end st0 - data_start st0 + 1) eqn:E1.
    + destruct (data_end st0 - data_start st0 + 1 >=? B) eqn:E2;
        intros [= <-]; bool_to_prop.
      * replace (data_start st0 + B - 1 <? data_start st0) with false
          by (symmetry; apply Z.ltb_ge; lia).
        replace (data_start st0 + B - 1 - data_start st0 + 1 >? to_read)
          with false
          by (symmetry; rewrite Z.gtb_ltb; apply Z.ltb_ge; lia).
        lia.
      * replace (data_end st0 <? data_start st0) with false
          by (symmetry; apply Z.ltb_ge; lia).
        replace (data_end st0 - data_start st0 + 1 >? to_read) with false
          by (symmetry; rewrite Z.gtb_ltb; apply Z.ltb_ge; lia).
        lia.
    + intros [= <-]. bool_to_prop.
      replace (data_end st0 <? data_start st0) with false
        by (symmetry; apply Z.ltb_ge; lia).
      replace (data_end st0 - data_start st0 + 1 >? to_read) with false
        by (symmetry; rewrite Z.gtb_ltb; apply Z.ltb_ge; lia).
      lia.
Qed.

Lemma calc_outcome buff data_start data_end projected_max
      is_first_block is_end_of_input is_last_piece :
  split_CalcUpperBoundOfOutputTransfer
    buff B data_start data_end projected_max
    is_first_block is_end_of_input is_last_piece <> OutOfFuel
  /\ forall e,
       split_CalcUpperBoundOfOutputTransfer
         buff B data_start data_end projected_max
         is_first_block is_end_of_input is_last_piece = Fatal e ->
       e = NoItemBound.
Proof.
  unfold split_CalcUpperBoundOfOutputTransfer, calc_upper_bound_with.
  destruct (projected_max >? _); [destruct (_ >=? B)|];
    [split; [discriminate | intros e [=]] ..|].
  destruct is_last_piece; [split; [discriminate | intros e [=]]|].
  destruct (negb _); [split; [discriminate | intros e [=]]|].
  destruct is_end_of_input; [split; [discriminate | intros e [=]]|].
  split; [discriminate | intros e [= <-]; reflexivity].
Qed.

(** Whatever the outcome of a pass, the call it logs is in order; a pass
    never fails on a read or a write, and when it fails the files are as
    they were. *)
Lemma transfer_step_any piece_num is_first_block to_read st o st' :
  engine_ok B input st ->
  1 <= to_read ->
  Forall call_ok (log st) ->
  (piece_num = num_pieces opts - 1 -> to_read = bytes_available st) ->
  transfer_step opts piece_num is_first_block to_read st = (o, st') ->
  Forall call_ok (log st')
  /\ o <> OutOfFuel
  /\ (forall e, o = Fatal e -> e = NoItemBound /\ files st' = files st).
Proof.
  intros Hok Htr Hlog Hlast. unfold transfer_step.
  destruct (refill_done st Hok)
    as (st0 & R & Hok0 & Eds & Eba & Ef & El & _).
  rewrite R.
  destruct Hok0 as [Hlen Hs He Ho Hn Ha Hb].
  assert (Hcall : Forall call_ok
            (CalcCall B (data_start st0) (data_end st0) to_read
               is_first_block (bytes_not_read st0 =? 0)
               (piece_num =? num_pieces opts - 1) :: log st0)).
  { constructor; [|rewrite El; exact Hlog].
    split; [lia|]. intros L. bool_to_prop. specialize (Hlast L). lia. }
  pose proof (calc_outcome (double_buff st0) (data_start st0)
                (data_end st0) to_read is_first_block
                (bytes_not_read st0 =? 0)
                (piece_num =? num_pieces opts - 1)) as [Cf Ce].
  destruct (split_CalcUpperBoundOfOutputTransfer _ _ _ _ _ _ _ _)
    as [oce|e|] eqn:C.
  - pose proof (calc_range _ _ _ _ _ _ _ _ _ chunk_size_nonneg Ho Htr C)
      as Hr.
    rewrite write_output_done by lia.
    destruct (slide opts (double_buff st0) (oce + 1) (data_end st0))
      as [[buff2 ds2] de2].
    intros [= <- <-]. fields.
    split; [exact Hcall|]. split; [discriminate | intros e [=]].
  - intros [= <- <-]. fields.
    split; [exact Hcall|]. split; [discriminate|].
    intros e' [= <-]. split; [apply Ce; reflexivity | exact Ef].
  - contradiction.
Qed.

(** The [while] loop with [to_read] passes allowed. *)
Lemma transfer_loop_spec piece_num fuel :
  forall is_first_block to_read st o st',
    engine_ok B input st ->
    files st <> [] ->
    0 <= to_read <= Z.of_nat fuel ->
    Forall call_ok (log st) ->
    (piece_num = num_pieces opts - 1 ->
     to_read = 0 \/ to_read = bytes_available st) ->
    transfer_loop opts fuel piece_num is_first_block to_read st = (o, st') ->
    o <> OutOfFuel
    /\ Forall call_ok (log st')
    /\ (forall e, o = Fatal e ->
          e = NoItemBound /\ length (files st') = length (files st))
    /\ (o = Done tt ->
        engine_ok B input st'
        /\ length (files st') = length (files st)
        /\ (1 <= B -> piece_num = num_pieces opts - 1 ->
            to_read = bytes_available st -> bytes_available st' = 0)).
Proof.
  induction fuel as [|fuel IH];
    intros fb to_read st o st' Hok Hf Htr Hlog Hlast.
  - cbn [transfer_loop].
    replace (to_read =? 0) with true by (symmetry; apply Z.eqb_eq; lia).
    intros [= <- <-].
    split; [discriminate|]. split; [assumption|].
    split; [intros e [=]|]. intros _.
    split; [assumption|]. split; [reflexivity|]. intros; lia.
  - cbn [transfer_loop].
    destruct (to_read =? 0) eqn:E0; bool_to_prop.
    + intros [= <- <-].
      split; [discriminate|]. split; [assumption|].
      split; [intros e [=]|]. intros _.
    split; [assumption|]. split; [reflexivity|]. intros; lia.
    + assert (Hlast' : piece_num = num_pieces opts - 1 ->
                       to_read = bytes_available st)
        by (intros L; destruct (Hlast L); [lia|assumption]).
      destruct (transfer_step opts piece_num fb to_read st)
        as [o1 st1] eqn:S.
      assert (Hpos : 1 <= to_read) by lia.
      pose proof (transfer_step_any _ _ _ _ _ _ Hok Hpos Hlog Hlast' S)
        as (Hlog1 & Hfuel1 & Hfatal1).
      destruct o1 as [to_read1|e|]; [|intros [= <- <-]|contradiction].
      * pose proof (transfer_step_done _ _ _ _ _ _ Hok Hf Hpos S)
          as (Hok1 & Hlen1 & Hdec & Hrem & Hall).
        intros L.
        assert (Hf1 : files st1 <> []).
        { intros N. rewrite N in Hlen1. destruct (files st); [|discriminate].
          contradiction. }
        assert (Hlast1 : piece_num = num_pieces opts - 1 ->
                         to_read1 = 0
                         \/ to_read1 = bytes_available st1).
        { intros K. specialize (Hlast' K). destruct Hrem; [now left|].
          right. lia. }
        destruct (IH false to_read1 st1 o st' Hok1 Hf1 ltac:(lia)
                     Hlog1 Hlast1 L) as (I1 & I2 & I3 & I4).
        split; [assumption|]. split; [assumption|].
        split.
        -- intros e He. destruct (I3 e He). split; [assumption|lia].
        -- intros Hd. destruct (I4 Hd) as (J1 & J2 & J3).
           split; [assumption|]. split; [lia|].
           intros HB K Ha. apply J3; try assumption.
           apply Hall; assumption.
      * split; [discriminate|]. split; [assumption|].
        split; [|discriminate].
        intros e' [= <-]. destruct (Hfatal1 e eq_refl) as [-> Hfs].
        split; [reflexivity | congruence].
Qed.

Lemma piece_target_last bytes piece_num :
  num_pieces opts - piece_num = 1 ->
  piece_target opts bytes piece_num = bytes.
Proof.
  intros E. unfold piece_target. rewrite E, Z.rem_1_r, Z.quot_1_r.
  reflexivity.
Qed.

Lemma piece_target_nonneg bytes piece_num :
  0 <= bytes -> 1 <= num_pieces opts - piece_num ->
  0 <= piece_target opts bytes piece_num.
Proof.
  intros Hb Hp. unfold piece_target.
  pose proof (Z.quot_pos bytes (num_pieces opts - piece_num) Hb ltac:(lia)).
  destruct (negb _); lia.
Qed.

Lemma engine_ok_new_piece st l :
  engine_ok B input st ->
  engine_ok B input
    {| double_buff := double_buff st; data_start := data_start st;
       data_end := data_end st; bytes_available := bytes_available st;
       bytes_not_read := bytes_not_read st; input_rest := input_rest st;
       files := [] :: files st; log := l |}.
Proof.
  intros [Hlen Hs He Ho Hn Ha Hb]. constructor; fields; try assumption.
  cbn [rev]. rewrite concat_app. cbn [concat]. rewrite !app_nil_r.
  exact Hb.
Qed.

(** The [for] loop over the pieces. *)
Lemma pieces_loop_spec rounds :
  forall piece_num st o st',
    engine_ok B input st ->
    Forall call_ok (log st) ->
    Z.of_nat rounds = Z.max 0 (num_pieces opts - piece_num) ->
    pieces_loop opts rounds piece_num st = (o, st') ->
    o <> OutOfFuel
    /\ Forall call_ok (log st')
    /\ (forall n, o = Fatal (CouldNotProducePieces n) ->
          Z.of_nat (length (files st'))
          = Z.of_nat (length (files st)) + (n - piece_num))
    /\ (forall e, o = Fatal e ->
          e = NoItemBound \/ exists n, e = CouldNotProducePieces n)
    /\ (o = Done tt ->
        engine_ok B input st'
        /\ length (files st') = (length (files st) + rounds)%nat
        /\ (1 <= B -> (0 < rounds)%nat -> bytes_available st' = 0)).
Proof.
  induction rounds as [|rounds IH]; intros k st o st' Hok Hlog Hr.
  - cbn [pieces_loop]. intros [= <- <-].
    split; [discriminate|]. split; [assumption|].
    split; [intros n [=]|]. split; [intros e [=]|]. intros _.
    split; [assumption|]. split; [lia|]. intros; lia.
  - cbn [pieces_loop].
    replace (k <? num_pieces opts) with true
      by (symmetry; apply Z.ltb_lt; lia).
    set (to_read := piece_target opts (bytes_available st) k).
    assert (Hba : 0 <= bytes_available st).
    { destruct Hok as [_ _ _ Ho Hn Ha _]. lia. }
    assert (Htr : 0 <= to_read)
      by (apply piece_target_nonneg; lia).
    destruct (to_read =? 0) eqn:E0; bool_to_prop.
    + intros [= <- <-]. fields.
      split; [discriminate|].
      split; [constructor; [exact I | assumption]|].
      split; [intros n [= <-]; lia|].
      split; [|discriminate].
      intros e [= <-]. right. eexists. reflexivity.
    + set (st1 := {| double_buff := double_buff st;
                     data_start := data_start st;
                     data_end := data_end st;
                     bytes_available := bytes_available st;
                     bytes_not_read := bytes_not_read st;
                     input_rest := input_rest st;
                     files := [] :: files st;
                     log := PieceTarget k to_read :: log st |}).
      assert (Hok1 : engine_ok B input st1)
        by (apply engine_ok_new_piece; assumption).
      assert (Hf1 : files st1 <> []) by discriminate.
      assert (Hfuel : 0 <= to_read <= Z.of_nat (Z.to_nat to_read)) by lia.
      assert (Hlog1 : Forall call_ok (log st1))
        by (constructor; [exact I | assumption]).
      assert (Hlast : k = num_pieces opts - 1 ->
                      to_read = 0 \/ to_read = bytes_available st1).
      { intros K. right. unfold to_read. apply piece_target_last. lia. }
      destruct (transfer_loop opts (Z.to_nat to_read) k true to_read st1)
        as [o2 st2] eqn:L.
      destruct (transfer_loop_spec k _ _ _ _ _ _ Hok1 Hf1 Hfuel Hlog1
                  Hlast L) as (T1 & T2 & T3 & T4).
      destruct o2 as [[]|e|]; [|intros [= <- <-]|contradiction].
      * destruct (T4 eq_refl) as (Hok2 & Hlen2 & Hzero).
        intros R.
        destruct (IH (k + 1) st2 o st' Hok2 T2 ltac:(lia) R)
          as (I1 & I2 & I3 & I5 & I4).
        split; [assumption|]. split; [assumption|]. split; [|split].
        -- intros n Hn. rewrite (I3 n Hn), Hlen2. cbn [files st1 length].
           lia.
        -- exact I5.
        -- intros Hd. destruct (I4 Hd) as (J1 & J2 & J3).
           split; [assumption|]. split.
           ++ rewrite J2, Hlen2. cbn [files st1 length]. lia.
           ++ intros HB _. destruct rounds as [|rounds'].
              ** cbn [pieces_loop] in R. injection R as <- <-.
                 apply Hzero; [assumption|lia|].
                 unfold to_read. apply piece_target_last. lia.
              ** apply J3; [assumption|lia].
      * split; [discriminate|]. split; [assumption|].
        split; [|split; [|discriminate]].
        -- intros n [= ->]. destruct (T3 _ eq_refl) as [N _]. discriminate.
        -- intros e' [= <-]. left. apply (T3 e eq_refl).
Qed.

Lemma initial_ok : engine_ok B input (initial opts input).
Proof.
  constructor; cbn [initial double_buff data_start data_end bytes_available
                    bytes_not_read input_rest files log rev concat app];
    try lia.
  - rewrite repeat_length. lia.
  - rewrite slice_nil by lia. reflexivity.
Qed.

(** The whole run: the fuel is never short, every logged call is in
    order, a run that stops for want of bytes names the number of files it
    made, and a run that ends has written the input, in as many files as
    pieces were asked for. *)
Lemma split_source_spec o st' :
  split_SplitSource opts input = (o, st') ->
  o <> OutOfFuel
  /\ Forall call_ok (log st')
  /\ (forall n, o = Fatal (CouldNotProducePieces n) ->
        Z.of_nat (length (files st')) = n)
  /\ (forall e, o = Fatal e ->
        e = NoItemBound \/ exists n, e = CouldNotProducePieces n)
  /\ (o = Done tt -> 1 <= B -> 1 <= num_pieces opts ->
      concat (pieces_of (o, st')) = input
      /\ Z.of_nat (length (pieces_of (o, st'))) = num_pieces opts).
Proof.
  unfold split_SplitSource. intros R.
  assert (Hr : Z.of_nat (Z.to_nat (num_pieces opts))
               = Z.max 0 (num_pieces opts - 0)) by lia.
  destruct (pieces_loop_spec _ _ _ _ _ initial_ok (Forall_nil _) Hr R)
    as (S1 & S2 & S3 & S5 & S4).
  split; [assumption|]. split; [assumption|]. split; [|split].
  - intros n Hn. rewrite (S3 n Hn). cbn [initial files length]. lia.
  - exact S5.
  - intros Hd HB HP. destruct (S4 Hd) as (Hok & Hlen & Hzero).
    unfold pieces_of. cbn [snd]. split.
    + specialize (Hzero HB ltac:(lia)).
      destruct Hok as [_ _ _ Ho Hn Ha Hb].
      assert (Hrest : input_rest st' = [])
        by (apply length_zero_iff_nil; lia).
      rewrite Hrest, slice_nil, !app_nil_r in Hb by lia. exact Hb.
    + rewrite length_rev, Hlen. cbn [initial files length]. lia.
Qed.

End Engine.

(** ** The claims about the engine *)

(** X1. For every chunk size of at least one byte and every number of
    pieces of at least one, a run that ends has written every byte of the
    input, in order and once, over exactly [num_pieces] files. *)
Theorem pieces_reproduce_input :
  forall opts input st',
    1 <= buffer_size opts ->
    1 <= num_pieces opts ->
    split_SplitSource opts input = (Done tt, st') ->
    concat (pieces_of (Done tt, st')) = input
    /\ Z.of_nat (length (pieces_of (Done tt, st'))) = num_pieces opts.
Proof.
  intros opts input st' HB HP R.
  destruct (split_source_spec opts input ltac:(lia) _ _ R)
    as (_ & _ & _ & _ & H).
  apply H; [reflexivity | assumption | assumption].
Qed.

Lemma pieces_reproduce_input_witness :
  concat (pieces_of (Done tt, snd (split_SplitSource (mk_opts 2 5)
                                                     two_elements)))
  = two_elements
  /\ Z.of_nat (length (pieces_of
                         (Done tt, snd (split_SplitSource (mk_opts 2 5)
                                                          two_elements))))
     = num_pieces (mk_opts 2 5).
Proof.
  apply (pieces_reproduce_input (mk_opts 2 5) two_elements
           (snd (split_SplitSource (mk_opts 2 5) two_elements))).
  - vm_compute. discriminate.
  - vm_compute. discriminate.
  - vm_compute. reflexivity.
Defined.

(** C1, at the chunk size the claim does not hold for. With a chunk size of
    0, which the command line takes ([--cs 0]), the run of the default build
    on [two_elements] ends without an error, and both pieces are empty: no
    byte of the input is written. ([SPLIT_ASSERT( bytes_available == 0)] at
    the end of [split_SplitSource] is what the run breaks; for every chunk
    size of at least 1 the claim is [pieces_reproduce_input].) *)
Theorem chunk_size_zero_loses_input :
  fst (split_SplitSource (mk_opts 2 0) two_elements) = Done tt
  /\ pieces_of (split_SplitSource (mk_opts 2 0) two_elements) = [[]; []]
  /\ concat (pieces_of (split_SplitSource (mk_opts 2 0) two_elements))
     <> two_elements
  /\ bytes_available (snd (split_SplitSource (mk_opts 2 0) two_elements))
     = 12.
Proof.
  repeat split; try reflexivity. vm_compute. discriminate.
Qed.

(** *** A chunk that holds the whole file *)

Lemma skipn_store buff off data :
  0 <= off <= Z.of_nat (length buff) ->
  skipn (Z.to_nat off) (store buff off data)
  = data ++ skipn (Z.to_nat off + length data) buff.
Proof.
  intros H. unfold store.
  rewrite skipn_app, length_firstn.
  replace (Z.to_nat off - Nat.min (Z.to_nat off) (length buff))%nat
    with O by lia.
  rewrite skipn_firstn_comm, Nat.sub_diag. reflexivity.
Qed.

Lemma slice_in_store buff off data j n :
  0 <= off <= Z.of_nat (length buff) -> 0 <= j ->
  slice (store buff off data) (off + j) n
  = firstn (Z.to_nat n)
      (skipn (Z.to_nat j) (data ++ skipn (Z.to_nat off + length data) buff)).
Proof.
  intros Ho Hj. unfold slice.
  replace (Z.to_nat (off + j)) with (Z.to_nat j + Z.to_nat off)%nat by lia.
  rewrite <- skipn_skipn, skipn_store by lia. reflexivity.
Qed.

Ltac decide_tests :=
  repeat match goal with
    | |- context [?a =? ?b] =>
        first [ replace (a =? b) with true by (symmetry; apply Z.eqb_eq; lia)
              | replace (a =? b) with false by (symmetry; apply Z.eqb_neq; lia) ]
    | |- context [?a <? ?b] =>
        first [ replace (a <? b) with true by (symmetry; apply Z.ltb_lt; lia)
              | replace (a <? b) with false by (symmetry; apply Z.ltb_ge; lia) ]
    | |- context [?a >? ?b] =>
        first [ replace (a >? b) with true
                  by (symmetry; rewrite Z.gtb_ltb; apply Z.ltb_lt; lia)
              | replace (a >? b) with false
                  by (symmetry; rewrite Z.gtb_ltb; apply Z.ltb_ge; lia) ]
    | |- context [?a >=? ?b] =>
        first [ replace (a >=? b) with true
                  by (symmetry; rewrite Z.geb_leb; apply Z.leb_le; lia)
              | replace (a >=? b) with false
                  by (symmetry; rewrite Z.geb_leb; apply Z.leb_gt; lia) ]
    end.

Lemma large_chunk_first_pass B st :
  12 <= B ->
  Z.of_nat (length (double_buff st)) = 2 * B ->
  data_start st = B -> data_end st = B - 1 ->
  bytes_available st = 12 -> bytes_not_read st = 12 ->
  input_rest st = two_elements -> files st = [[]] ->
  exists st',
    transfer_step (mk_opts 2 B) 0 true 6 st = (Done 0, st')
    /\ double_buff st'
       = store (store (double_buff st) B two_elements) (B - 6)
               [x3e; x62; x0a; x47; x54; x0a]
    /\ data_start st' = B - 6 /\ data_end st' = B - 1
    /\ bytes_available st' = 6 /\ bytes_not_read st' = 0
    /\ input_rest st' = []
    /\ files st' = [[x3e; x61; x0a; x41; x43; x0a]].
Proof.
  intros HB Hlen Hs He Ha Hn Hr Hf.
  unfold transfer_step, refill, split_FillUpperBuffHalfFromInput.
  cbn [buffer_size num_pieces mk_opts].
  rewrite Hs, He, Ha, Hn, Hr, Hf.
  decide_tests.
  assert (Eio : (if B >? 12 then 12 else B) = 12)
    by (destruct (Z.gtb_spec B 12); lia).
  rewrite Eio.
  change (firstn (Z.to_nat 12) two_elements) with two_elements.
  change (skipn (Z.to_nat 12) two_elements) with (@nil byte).
  change (Z.of_nat (length two_elements)) with 12.
  cbn [Z.eqb Pos.eqb negb].
  fields.
  unfold split_CalcUpperBoundOfOutputTransfer, calc_upper_bound_with.
  replace (B - 1 + 12 - B + 1) with 12 by lia.
  cbn [Z.gtb Z.compare Pos.compare Pos.compare_cont].
  rewrite (skipn_store (double_buff st) B two_elements) by lia.
  set (tail := skipn (Z.to_nat B + length two_elements) (double_buff st)).
  assert (Ef : split_FindBound (two_elements ++ tail) (6 - 1) 12 true = 5)
    by reflexivity.
  rewrite Ef.
  cbn [Z.eqb negb SPLIT_BOUND_NOT_FOUND].
  unfold split_WriteOutput, newest.
  replace (5 + B - B + 1) with 6 by lia.
  replace (5 + B + 1) with (B + 6) by lia.
  replace (B - 1 + 12) with (B + 11) by lia.
  assert (E1 : slice (store (double_buff st) B two_elements) B 6
               = [x3e; x61; x0a; x41; x43; x0a]).
  { replace B with (B + 0) at 2 by lia.
    rewrite slice_in_store by lia. reflexivity. }
  rewrite E1.
  cbn [length Z.of_nat Pos.of_succ_nat Pos.succ Z.eqb Pos.eqb negb app
       write_newest].
  unfold slide. cbn [buffer_size mk_opts].
  decide_tests. cbn [andb].
  replace (B + 11 - (B + 6) + 1) with 6 by lia.
  assert (E2 : slice (store (double_buff st) B two_elements) (B + 6) 6
               = [x3e; x62; x0a; x47; x54; x0a]).
  { rewrite slice_in_store by lia. reflexivity. }
  rewrite E2.
  decide_tests.
  eexists. split; [reflexivity|]. fields.
  repeat split; lia.
Qed.

Lemma large_chunk_second_pass B st buff :
  12 <= B ->
  Z.of_nat (length buff) = 2 * B ->
  double_buff st = store buff (B - 6) [x3e; x62; x0a; x47; x54; x0a] ->
  data_start st = B - 6 -> data_end st = B - 1 ->
  bytes_available st = 6 -> bytes_not_read st = 0 ->
  input_rest st = [] ->
  files st = [[]; [x3e; x61; x0a; x41; x43; x0a]] ->
  exists st',
    transfer_step (mk_opts 2 B) 1 true 6 st = (Done 0, st')
    /\ files st' = [[x3e; x62; x0a; x47; x54; x0a];
                    [x3e; x61; x0a; x41; x43; x0a]].
Proof.
  intros HB Hlen Hb Hs He Ha Hn Hr Hf.
  unfold transfer_step, refill, split_FillUpperBuffHalfFromInput.
  cbn [buffer_size num_pieces mk_opts].
  rewrite Hb, Hs, He, Ha, Hn, Hr, Hf.
  decide_tests. fields.
  unfold split_CalcUpperBoundOfOutputTransfer, calc_upper_bound_with.
  decide_tests.
  unfold split_WriteOutput, newest.
  replace (B - 1 + 0 - (B - 6) + 1) with 6 by lia.
  assert (E1 : slice (store buff (B - 6) [x3e; x62; x0a; x47; x54; x0a])
                     (B - 6) 6
               = [x3e; x62; x0a; x47; x54; x0a]).
  { apply (slice_store_same buff (B - 6) [x3e; x62; x0a; x47; x54; x0a]).
    - lia.
    - cbn [length]. lia. }
  rewrite E1.
  cbn [length Z.of_nat Pos.of_succ_nat Pos.succ Z.eqb Pos.eqb negb app
       write_newest].
  unfold slide. cbn [buffer_size mk_opts].
  decide_tests. cbn [andb]. decide_tests.
  eexists. split; reflexivity.
Qed.

Lemma large_chunk_pieces B st :
  12 <= B ->
  Z.of_nat (length (double_buff st)) = 2 * B ->
  data_start st = B -> data_end st = B - 1 ->
  bytes_available st = 12 -> bytes_not_read st = 12 ->
  input_rest st = two_elements -> files st = [] ->
  exists st',
    pieces_loop (mk_opts 2 B) 2 0 st = (Done tt, st')
    /\ files st' = [[x3e; x62; x0a; x47; x54; x0a];
                    [x3e; x61; x0a; x41; x43; x0a]].
Proof.
  intros HB Hlen Hs He Ha Hn Hr Hf.
  cbn [pieces_loop num_pieces mk_opts].
  rewrite Ha, Hf.
  change (piece_target (mk_opts 2 B) 12 0) with 6.
  change (0 <? 2) with true. change (6 =? 0) with false.
  change (Z.to_nat 6) with 6%nat. cbv iota.
  (* piece 0 *)
  match goal with
  | |- context [transfer_loop _ _ 0 true 6 ?s] =>
      destruct (large_chunk_first_pass B s HB)
        as (st1 & E1 & Hb1 & Hs1 & He1 & Ha1 & Hn1 & Hr1 & Hf1);
      fields; try assumption; try reflexivity
  end.
  cbn [transfer_loop]. change (6 =? 0) with false. cbv iota.
  rewrite E1. change (0 =? 0) with true. cbv iota.
  (* piece 1 *)
  rewrite Ha1, Hf1.
  change (0 + 1) with 1.
  change (piece_target (mk_opts 2 B) 6 1) with 6.
  change (1 <? 2) with true. change (6 =? 0) with false.
  change (Z.to_nat 6) with 6%nat. cbv iota.
  match goal with
  | |- context [transfer_loop _ _ 1 true 6 ?s] =>
      destruct (large_chunk_second_pass B s
                  (store (double_buff st) B two_elements) HB)
        as (st2 & E2 & Hf2);
      fields; try assumption; try reflexivity
  end.
  { rewrite store_length
      by (change (length two_elements) with 12%nat; lia).
    exact Hlen. }
  cbn [transfer_loop]. change (6 =? 0) with false. cbv iota.
  rewrite E2. change (0 =? 0) with true. cbv iota.
  exists st2. split; [reflexivity | exact Hf2].
Qed.

(** On [two_elements] with two pieces, every chunk that holds the whole
    file gives the two pieces of the scenario. *)
Lemma large_chunk_two_elements B :
  12 <= B ->
  fst (split_SplitSource (mk_opts 2 B) two_elements) = Done tt
  /\ pieces_of (split_SplitSource (mk_opts 2 B) two_elements)
     = [[x3e; x61; x0a; x41; x43; x0a]; [x3e; x62; x0a; x47; x54; x0a]].
Proof.
  intros HB. unfold split_SplitSource, pieces_of.
  change (Z.to_nat (num_pieces (mk_opts 2 B))) with 2%nat.
  destruct (large_chunk_pieces B (initial (mk_opts 2 B) two_elements) HB)
    as (st' & E & Hf); try reflexivity.
  - cbn [initial double_buff buffer_size mk_opts].
    rewrite repeat_length. lia.
  - rewrite E. cbn [fst snd]. rewrite Hf. split; reflexivity.
Qed.

(** C3. On [">a\nAC\n>b\nGT\n"] with two pieces the run ends and the pieces
    are [">a\nAC\n"] and [">b\nGT\n"], with every chunk size that holds the
    whole file (12 bytes or more) and with a chunk of 5 bytes, which takes
    three reads; the output with 5 bytes is that of the large chunk. *)
Theorem scenario_two_elements :
  forall B,
    12 <= B ->
    (fst (split_SplitSource (mk_opts 2 B) two_elements) = Done tt
     /\ pieces_of (split_SplitSource (mk_opts 2 B) two_elements)
        = [[x3e; x61; x0a; x41; x43; x0a]; [x3e; x62; x0a; x47; x54; x0a]])
    /\ (fst (split_SplitSource (mk_opts 2 5) two_elements) = Done tt
        /\ pieces_of (split_SplitSource (mk_opts 2 5) two_elements)
           = [[x3e; x61; x0a; x41; x43; x0a];
              [x3e; x62; x0a; x47; x54; x0a]])
    /\ pieces_of (split_SplitSource (mk_opts 2 5) two_elements)
       = pieces_of (split_SplitSource (mk_opts 2 B) two_elements).
Proof.
  intros B HB.
  destruct (large_chunk_two_elements B HB) as [D P].
  split; [split; assumption|].
  split; [split; vm_compute; reflexivity|].
  rewrite P. vm_compute. reflexivity.
Qed.

(** The witness takes the default chunk size, [SPLIT_BUFFER_SIZE_DEFAULT]. *)
Lemma scenario_two_elements_witness :
  (fst (split_SplitSource (mk_opts 2 4194304) two_elements) = Done tt
   /\ pieces_of (split_SplitSource (mk_opts 2 4194304) two_elements)
      = [[x3e; x61; x0a; x41; x43; x0a]; [x3e; x62; x0a; x47; x54; x0a]])
  /\ (fst (split_SplitSource (mk_opts 2 5) two_elements) = Done tt
      /\ pieces_of (split_SplitSource (mk_opts 2 5) two_elements)
         = [[x3e; x61; x0a; x41; x43; x0a];
            [x3e; x62; x0a; x47; x54; x0a]])
  /\ pieces_of (split_SplitSource (mk_opts 2 5) two_elements)
     = pieces_of (split_SplitSource (mk_opts 2 4194304) two_elements).
Proof.
  apply (scenario_two_elements 4194304). lia.
Defined.

(** C4, at an input the claim does not hold for. On [three_elements] with
    two pieces and chunks of 5 bytes, piece 0 ends with a write of no byte
    while the upper half is full; the 5 bytes are moved to the lower half,
    the upper half is filled again, and the decision layer is called with 10
    bytes of active data, which is twice the chunk size:
    [SPLIT_ASSERT( active_data_size < 2 * buff_size)] does not hold. *)
Theorem active_data_fill_buffer :
  fst (split_SplitSource (mk_opts 2 5) three_elements) = Done tt
  /\ In (5, 0, 9, 10, true)
        (calc_calls (log (snd (split_SplitSource (mk_opts 2 5)
                                                 three_elements))))
  /\ ~ (9 - 0 + 1 < 2 * 5).
Proof.
  split; [reflexivity|]. split; [|lia].
  vm_compute. right. right. left. reflexivity.
Qed.

(** The bound that does hold: at every call of the decision layer the
    active data are at most twice the chunk size. *)
Theorem active_data_fit_buffer :
  forall opts input b s e p lp,
    0 <= buffer_size opts ->
    In (b, s, e, p, lp)
       (calc_calls (log (snd (split_SplitSource opts input)))) ->
    e - s + 1 <= 2 * b.
Proof.
  intros opts input b s e p lp HB Hin.
  destruct (split_SplitSource opts input) as [o st'] eqn:R.
  destruct (split_source_spec opts input HB _ _ R) as (_ & L & _).
  cbn [snd] in Hin. unfold calc_calls in Hin.
  apply in_rev in Hin. apply in_flat_map in Hin.
  destruct Hin as (ev & Hev & Hin).
  rewrite Forall_forall in L. specialize (L ev Hev).
  destruct ev as [|b' s' e' p' fb eoi lp']; [contradiction|].
  destruct Hin as [[= <- <- <- <- <-]|[]]. apply L.
Qed.

Lemma active_data_fit_buffer_witness : 9 - 0 + 1 <= 2 * 5.
Proof.
  apply (active_data_fit_buffer (mk_opts 2 5) three_elements 5 0 9 10 true).
  - vm_compute. discriminate.
  - vm_compute. right. right. left. reflexivity.
Defined.

(** *** Targets of the pieces *)

(** C5 as stated fails. On [uneven_elements] with two pieces the target of
    piece 0 is 7; the locator ends the piece on the left of the projected
    bound, after 5 bytes, and the target of piece 1 is 9.  (What holds of
    the targets of a run is [next_target_not_larger], further down.) *)
Lemma targets_counterexample :
  ~ (forall opts input,
       1 <= buffer_size opts -> 2 <= num_pieces opts ->
       non_increasing (targets (log (snd (split_SplitSource opts input))))).
Proof.
  intros H.
  specialize (H (mk_opts 2 100) uneven_elements).
  assert (E : targets (log (snd (split_SplitSource (mk_opts 2 100)
                                                   uneven_elements)))
              = [7; 9]) by (vm_compute; reflexivity).
  rewrite E in H. cbn in H.
  assert (9 <= 7); [|lia].
  apply H; lia.
Qed.

Lemma piece_target_ceiling opts bytes piece_num t :
  0 <= bytes ->
  1 <= num_pieces opts - piece_num ->
  (piece_target opts bytes piece_num <= t
   <-> bytes <= t * (num_pieces opts - piece_num)).
Proof.
  intros Hb Hm. unfold piece_target.
  set (m := num_pieces opts - piece_num) in *.
  rewrite Z.quot_div_nonneg, Z.rem_mod_nonneg by lia.
  pose proof (Z.div_mod bytes m ltac:(lia)) as D.
  pose proof (Z.mod_pos_bound bytes m ltac:(lia)) as M.
  destruct (Z.eqb_spec (bytes mod m) 0) as [E|E]; cbn [negb]; split; nia.
Qed.

(** *** The last piece *)

Lemma refill_files opts st st0 :
  refill opts st = Done st0 -> files st0 = files st /\ log st0 = log st.
Proof.
  unfold refill. destruct (data_end st =? buffer_size opts - 1).
  - destruct (split_FillUpperBuffHalfFromInput _ _ _ _) as [[[n b] r]|e|];
      [|discriminate|discriminate].
    intros [= <-]. split; reflexivity.
  - intros [= <-]. split; reflexivity.
Qed.

(** A pass in which the decision layer returns [data_end] while no more is
    asked for than is active: the whole active data go to the file of the
    piece, nothing is left in the buffer and the [while] loop ends. *)
Lemma pass_takes_active_data opts piece_num is_first_block to_read st st0
      cur older :
  refill opts st = Done st0 ->
  files st = cur :: older ->
  0 <= data_start st0 <= data_end st0 + 1 ->
  data_end st0 < Z.of_nat (length (double_buff st0)) ->
  to_read <= data_end st0 - data_start st0 + 1 ->
  split_CalcUpperBoundOfOutputTransfer
    (double_buff st0) (buffer_size opts) (data_start st0) (data_end st0)
    to_read is_first_block (bytes_not_read st0 =? 0)
    (piece_num =? num_pieces opts - 1) = Done (data_end st0) ->
  exists st',
    transfer_step opts piece_num is_first_block to_read st = (Done 0, st')
    /\ files st'
       = (cur ++ slice (double_buff st0) (data_start st0)
                       (data_end st0 - data_start st0 + 1)) :: older
    /\ data_end st' - data_start st' + 1 = 0
    /\ bytes_available st'
       = bytes_available st0 - (data_end st0 - data_start st0 + 1).
Proof.
  intros R Hf Hs He Htr C. unfold transfer_step. rewrite R, C.
  rewrite write_output_done by lia.
  destruct (refill_files opts st st0 R) as [Ef _].
  unfold slide.
  replace (data_end st0 - (data_end st0 + 1) >=? 0) with false
    by (symmetry; rewrite Z.geb_leb; apply Z.leb_gt; lia).
  rewrite andb_false_r.
  replace (data_end st0 + 1 >? data_end st0) with true
    by (symmetry; rewrite Z.gtb_ltb; apply Z.ltb_lt; lia).
  eexists. split.
  - apply f_equal2; [|reflexivity]. f_equal.
    destruct (data_end st0 <? data_start st0); [reflexivity|].
    destruct (data_end st0 - data_start st0 + 1 >? to_read) eqn:G;
      [reflexivity|]. bool_to_prop. lia.
  - fields. rewrite Ef, Hf. cbn [newest write_newest].
    split; [reflexivity|]. split; [lia | reflexivity].
Qed.

(** C6. Take a pass of the [while] loop of the last piece in which, after
    the upper half was filled, the projected size is not above the size of
    the active data, which lie in the buffer.  The decision layer returns
    [data_end] whatever the locator is, so that the locator has no part in
    the result; the pass appends the whole active data to the file of the
    piece, as they are in the buffer, and leaves nothing active; and when
    the call is one the engine makes in a run, the projected size is the
    size of the active data. *)
Theorem last_piece_takes_active_data :
  forall opts input find_bound piece_num is_first_block is_end_of_input
         to_read st st0 cur older,
    0 <= buffer_size opts ->
    piece_num = num_pieces opts - 1 ->
    refill opts st = Done st0 ->
    files st = cur :: older ->
    0 <= data_start st0 <= data_end st0 + 1 ->
    data_end st0 < Z.of_nat (length (double_buff st0)) ->
    to_read <= data_end st0 - data_start st0 + 1 ->
    calc_upper_bound_with find_bound (double_buff st0) (buffer_size opts)
      (data_start st0) (data_end st0) to_read is_first_block
      is_end_of_input true = Done (data_end st0)
    /\ (exists st',
          transfer_step opts piece_num is_first_block to_read st
          = (Done 0, st')
          /\ files st'
             = (cur ++ slice (double_buff st0) (data_start st0)
                             (data_end st0 - data_start st0 + 1)) :: older
          /\ data_end st' - data_start st' + 1 = 0)
    /\ (In (buffer_size opts, data_start st0, data_end st0, to_read, true)
           (calc_calls (log (snd (split_SplitSource opts input)))) ->
        to_read = data_end st0 - data_start st0 + 1).
Proof.
  intros opts input fnd k fb eoi to_read st st0 cur older HB Hk R Hf Hs He
         Htr.
  assert (C : forall f eoi',
             calc_upper_bound_with f (double_buff st0) (buffer_size opts)
               (data_start st0) (data_end st0) to_read fb eoi' true
             = Done (data_end st0)).
  { intros f eoi'. unfold calc_upper_bound_with.
    replace (to_read >? data_end st0 - data_start st0 + 1) with false
      by (symmetry; rewrite Z.gtb_ltb; apply Z.ltb_ge; lia).
    reflexivity. }
  split; [apply C|]. split.
  - destruct (pass_takes_active_data opts k fb to_read st st0 cur older
                R Hf Hs He Htr) as (st' & S1 & S2 & S3 & _).
    + replace (k =? num_pieces opts - 1) with true
        by (symmetry; apply Z.eqb_eq; exact Hk).
      apply C.
    + exists st'. split; [exact S1|]. split; [exact S2 | exact S3].
  - intros Hin.
    destruct (split_SplitSource opts input) as [o st''] eqn:Run.
    destruct (split_source_spec opts input HB _ _ Run) as (_ & L & _).
    cbn [snd] in Hin. unfold calc_calls in Hin.
    apply in_rev in Hin. apply in_flat_map in Hin.
    destruct Hin as (ev & Hev & Hin).
    rewrite Forall_forall in L. specialize (L ev Hev).
    destruct ev as [|b' s' e' p' fb' eoi' lp']; [contradiction|].
    destruct Hin as [E|[]]. injection E as -> -> -> -> ->.
    destruct L as [_ L]. specialize (L eq_refl). lia.
Qed.

Lemma last_piece_takes_active_data_witness :
  calc_upper_bound_with split_FindBound (double_buff before_last_pass) 12
    6 11 6 true true true = Done 11
  /\ (exists st',
        transfer_step (mk_opts 2 12) 1 true 6 before_last_pass
        = (Done 0, st')
        /\ files st' = [[x3e; x62; x0a; x47; x54; x0a];
                        [x3e; x61; x0a; x41; x43; x0a]]
        /\ data_end st' - data_start st' + 1 = 0)
  /\ (In (12, 6, 11, 6, true)
         (calc_calls (log (snd (split_SplitSource (mk_opts 2 12)
                                                  two_elements)))) ->
      6 = 11 - 6 + 1).
Proof.
  apply (last_piece_takes_active_data (mk_opts 2 12) two_elements
           split_FindBound 1 true true 6 before_last_pass before_last_pass
           [] [[x3e; x61; x0a; x41; x43; x0a]]).
  - vm_compute. discriminate.
  - reflexivity.
  - vm_compute. reflexivity.
  - vm_compute. reflexivity.
  - vm_compute. split; discriminate.
  - vm_compute. reflexivity.
  - vm_compute. discriminate.
Defined.

(** Scenario E, in the run that [before_last_pass] is taken from: the loop
    of the last piece is what is left of the run, and piece 1 is the six
    bytes that were active. *)
Lemma scenario_last_piece :
  transfer_loop (mk_opts 2 12) 6 1 true 6 before_last_pass
  = split_SplitSource (mk_opts 2 12) two_elements
  /\ pieces_of (split_SplitSource (mk_opts 2 12) two_elements)
     = [[x3e; x61; x0a; x41; x43; x0a]; [x3e; x62; x0a; x47; x54; x0a]].
Proof. split; vm_compute; reflexivity. Qed.

(** *** No bound in the window *)

(** C7. Take a pass of the [while] loop of a piece that is not the last, in
    which, after the upper half was filled, the projected size is not above
    the size of the active data and the locator finds no bound in them.
    With the end of the input reached the decision layer returns
    [data_end], and the pass appends the whole active data, which lie in
    the buffer, to the file of the piece and ends the loop; with input left
    it leaves through
    [SPLIT_ERROR( "No item bound found inside a data chunk. ...")], the loop
    ends with that error, and nothing was written in the pass. *)
Theorem no_bound_in_window :
  forall opts piece_num is_first_block to_read st st0 fuel,
    refill opts st = Done st0 ->
    to_read <> 0 ->
    to_read <= data_end st0 - data_start st0 + 1 ->
    piece_num <> num_pieces opts - 1 ->
    split_FindBound (skipn (Z.to_nat (data_start st0)) (double_buff st0))
                    (to_read - 1) (data_end st0 - data_start st0 + 1)
                    is_first_block = SPLIT_BOUND_NOT_FOUND ->
    split_CalcUpperBoundOfOutputTransfer
      (double_buff st0) (buffer_size opts) (data_start st0) (data_end st0)
      to_read is_first_block true false = Done (data_end st0)
    /\ split_CalcUpperBoundOfOutputTransfer
         (double_buff st0) (buffer_size opts) (data_start st0) (data_end st0)
         to_read is_first_block false false = Fatal NoItemBound
    /\ (bytes_not_read st0 = 0 ->
        forall cur older,
          files st = cur :: older ->
          0 <= data_start st0 <= data_end st0 + 1 ->
          data_end st0 < Z.of_nat (length (double_buff st0)) ->
          fst (transfer_loop opts (S fuel) piece_num is_first_block to_read
                             st) = Done tt
          /\ files (snd (transfer_loop opts (S fuel) piece_num
                                       is_first_block to_read st))
             = (cur ++ slice (double_buff st0) (data_start st0)
                             (data_end st0 - data_start st0 + 1)) :: older)
    /\ (bytes_not_read st0 <> 0 ->
        fst (transfer_loop opts (S fuel) piece_num is_first_block to_read st)
        = Fatal NoItemBound
        /\ files (snd (transfer_loop opts (S fuel) piece_num is_first_block
                                     to_read st)) = files st).
Proof.
  intros opts k fb to_read st st0 fuel R Hne Hle Hk Hnf.
  assert (C : forall eoi,
             split_CalcUpperBoundOfOutputTransfer
               (double_buff st0) (buffer_size opts) (data_start st0)
               (data_end st0) to_read fb eoi false
             = if eoi then Done (data_end st0) else Fatal NoItemBound).
  { intros eoi.
    unfold split_CalcUpperBoundOfOutputTransfer, calc_upper_bound_with.
    replace (to_read >? data_end st0 - data_start st0 + 1) with false
      by (symmetry; rewrite Z.gtb_ltb; apply Z.ltb_ge; lia).
    rewrite Hnf, Z.eqb_refl. reflexivity. }
  split; [apply (C true)|]. split; [apply (C false)|]. split.
  - intros Hend cur older Hf Hs He.
    destruct (pass_takes_active_data opts k fb to_read st st0 cur older
                R Hf Hs He Hle) as (st' & S1 & S2 & _).
    + replace (k =? num_pieces opts - 1) with false
        by (symmetry; apply Z.eqb_neq; exact Hk).
      rewrite Hend. apply (C true).
    + cbn [transfer_loop].
      replace (to_read =? 0) with false
        by (symmetry; apply Z.eqb_neq; exact Hne).
      rewrite S1.
      replace (transfer_loop opts fuel k false 0 st') with (Done tt, st')
        by (destruct fuel; reflexivity).
      split; [reflexivity | exact S2].
  - intros Hrest. cbn [transfer_loop].
    replace (to_read =? 0) with false
      by (symmetry; apply Z.eqb_neq; exact Hne).
    unfold transfer_step. rewrite R.
    replace (k =? num_pieces opts - 1) with false
      by (symmetry; apply Z.eqb_neq; exact Hk).
    replace (bytes_not_read st0 =? 0) with false
      by (symmetry; apply Z.eqb_neq; exact Hrest).
    rewrite (C false). cbn [fst snd files].
    split; [reflexivity | apply (refill_files opts st st0 R)].
Qed.

(** Scenario D: the first element of [long_element] has eight bytes and the
    chunk two; the run leaves through the error of the decision layer. *)
Lemma scenario_long_element :
  fst (split_SplitSource (mk_opts 2 2) long_element) = Fatal NoItemBound.
Proof. reflexivity. Qed.

(** The other case, in a run: the last line of [open_element] has no line
    end, so that the locator finds no bound in the five bytes; the input
    has ended and piece 0 takes them all. *)
Lemma scenario_open_element :
  split_FindBound open_element 2 5 true = SPLIT_BOUND_NOT_FOUND
  /\ In (100, 100, 104, 3, false)
        (calc_calls (log (snd (split_SplitSource (mk_opts 2 100)
                                                 open_element))))
  /\ pieces_of (split_SplitSource (mk_opts 2 100) open_element)
     = [open_element].
Proof.
  split; [reflexivity|]. split; [|vm_compute; reflexivity].
  vm_compute. left. reflexivity.
Qed.

Lemma no_bound_in_window_witness :
  split_CalcUpperBoundOfOutputTransfer
    (double_buff in_failing_pass) 2 (data_start in_failing_pass)
    (data_end in_failing_pass) 1 false true false
  = Done (data_end in_failing_pass)
  /\ split_CalcUpperBoundOfOutputTransfer
       (double_buff in_failing_pass) 2 (data_start in_failing_pass)
       (data_end in_failing_pass) 1 false false false
     = Fatal NoItemBound
  /\ (bytes_not_read in_failing_pass = 0 ->
      forall cur older,
        files before_failing_pass = cur :: older ->
        0 <= data_start in_failing_pass <= data_end in_failing_pass + 1 ->
        data_end in_failing_pass
        < Z.of_nat (length (double_buff in_failing_pass)) ->
        fst (transfer_loop (mk_opts 2 2) 1 0 false 1 before_failing_pass)
        = Done tt
        /\ files (snd (transfer_loop (mk_opts 2 2) 1 0 false 1
                                     before_failing_pass))
           = (cur ++ slice (double_buff in_failing_pass)
                           (data_start in_failing_pass)
                           (data_end in_failing_pass
                            - data_start in_failing_pass + 1)) :: older)
  /\ (bytes_not_read in_failing_pass <> 0 ->
      fst (transfer_loop (mk_opts 2 2) 1 0 false 1 before_failing_pass)
      = Fatal NoItemBound
      /\ files (snd (transfer_loop (mk_opts 2 2) 1 0 false 1
                                   before_failing_pass))
         = files before_failing_pass).
Proof.
  apply (no_bound_in_window (mk_opts 2 2) 0 false 1 before_failing_pass
           in_failing_pass 0).
  - vm_compute. reflexivity.
  - lia.
  - vm_compute. discriminate.
  - vm_compute. discriminate.
  - vm_compute. reflexivity.
Defined.

(** *** No byte left for a piece *)

(** C8. When the target of piece [piece_num] computes to 0 and the piece is
    still to be made, the loop over the pieces leaves through
    [SPLIT_ERROR( "Couldn't produce the requested number of pieces. ...")]
    with [piece_num] as the number of pieces written, and makes no further
    file; and whenever a run leaves through that error, the number it
    reports is the number of files the run made. *)
Theorem no_bytes_for_piece :
  forall opts input rounds piece_num st n st'',
    0 <= buffer_size opts ->
    piece_num < num_pieces opts ->
    piece_target opts (bytes_available st) piece_num = 0 ->
    (fst (pieces_loop opts (S rounds) piece_num st)
     = Fatal (CouldNotProducePieces piece_num)
     /\ files (snd (pieces_loop opts (S rounds) piece_num st)) = files st)
    /\ (split_SplitSource opts input
        = (Fatal (CouldNotProducePieces n), st'') ->
        Z.of_nat (length (files st'')) = n).
Proof.
  intros opts input rounds k st n st'' HB Hk Ht. split.
  - cbn [pieces_loop].
    replace (k <? num_pieces opts) with true
      by (symmetry; apply Z.ltb_lt; exact Hk).
    rewrite Ht. cbn [Z.eqb fst snd files]. split; reflexivity.
  - intros R.
    destruct (split_source_spec opts input HB _ _ R) as (_ & _ & F & _).
    apply F. reflexivity.
Qed.

Lemma no_bytes_for_piece_witness :
  (fst (pieces_loop (mk_opts 2 100) 1 1
          (snd (split_SplitSource (mk_opts 2 100) one_element)))
   = Fatal (CouldNotProducePieces 1)
   /\ files (snd (pieces_loop (mk_opts 2 100) 1 1
                    (snd (split_SplitSource (mk_opts 2 100) one_element))))
      = files (snd (split_SplitSource (mk_opts 2 100) one_element)))
  /\ (split_SplitSource (mk_opts 2 100) one_element
      = (Fatal (CouldNotProducePieces 1),
         snd (split_SplitSource (mk_opts 2 100) one_element)) ->
      Z.of_nat (length (files (snd (split_SplitSource (mk_opts 2 100)
                                                      one_element)))) = 1).
Proof.
  apply (no_bytes_for_piece (mk_opts 2 100) one_element 0 1
           (snd (split_SplitSource (mk_opts 2 100) one_element)) 1
           (snd (split_SplitSource (mk_opts 2 100) one_element))).
  - vm_compute. discriminate.
  - vm_compute. reflexivity.
  - vm_compute. reflexivity.
Defined.

(** Scenario C: [one_element] holds one element and two pieces are asked
    for; piece 0 takes the element and the run stops at piece 1. *)
Lemma scenario_one_element :
  fst (split_SplitSource (mk_opts 2 100) one_element)
  = Fatal (CouldNotProducePieces 1)
  /\ pieces_of (split_SplitSource (mk_opts 2 100) one_element)
     = [one_element].
Proof. split; vm_compute; reflexivity. Qed.

(** ** The locator: what it returns *)

Section LoopInvariant.

Variable buff : list byte.
Variables projected_bound buff_size : Z.
Variable is_first_block : bool.

(** A property of the radius and the counter that every pass which reaches
    the end of the body keeps. *)
Variable kept : Z -> Z -> Prop.

Hypothesis body_keeps : forall i c c',
  0 <= i -> kept i c ->
  find_bound_body buff projected_bound buff_size is_first_block i c
  = Continue c' ->
  kept (i + 1) c'.

(** The loop ends without a bound after the last radius, or a pass leaves
    with the result. *)
Lemma loop_returns rounds : forall i c,
  0 <= i ->
  kept i c ->
  Z.max (distance_to_l_bound projected_bound)
        (distance_to_u_bound projected_bound buff_size) - i
  <= Z.of_nat rounds ->
  (find_bound_loop buff projected_bound buff_size is_first_block rounds i c
   = SPLIT_BOUND_NOT_FOUND
   /\ exists i' c',
        Z.max (distance_to_l_bound projected_bound)
              (distance_to_u_bound projected_bound buff_size) <= i'
        /\ kept i' c')
  \/ exists i' c',
       i <= i' /\ kept i' c'
       /\ find_bound_body buff projected_bound buff_size is_first_block i' c'
          = Return (find_bound_loop buff projected_bound buff_size
                                    is_first_block rounds i c).
Proof.
  induction rounds as [|rounds IH]; intros i c Hi K Hr.
  - left. split; [reflexivity|]. exists i, c. split; [lia | exact K].
  - cbn [find_bound_loop].
    destruct (Z.ltb_spec i (Z.max (distance_to_l_bound projected_bound)
                                  (distance_to_u_bound projected_bound
                                                       buff_size)))
      as [G|G].
    + destruct (find_bound_body buff projected_bound buff_size
                                is_first_block i c) as [r|c'] eqn:Bd.
      * right. exists i, c. repeat split; [lia | assumption | assumption].
      * destruct (IH (i + 1) c' ltac:(lia) (body_keeps i c c' Hi K Bd)
                    ltac:(lia))
          as [N | (i' & c'' & Hi' & K' & B')].
        -- left. exact N.
        -- right. exists i', c''. repeat split; [lia | assumption | assumption].
    + left. split; [reflexivity|]. exists i, c. split; [lia | exact K].
Qed.

End LoopInvariant.

Section FindBoundSweep.

Variable buff : list byte.
Variables projected_bound buff_size : Z.
Variable is_first_block : bool.

Hypothesis bound_inside : 0 <= projected_bound < buff_size.

Local Abbreviation body :=
  (find_bound_body buff projected_bound buff_size is_first_block).
Local Abbreviation loop :=
  (find_bound_loop buff projected_bound buff_size is_first_block).
Local Abbreviation usable := (usable_start buff is_first_block).
Local Abbreviation swept_to :=
  (swept buff projected_bound buff_size is_first_block).

(** The first test of the body: the left probe is inside the window and is
    a usable element start. *)
Lemma left_test i :
  0 <= i ->
  Byte.eqb (left_symb buff projected_bound i) element_start
  && ((i <? distance_to_l_bound projected_bound - 1) || negb is_first_block)
  = (i <=? projected_bound) && usable (projected_bound - i).
Proof.
  intros Hi. unfold left_symb, distance_to_l_bound, usable_start.
  destruct (Z.leb_spec i projected_bound) as [L|L].
  - replace (i >=? projected_bound + 1) with false
      by (symmetry; rewrite Z.geb_leb; apply Z.leb_gt; lia).
    cbn [andb]. f_equal. f_equal.
    destruct (Z.ltb_spec i (projected_bound + 1 - 1)),
             (Z.eqb_spec (projected_bound - i) 0); try lia; reflexivity.
  - replace (i >=? projected_bound + 1) with true
      by (symmetry; rewrite Z.geb_leb; apply Z.leb_le; lia).
    reflexivity.
Qed.

(** The second test: the right probe is inside the window, is not the
    projected bound itself, and is a usable element start. *)
Lemma right_test i :
  0 <= i ->
  Byte.eqb (right_symb buff projected_bound buff_size i) element_start
  && negb (i =? 0)
  = (i <? buff_size - projected_bound) && negb (i =? 0)
    && usable (projected_bound + i).
Proof.
  intros Hi. unfold right_symb, distance_to_u_bound, usable_start.
  destruct (Z.ltb_spec i (buff_size - projected_bound)) as [L|L].
  - replace (i >=? buff_size - projected_bound) with false
      by (symmetry; rewrite Z.geb_leb; apply Z.leb_gt; lia).
    cbn [andb].
    destruct (Z.eqb_spec i 0) as [->|N]; cbn [negb andb].
    + apply andb_false_r.
    + replace (projected_bound + i =? 0) with false
        by (symmetry; apply Z.eqb_neq; lia).
      cbn [negb orb]. rewrite !andb_true_r. reflexivity.
  - replace (i >=? buff_size - projected_bound) with true
      by (symmetry; rewrite Z.geb_leb; apply Z.leb_le; lia).
    reflexivity.
Qed.

(** A pass in which neither test holds widens the stretch without a usable
    element start by one offset on each side. *)
Lemma sweep_step i :
  0 <= i ->
  swept_to i ->
  (i <=? projected_bound) && usable (projected_bound - i) = false ->
  (i <? buff_size - projected_bound) && negb (i =? 0)
  && usable (projected_bound + i) = false ->
  swept_to (i + 1).
Proof.
  intros Hi S L R k Hk Hd.
  destruct (Z.lt_ge_cases (Z.abs (k - projected_bound)) i) as [Hlt|Hge];
    [apply S; assumption|].
  destruct (Z.le_gt_cases k projected_bound) as [Hl|Hr].
  - replace k with (projected_bound - i) by lia.
    replace (i <=? projected_bound) with true in L
      by (symmetry; apply Z.leb_le; lia).
    exact L.
  - replace k with (projected_bound + i) by lia.
    replace (i <? buff_size - projected_bound) with true in R
      by (symmetry; apply Z.ltb_lt; lia).
    replace (i =? 0) with false in R by (symmetry; apply Z.eqb_neq; lia).
    exact R.
Qed.

(** The three ways a pass leaves the function. *)
Lemma body_return i c r :
  0 <= i ->
  swept_to i ->
  body i c = Return r ->
  (i <= projected_bound /\ usable (projected_bound - i) = true
   /\ r = projected_bound - i - 1)
  \/ (1 <= i /\ projected_bound + i < buff_size
      /\ usable (projected_bound + i) = true
      /\ (i <= projected_bound -> usable (projected_bound - i) = false)
      /\ r = projected_bound + i - 1)
  \/ (buff_size - 1 - projected_bound <= i
      /\ char_at buff (buff_size - 1) = new_line
      /\ swept_to (i + 1)
      /\ r = buff_size - 1).
Proof.
  intros Hi S. unfold find_bound_body.
  rewrite (left_test i Hi), (right_test i Hi).
  destruct ((i <=? projected_bound) && usable (projected_bound - i)) eqn:L.
  - intros [= <-]. left. bool_to_prop. repeat split; [lia | assumption].
  - destruct ((i <? buff_size - projected_bound) && negb (i =? 0)
              && usable (projected_bound + i)) eqn:R.
    + intros [= <-]. right. left. bool_to_prop.
      repeat split; try lia; try assumption.
      intros Hl.
      replace (i <=? projected_bound) with true in L
        by (symmetry; apply Z.leb_le; lia).
      exact L.
    + match goal with
      | |- (if ?t then _ else _) = _ -> _ => destruct t eqn:T
      end; [|discriminate].
      intros [= <-]. right. right. bool_to_prop.
      unfold distance_to_u_bound in *.
      repeat split; try lia.
      * apply byte_dec_bl. assumption.
      * apply sweep_step; assumption.
Qed.

Lemma body_continue i c c' :
  0 <= i ->
  swept_to i ->
  body i c = Continue c' ->
  swept_to (i + 1).
Proof.
  intros Hi S. unfold find_bound_body.
  rewrite (left_test i Hi), (right_test i Hi).
  destruct ((i <=? projected_bound) && usable (projected_bound - i)) eqn:L;
    [discriminate|].
  destruct ((i <? buff_size - projected_bound) && negb (i =? 0)
            && usable (projected_bound + i)) eqn:R; [discriminate|].
  intros _. apply sweep_step; assumption.
Qed.

Lemma swept_none : swept_to 0.
Proof. intros k Hk Hd. lia. Qed.

(** What the locator returns. *)
Lemma find_bound_cases :
  let r := split_FindBound buff projected_bound buff_size is_first_block in
  (r = SPLIT_BOUND_NOT_FOUND /\ swept_to buff_size)
  \/ (exists i, 0 <= i <= projected_bound /\ swept_to i
                /\ usable (projected_bound - i) = true
                /\ r = projected_bound - i - 1)
  \/ (exists i, 1 <= i /\ projected_bound + i < buff_size /\ swept_to i
                /\ usable (projected_bound + i) = true
                /\ (i <= projected_bound ->
                    usable (projected_bound - i) = false)
                /\ r = projected_bound + i - 1)
  \/ (exists i, buff_size - 1 - projected_bound <= i
                /\ char_at buff (buff_size - 1) = new_line
                /\ swept_to (i + 1)
                /\ r = buff_size - 1).
Proof.
  cbv zeta. unfold split_FindBound.
  destruct (loop_returns buff projected_bound buff_size is_first_block
              (fun i _ => swept_to i)
              (fun i c c' Hi S Bd => body_continue i c c' Hi S Bd)
              (Z.to_nat (Z.max (distance_to_l_bound projected_bound)
                               (distance_to_u_bound projected_bound
                                                    buff_size)))
              0 0 ltac:(lia) swept_none ltac:(lia))
    as [(N & i & _ & Hi & S) | (i & c & Hi & S & Bd)].
  - left. split; [exact N|].
    unfold distance_to_l_bound, distance_to_u_bound in Hi.
    intros k Hk Hd. apply S; [assumption | lia].
  - right.
    destruct (body_return i c _ Hi S Bd)
      as [(H1 & H2 & H3) | [(H1 & H2 & H3 & H4 & H5) | (H1 & H2 & H3 & H4)]].
    + left. exists i. repeat split; try lia; assumption.
    + right. left. exists i. repeat split; try lia; assumption.
    + right. right. exists i. repeat split; try lia; assumption.
Qed.

End FindBoundSweep.

(** X3. A bound the locator returns is the byte before a ['>'] of the
    window, or the last byte of the window when that byte is a line end. *)
Theorem find_bound_returns_boundary :
  forall buff projected_bound buff_size is_first_block,
    0 <= projected_bound < buff_size ->
    let r := split_FindBound buff projected_bound buff_size is_first_block in
    r = SPLIT_BOUND_NOT_FOUND
    \/ (-1 <= r < buff_size - 1 /\ char_at buff (r + 1) = element_start)
    \/ (r = buff_size - 1 /\ char_at buff (buff_size - 1) = new_line).
Proof.
  intros buff pb n fb H.
  destruct (find_bound_cases buff pb n fb H)
    as [[N _] | [(i & Hi & _ & U & E) | [(i & Hi & Hn & _ & U & _ & E)
                                        | (i & _ & L & _ & E)]]];
    cbv zeta.
  - now left.
  - right. left. rewrite E. split; [lia|].
    unfold usable_start in U. apply andb_true_iff in U. destruct U as [U _].
    apply byte_dec_bl in U. rewrite <- U. f_equal. lia.
  - right. left. rewrite E. split; [lia|].
    unfold usable_start in U. apply andb_true_iff in U. destruct U as [U _].
    apply byte_dec_bl in U. rewrite <- U. f_equal. lia.
  - right. right. split; assumption.
Qed.

Lemma find_bound_returns_boundary_witness :
  split_FindBound two_elements 5 12 true = SPLIT_BOUND_NOT_FOUND
  \/ (-1 <= split_FindBound two_elements 5 12 true < 12 - 1
      /\ char_at two_elements (split_FindBound two_elements 5 12 true + 1)
         = element_start)
  \/ (split_FindBound two_elements 5 12 true = 12 - 1
      /\ char_at two_elements (12 - 1) = new_line).
Proof.
  apply (find_bound_returns_boundary two_elements 5 12 true). lia.
Defined.

(** X4. When the window holds an element start the locator may use, at
    offset [k], the locator returns a bound.  When the bound is not the end
    of the window it is the byte before a usable element start that is as
    close to the projected bound as any, [k] included, and of two that are
    equally close it is the one on the left.  When the bound is the end of
    the window, every usable element start lies on the left of the
    projected bound, farther from it than the end of the window. *)
Theorem find_bound_nearest_start :
  forall buff projected_bound buff_size is_first_block k,
    0 <= projected_bound < buff_size ->
    0 <= k < buff_size ->
    usable_start buff is_first_block k = true ->
    let r := split_FindBound buff projected_bound buff_size is_first_block in
    -1 <= r <= buff_size - 1
    /\ (r < buff_size - 1 ->
        usable_start buff is_first_block (r + 1) = true
        /\ Z.abs (r + 1 - projected_bound) <= Z.abs (k - projected_bound)
        /\ (Z.abs (k - projected_bound) = Z.abs (r + 1 - projected_bound) ->
            r + 1 <= k))
    /\ (r = buff_size - 1 ->
        buff_size - 1 - projected_bound < projected_bound - k).
Proof.
  intros buff pb n fb k H Hk U.
  destruct (find_bound_cases buff pb n fb H)
    as [[_ S] | [(i & Hi & S & Ui & E) | [(i & Hi & Hn & S & Ui & Ul & E)
                                         | (i & Hi & _ & S & E)]]];
    cbv zeta.
  - rewrite (S k Hk) in U; [discriminate | lia].
  - rewrite E. split; [lia|]. split; [|lia]. intros _.
    replace (pb - i - 1 + 1) with (pb - i) by lia.
    split; [assumption|].
    destruct (Z.lt_ge_cases (Z.abs (k - pb)) i) as [C|C].
    + rewrite (S k Hk C) in U. discriminate.
    + split; lia.
  - rewrite E. split; [lia|]. split; [|lia]. intros _.
    replace (pb + i - 1 + 1) with (pb + i) by lia.
    split; [assumption|].
    destruct (Z.lt_ge_cases (Z.abs (k - pb)) i) as [C|C].
    + rewrite (S k Hk C) in U. discriminate.
    + split; [lia|]. intros Eq.
      destruct (Z.eq_dec k (pb - i)) as [->|Nk]; [|lia].
      rewrite Ul in U by lia. discriminate.
  - rewrite E. split; [lia|]. split; [lia|]. intros _.
    destruct (Z.lt_ge_cases (Z.abs (k - pb)) (i + 1)) as [C|C].
    + rewrite (S k Hk C) in U. discriminate.
    + lia.
Qed.

Lemma find_bound_nearest_start_witness :
  -1 <= split_FindBound tie_window 5 14 true <= 14 - 1
  /\ (split_FindBound tie_window 5 14 true < 14 - 1 ->
      usable_start tie_window true (split_FindBound tie_window 5 14 true + 1)
      = true
      /\ Z.abs (split_FindBound tie_window 5 14 true + 1 - 5) <= Z.abs (8 - 5)
      /\ (Z.abs (8 - 5) = Z.abs (split_FindBound tie_window 5 14 true + 1 - 5)
          -> split_FindBound tie_window 5 14 true + 1 <= 8))
  /\ (split_FindBound tie_window 5 14 true = 14 - 1 -> 14 - 1 - 5 < 5 - 8).
Proof.
  apply (find_bound_nearest_start tie_window 5 14 true 8).
  - lia.
  - lia.
  - reflexivity.
Defined.

(** X5. [SPLIT_BOUND_NOT_FOUND] is returned only when the window holds no
    ['>'], or none but the one at offset 0 of a window that starts a file. *)
Theorem find_bound_not_found :
  forall buff projected_bound buff_size is_first_block k,
    0 <= projected_bound < buff_size ->
    split_FindBound buff projected_bound buff_size is_first_block
    = SPLIT_BOUND_NOT_FOUND ->
    0 <= k < buff_size ->
    usable_start buff is_first_block k = false.
Proof.
  intros buff pb n fb k H N Hk.
  destruct (find_bound_cases buff pb n fb H)
    as [[_ S] | [(i & Hi & _ & _ & E) | [(i & Hi & _ & _ & _ & _ & E)
                                        | (i & _ & _ & _ & E)]]];
    cbv zeta in *.
  - apply S; [assumption | lia].
  - rewrite N in E. unfold SPLIT_BOUND_NOT_FOUND in E. lia.
  - rewrite N in E. unfold SPLIT_BOUND_NOT_FOUND in E. lia.
  - rewrite N in E. unfold SPLIT_BOUND_NOT_FOUND in E. lia.
Qed.

Lemma find_bound_not_found_witness :
  usable_start long_element true 0 = false.
Proof.
  apply (find_bound_not_found long_element 1 4 true 0).
  - lia.
  - reflexivity.
  - lia.
Defined.

Section WindowOnly.

Variables buff buff' : list byte.
Variables projected_bound buff_size : Z.
Variable is_first_block : bool.

Hypothesis bound_inside : 0 <= projected_bound < buff_size.
Hypothesis same_window :
  forall k, 0 <= k < buff_size -> char_at buff k = char_at buff' k.

Lemma body_window i c :
  0 <= i ->
  find_bound_body buff projected_bound buff_size is_first_block i c
  = find_bound_body buff' projected_bound buff_size is_first_block i c.
Proof.
  intros Hi.
  assert (L : left_symb buff projected_bound i
              = left_symb buff' projected_bound i).
  { unfold left_symb, distance_to_l_bound.
    destruct (i >=? projected_bound + 1) eqn:E; [reflexivity|].
    bool_to_prop. apply same_window. lia. }
  assert (R : right_symb buff projected_bound buff_size i
              = right_symb buff' projected_bound buff_size i).
  { unfold right_symb, distance_to_u_bound.
    destruct (i >=? buff_size - projected_bound) eqn:E; [reflexivity|].
    bool_to_prop. apply same_window. lia. }
  unfold find_bound_body.
  rewrite L, R, (same_window (buff_size - 1)) by lia. reflexivity.
Qed.

Lemma loop_window rounds : forall i c,
  0 <= i ->
  find_bound_loop buff projected_bound buff_size is_first_block rounds i c
  = find_bound_loop buff' projected_bound buff_size is_first_block rounds i c.
Proof.
  induction rounds as [|rounds IH]; intros i c Hi; cbn [find_bound_loop];
    [reflexivity|].
  rewrite (body_window i c Hi).
  destruct (i <? _); [|reflexivity].
  destruct (find_bound_body buff' _ _ _ i c); [reflexivity|].
  apply IH. lia.
Qed.

End WindowOnly.

(** X6. The locator reads the bytes at the offsets from 0 to
    [buff_size - 1] only: on two buffers that agree there it returns the
    same bound. *)
Theorem find_bound_reads_window_only :
  forall buff buff' projected_bound buff_size is_first_block,
    0 <= projected_bound < buff_size ->
    (forall k, 0 <= k < buff_size -> char_at buff k = char_at buff' k) ->
    split_FindBound buff projected_bound buff_size is_first_block
    = split_FindBound buff' projected_bound buff_size is_first_block.
Proof.
  intros buff buff' pb n fb H W. unfold split_FindBound.
  apply loop_window; [assumption | assumption | lia].
Qed.

Lemma find_bound_reads_window_only_witness :
  split_FindBound two_elements 2 6 true = split_FindBound one_element 2 6 true.
Proof.
  apply (find_bound_reads_window_only two_elements one_element 2 6 true).
  - lia.
  - intros k Hk.
    assert (C : k = 0 \/ k = 1 \/ k = 2 \/ k = 3 \/ k = 4 \/ k = 5) by lia.
    destruct C as [ -> | [ -> | [ -> | [ -> | [ -> | -> ] ] ] ] ]; reflexivity.
Defined.

(** ** The decision layer *)

Lemma char_at_skipn buff off k :
  0 <= off -> 0 <= k ->
  char_at (skipn (Z.to_nat off) buff) k = char_at buff (off + k).
Proof.
  intros Ho Hk. unfold char_at. rewrite nth_skipn. f_equal. lia.
Qed.

Lemma char_at_slice buff off n k :
  0 <= off -> 0 <= k < n ->
  char_at (slice buff off n) k = char_at buff (off + k).
Proof.
  intros Ho Hk. unfold slice, char_at. rewrite nth_firstn.
  destruct (Nat.ltb_spec (Z.to_nat k) (Z.to_nat n)); [|lia].
  rewrite nth_skipn. f_equal. lia.
Qed.

Lemma char_at_app_l l1 l2 k :
  0 <= k < Z.of_nat (length l1) -> char_at (l1 ++ l2) k = char_at l1 k.
Proof. intros Hk. unfold char_at. apply app_nth1. lia. Qed.

Lemma char_at_app_r l1 l2 k :
  0 <= k ->
  char_at (l1 ++ l2) (Z.of_nat (length l1) + k) = char_at l2 k.
Proof.
  intros Hk. unfold char_at. rewrite app_nth2 by lia. f_equal. lia.
Qed.

(** The locator on the active data is the locator on the slice that holds
    them. *)
Lemma find_bound_slice buff data_start n projected_bound is_first_block :
  0 <= data_start -> 0 <= projected_bound < n ->
  split_FindBound (skipn (Z.to_nat data_start) buff) projected_bound n
                  is_first_block
  = split_FindBound (slice buff data_start n) projected_bound n
                    is_first_block.
Proof.
  intros Hs Hp. unfold split_FindBound.
  apply loop_window; [assumption | | lia].
  intros k Hk. rewrite char_at_skipn, char_at_slice by lia. reflexivity.
Qed.

(** The four ways the decision layer returns. *)
Lemma calc_cases buff buff_size data_start data_end projected_max
      is_first_block is_end_of_input is_last_piece output_chunk_end :
  split_CalcUpperBoundOfOutputTransfer
    buff buff_size data_start data_end projected_max
    is_first_block is_end_of_input is_last_piece = Done output_chunk_end ->
  let active_data_size := data_end - data_start + 1 in
  let bound :=
    split_FindBound (skipn (Z.to_nat data_start) buff) (projected_max - 1)
                    active_data_size is_first_block in
  (active_data_size < projected_max
   /\ output_chunk_end
      = if active_data_size >=? buff_size then data_start + buff_size - 1
        else data_end)
  \/ (projected_max <= active_data_size /\ is_last_piece = true
      /\ output_chunk_end = data_end)
  \/ (projected_max <= active_data_size /\ is_last_piece = false
      /\ bound <> SPLIT_BOUND_NOT_FOUND
      /\ output_chunk_end = bound + data_start)
  \/ (projected_max <= active_data_size /\ is_last_piece = false
      /\ bound = SPLIT_BOUND_NOT_FOUND
      /\ is_end_of_input = true /\ output_chunk_end = data_end).
Proof.
  unfold split_CalcUpperBoundOfOutputTransfer, calc_upper_bound_with.
  cbv zeta.
  destruct (projected_max >? data_end - data_start + 1) eqn:E1; bool_to_prop.
  - intros C. left. split; [lia|].
    destruct (data_end - data_start + 1 >=? buff_size);
      injection C as <-; reflexivity.
  - destruct is_last_piece.
    + intros [= <-]. right. left. repeat split; lia.
    + destruct (negb (_ =? SPLIT_BOUND_NOT_FOUND)) eqn:E3; bool_to_prop.
      * intros [= <-]. right. right. left. repeat split; [lia | assumption].
      * destruct is_end_of_input; [|discriminate].
        intros [= <-]. right. right. right. repeat split; [lia | assumption].
Qed.

(** X7. The end of the chunk to write lies in the active data or just
    before them; the first chunk of a piece is not empty when the active
    data are not; and when more is wanted than is active, a chunk is
    written, or all the active data when they are less than a chunk. *)
Theorem transfer_bound_in_active_data :
  forall buff buff_size data_start data_end projected_max
         is_first_block is_end_of_input is_last_piece output_chunk_end,
    0 <= buff_size ->
    data_start <= data_end + 1 ->
    1 <= projected_max ->
    split_CalcUpperBoundOfOutputTransfer
      buff buff_size data_start data_end projected_max
      is_first_block is_end_of_input is_last_piece = Done output_chunk_end ->
    data_start - 1 <= output_chunk_end <= data_end
    /\ (is_first_block = true -> 1 <= buff_size -> data_start <= data_end ->
        data_start <= output_chunk_end)
    /\ (data_end - data_start + 1 < projected_max ->
        output_chunk_end - data_start + 1
        = Z.min (data_end - data_start + 1) buff_size).
Proof.
  intros buff B ds de pm fb eoi lp oce HB Ho Hp C.
  pose proof (calc_range _ _ _ _ _ _ _ _ _ HB Ho Hp C) as R.
  split; [exact R|].
  apply calc_cases in C. cbv zeta in C.
  destruct C as [(C1 & C2) | [(C1 & C2 & C3) | [(C1 & C2 & C3 & C4)
                                               | (C1 & C2 & C3 & C4 & C5)]]].
  - destruct (de - ds + 1 >=? B) eqn:E; bool_to_prop; split; intros; lia.
  - split; intros; lia.
  - split; [|intros; lia]. intros F HB1 Hne.
    pose proof (find_bound_range (skipn (Z.to_nat ds) buff) (pm - 1)
                  (de - ds + 1) fb ltac:(lia)) as [_ Rf].
    cbv zeta in Rf. specialize (Rf F). lia.
  - split; intros; lia.
Qed.

Lemma transfer_bound_in_active_data_witness :
  5 - 1 <= 10 <= 16
  /\ (true = true -> 1 <= 12 -> 5 <= 16 -> 5 <= 10)
  /\ (16 - 5 + 1 < 5 -> 10 - 5 + 1 = Z.min (16 - 5 + 1) 12).
Proof.
  apply (transfer_bound_in_active_data
           (repeat x00 5 ++ two_elements) 12 5 16 5 true false false 10).
  - lia.
  - lia.
  - lia.
  - vm_compute. reflexivity.
Defined.

(** X8. When the locator is asked, in a piece that is not the last, the
    chunk to write ends before a ['>'], or it ends with the active data, and
    then after a line end or at the end of the input. *)
Theorem transfer_bound_is_boundary :
  forall buff buff_size data_start data_end projected_max
         is_first_block is_end_of_input output_chunk_end,
    0 <= data_start ->
    1 <= projected_max <= data_end - data_start + 1 ->
    split_CalcUpperBoundOfOutputTransfer
      buff buff_size data_start data_end projected_max
      is_first_block is_end_of_input false = Done output_chunk_end ->
    (data_start - 1 <= output_chunk_end < data_end
     /\ char_at buff (output_chunk_end + 1) = element_start)
    \/ (output_chunk_end = data_end
        /\ (char_at buff data_end = new_line \/ is_end_of_input = true)).
Proof.
  intros buff B ds de pm fb eoi oce Hs Hp C.
  apply calc_cases in C. cbv zeta in C.
  destruct C as [(C1 & C2) | [(C1 & C2 & C3) | [(C1 & C2 & C3 & C4)
                                               | (C1 & C2 & C3 & C4 & C5)]]].
  - lia.
  - discriminate.
  - destruct (find_bound_cases (skipn (Z.to_nat ds) buff) (pm - 1)
                (de - ds + 1) fb ltac:(lia))
      as [[F _] | [(i & Hi & _ & U & E) | [(i & Hi & Hn & _ & U & _ & E)
                                          | (i & _ & L & _ & E)]]];
      cbv zeta in *.
    + contradiction.
    + left. rewrite C4, E. split; [lia|].
      unfold usable_start in U. apply andb_true_iff in U.
      destruct U as [U _]. apply byte_dec_bl in U.
      rewrite char_at_skipn in U by lia. rewrite <- U. f_equal. lia.
    + left. rewrite C4, E. split; [lia|].
      unfold usable_start in U. apply andb_true_iff in U.
      destruct U as [U _]. apply byte_dec_bl in U.
      rewrite char_at_skipn in U by lia. rewrite <- U. f_equal. lia.
    + right. rewrite C4, E. split; [lia|]. left.
      rewrite char_at_skipn in L by lia. rewrite <- L. f_equal. lia.
  - right. split; [assumption | now right].
Qed.

Lemma transfer_bound_is_boundary_witness :
  (5 - 1 <= 10 < 16
   /\ char_at (repeat x00 5 ++ two_elements) (10 + 1) = element_start)
  \/ (10 = 16
      /\ (char_at (repeat x00 5 ++ two_elements) 16 = new_line
          \/ false = true)).
Proof.
  apply (transfer_bound_is_boundary
           (repeat x00 5 ++ two_elements) 12 5 16 6 true false 10).
  - lia.
  - lia.
  - vm_compute. reflexivity.
Defined.

(** ** The pieces of a run *)

(** X9. The two [if]s that end the body of the [while] loop keep the
    active bytes and leave their bounds where the next pass wants them; and
    when the bytes are moved, the place [memcpy] copies them to starts in
    the buffer and ends before the place it copies them from. *)
Theorem move_keeps_active_data :
  forall opts buff data_start data_end buff2 data_start2 data_end2,
    0 <= buffer_size opts ->
    Z.of_nat (length buff) = 2 * buffer_size opts ->
    0 <= data_start <= data_end + 1 ->
    buffer_size opts - 1 <= data_end <= 2 * buffer_size opts - 1 ->
    slide opts buff data_start data_end = (buff2, data_start2, data_end2) ->
    Z.of_nat (length buff2) = 2 * buffer_size opts
    /\ 0 <= data_start2 <= buffer_size opts
    /\ buffer_size opts - 1 <= data_end2 <= 2 * buffer_size opts - 1
    /\ slice buff2 data_start2 (data_end2 - data_start2 + 1)
       = slice buff data_start (data_end - data_start + 1)
    /\ (buffer_size opts <= data_start <= data_end ->
        data_start2 = buffer_size opts - (data_end - data_start + 1)
        /\ data_end2 = buffer_size opts - 1
        /\ 0 <= data_start2
        /\ data_end2 < data_start).
Proof.
  intros opts buff ds de buff2 ds2 de2 HB Hlen Hs He S.
  destruct (slide_ok opts HB buff ds de buff2 ds2 de2 Hlen Hs He S)
    as (S1 & S2 & S3 & S4 & S5).
  split; [exact S1|]. split; [exact S2|]. split; [exact S3|].
  split; [exact S5|]. intros Hm.
  revert S. unfold slide.
  replace ((ds >=? buffer_size opts) && (de - ds >=? 0)) with true.
  - cbv beta iota zeta.
    destruct (Z.gtb_spec (buffer_size opts - (de - ds + 1))
                         (buffer_size opts - 1)); [lia|].
    intros [= _ <- <-]. repeat split; lia.
  - symmetry. apply andb_true_iff.
    split; rewrite Z.geb_leb; apply Z.leb_le; lia.
Qed.

Lemma move_keeps_active_data_witness :
  Z.of_nat (length (fst (fst (slide (mk_opts 2 5)
                                    (repeat x00 5 ++ [x41; x43; x47; x54; x0a])
                                    7 9))))
  = 2 * buffer_size (mk_opts 2 5)
  /\ 0 <= 2 <= buffer_size (mk_opts 2 5)
  /\ buffer_size (mk_opts 2 5) - 1 <= 4 <= 2 * buffer_size (mk_opts 2 5) - 1
  /\ slice (fst (fst (slide (mk_opts 2 5)
                            (repeat x00 5 ++ [x41; x43; x47; x54; x0a])
                            7 9))) 2 (4 - 2 + 1)
     = slice (repeat x00 5 ++ [x41; x43; x47; x54; x0a]) 7 (9 - 7 + 1)
  /\ (buffer_size (mk_opts 2 5) <= 7 <= 9 ->
      2 = buffer_size (mk_opts 2 5) - (9 - 7 + 1)
      /\ 4 = buffer_size (mk_opts 2 5) - 1
      /\ 0 <= 2
      /\ 4 < 7).
Proof.
  apply (move_keeps_active_data (mk_opts 2 5)
           (repeat x00 5 ++ [x41; x43; x47; x54; x0a]) 7 9).
  - vm_compute. discriminate.
  - vm_compute. reflexivity.
  - lia.
  - vm_compute. split; discriminate.
  - vm_compute. reflexivity.
Defined.

Section Pieces.

Variable opts : split_Opts_t.
Variable input : list byte.
Variable good_cut : Z -> Prop.

Local Abbreviation B := (buffer_size opts).

Hypothesis chunk_positive : 1 <= B.
Hypothesis cut_at_end : good_cut (Z.of_nat (length input)).
Hypothesis cut_by_locator :
  forall pre w rest projected_bound is_first_block,
    input = pre ++ w ++ rest ->
    0 <= projected_bound < Z.of_nat (length w) ->
    split_FindBound w projected_bound (Z.of_nat (length w)) is_first_block
    <> SPLIT_BOUND_NOT_FOUND ->
    good_cut (Z.of_nat (length pre)
              + split_FindBound w projected_bound (Z.of_nat (length w))
                                is_first_block + 1).

Lemma chunk_nonneg : 0 <= B.
Proof. lia. Qed.

Lemma concat_rev_cons (cur : list byte) older :
  concat (rev (cur :: older)) = concat (rev older) ++ cur.
Proof.
  cbn [rev]. rewrite concat_app. cbn [concat]. rewrite app_nil_r.
  reflexivity.
Qed.

(** A pass that ends: what it appends to the file of the piece. *)
Lemma transfer_step_detail piece_num is_first_block to_read st to_read' st'
      cur older :
  engine_ok B input st ->
  files st = cur :: older ->
  1 <= to_read <= bytes_available st ->
  (piece_num = num_pieces opts - 1 -> to_read = bytes_available st) ->
  transfer_step opts piece_num is_first_block to_read st
  = (Done to_read', st') ->
  exists w,
    files st' = (cur ++ w) :: older
    /\ bytes_available st' = bytes_available st - Z.of_nat (length w)
    /\ Z.of_nat (length w) <= 2 * B
    /\ (is_first_block = true -> 1 <= Z.of_nat (length w))
    /\ ((1 <= to_read' /\ to_read' = to_read - Z.of_nat (length w))
        \/ (to_read' = 0
            /\ good_cut (Z.of_nat (length (concat (rev older)))
                         + Z.of_nat (length (cur ++ w))))).
Proof.
  intros Hok Hf Htr Hlast. unfold transfer_step.
  destruct (refill_done opts input chunk_nonneg st Hok)
    as (st0 & R & Hok0 & Eds & Eba & Ef & El & Hact).
  rewrite R.
  specialize (Hact chunk_positive ltac:(lia)).
  destruct (split_CalcUpperBoundOfOutputTransfer _ _ _ _ _ _ _ _)
    as [oce| |] eqn:C; try discriminate.
  destruct Hok0 as [Hlen Hs He Ho Hn Ha Hb].
  assert (Hpos : 1 <= to_read) by lia.
  pose proof (calc_range _ _ _ _ _ _ _ _ _ chunk_nonneg Ho Hpos C) as Hr.
  rewrite write_output_done by lia.
  destruct (slide opts (double_buff st0) (oce + 1) (data_end st0))
    as [[buff2 ds2] de2].
  intros [= <- <-]. fields.
  set (w := slice (double_buff st0) (data_start st0)
                  (oce - data_start st0 + 1)).
  assert (Lw : Z.of_nat (length w) = oce - data_start st0 + 1)
    by (apply slice_length; lia).
  exists w. rewrite Ef, Hf. cbn [newest write_newest].
  split; [reflexivity|]. split; [lia|]. split; [lia|].
  set (n := data_end st0 - data_start st0 + 1) in *.
  set (pre := concat (rev (files st0))).
  set (act := slice (double_buff st0) (data_start st0) n) in *.
  assert (Lact : Z.of_nat (length act) = n)
    by (apply slice_length; lia).
  assert (Lin : Z.of_nat (length input)
                = Z.of_nat (length pre) + n + bytes_not_read st0).
  { rewrite <- Hb, !length_app. fold pre act. lia. }
  assert (Lpre : Z.of_nat (length pre)
                 = Z.of_nat (length (concat (rev older)))
                   + Z.of_nat (length cur)).
  { unfold pre. rewrite Ef, Hf, concat_rev_cons, length_app. lia. }
  rewrite length_app, Nat2Z.inj_add, Lw.
  apply calc_cases in C. cbv zeta in C. fold n in C.
  destruct C as [(C1 & C2) | [(C1 & C2 & C3) | [(C1 & C2 & C3 & C4)
                                               | (C1 & C2 & C3 & C4 & C5)]]].
  - (* more is wanted than the buffer holds *)
    assert (Hw : data_start st0 <= oce /\ oce - data_start st0 + 1 <= n).
    { rewrite C2. destruct (n >=? B) eqn:E; bool_to_prop; lia. }
    split; [lia|]. left.
    replace (oce <? data_start st0) with false
      by (symmetry; apply Z.ltb_ge; lia).
    replace (oce - data_start st0 + 1 >? to_read) with false
      by (symmetry; rewrite Z.gtb_ltb; apply Z.ltb_ge; lia).
    lia.
  - (* the last piece *)
    subst oce. split; [lia|]. right.
    bool_to_prop. specialize (Hlast C2).
    assert (bytes_not_read st0 = 0) by lia.
    split.
    + destruct (data_end st0 <? data_start st0); [reflexivity|].
      destruct (data_end st0 - data_start st0 + 1 >? to_read) eqn:G;
        [reflexivity|]. fold n. lia.
    + replace (Z.of_nat (length (concat (rev older)))
               + (Z.of_nat (length cur) + (data_end st0 - data_start st0 + 1)))
        with (Z.of_nat (length input)) by (fold n; lia).
      exact cut_at_end.
  - (* the locator found a bound *)
    rewrite find_bound_slice in C3, C4 by lia. fold act in C3, C4.
    rewrite <- Lact in C3, C4.
    pose proof (cut_by_locator pre act (input_rest st0) (to_read - 1)
                  is_first_block (eq_sym Hb) ltac:(lia) C3) as G.
    pose proof (find_bound_range act (to_read - 1) (Z.of_nat (length act))
                  is_first_block ltac:(lia)) as [Rg Rf].
    cbv zeta in Rg, Rf.
    set (r := split_FindBound act (to_read - 1) (Z.of_nat (length act))
                              is_first_block) in *.
    destruct Rg as [Rg|Rg]; [contradiction|].
    subst oce. split.
    { intros F. specialize (Rf F). lia. }
    replace (Z.of_nat (length (concat (rev older)))
             + (Z.of_nat (length cur) + (r + data_start st0
                                         - data_start st0 + 1)))
      with (Z.of_nat (length pre) + r + 1) by lia.
    destruct (r + data_start st0 <? data_start st0) eqn:E1;
      [right; split; [reflexivity | exact G]|].
    destruct (r + data_start st0 - data_start st0 + 1 >? to_read) eqn:E2;
      [right; split; [reflexivity | exact G]|].
    bool_to_prop.
    destruct (Z.eq_dec (to_read - (r + data_start st0 - data_start st0 + 1))
                       0) as [Z0|Z0].
    + right. split; [exact Z0 | exact G].
    + left. lia.
  - (* no bound, and the input has ended *)
    subst oce. split; [lia|]. right. bool_to_prop.
    split.
    + destruct (data_end st0 <? data_start st0); [reflexivity|].
      destruct (data_end st0 - data_start st0 + 1 >? to_read) eqn:G;
        [reflexivity|]. bool_to_prop. fold n in G. fold n. lia.
    + replace (Z.of_nat (length (concat (rev older)))
               + (Z.of_nat (length cur) + (data_end st0 - data_start st0 + 1)))
        with (Z.of_nat (length input)) by (fold n; lia).
      exact cut_at_end.
Qed.

Lemma targets_calc_call b s e p fb eoi lp l :
  targets (CalcCall b s e p fb eoi lp :: l) = targets l.
Proof. reflexivity. Qed.

(** A pass adds no target to the log. *)
Lemma transfer_step_targets piece_num is_first_block to_read st o st' :
  transfer_step opts piece_num is_first_block to_read st = (o, st') ->
  targets (log st') = targets (log st).
Proof.
  unfold transfer_step.
  destruct (refill opts st) as [st0|e|] eqn:R;
    [|intros [= <- <-]; reflexivity ..].
  destruct (refill_files opts st st0 R) as [_ El].
  destruct (split_CalcUpperBoundOfOutputTransfer _ _ _ _ _ _ _ _)
    as [oce|e|]; [|intros [= <- <-]; fields; rewrite <- El; reflexivity ..].
  destruct (split_WriteOutput _ _ _ _) as [[n file]|e|];
    [|intros [= <- <-]; fields; rewrite <- El; reflexivity ..].
  destruct (slide opts _ _ _) as [[buff2 ds2] de2].
  intros [= <- <-]. fields. rewrite <- El. reflexivity.
Qed.

(** The [while] loop of a piece that ends: what the piece holds when it
    does. *)
Lemma transfer_loop_detail piece_num fuel :
  forall is_first_block to_read st st' cur older,
    engine_ok B input st ->
    files st = cur :: older ->
    0 <= to_read <= bytes_available st ->
    to_read <= Z.of_nat fuel ->
    (piece_num = num_pieces opts - 1 ->
     to_read = 0 \/ to_read = bytes_available st) ->
    transfer_loop opts fuel piece_num is_first_block to_read st
    = (Done tt, st') ->
    exists w,
      files st' = (cur ++ w) :: older
      /\ targets (log st') = targets (log st)
      /\ (to_read = 0 -> w = [])
      /\ (1 <= to_read ->
          Z.of_nat (length w) <= to_read - 1 + 2 * B
          /\ good_cut (Z.of_nat (length (concat (rev older)))
                       + Z.of_nat (length (cur ++ w)))
          /\ (is_first_block = true -> 1 <= Z.of_nat (length w))).
Proof.
  induction fuel as [|fuel IH];
    intros fb to_read st st' cur older Hok Hf Htr Hfuel Hlast.
  - cbn [transfer_loop].
    replace (to_read =? 0) with true by (symmetry; apply Z.eqb_eq; lia).
    intros [= <-]. exists []. rewrite app_nil_r.
    repeat split; try assumption; lia.
  - cbn [transfer_loop].
    destruct (to_read =? 0) eqn:E0; bool_to_prop.
    + intros [= <-]. exists []. rewrite app_nil_r.
      repeat split; try assumption; lia.
    + assert (Hpos : 1 <= to_read) by lia.
      assert (Hlast' : piece_num = num_pieces opts - 1 ->
                       to_read = bytes_available st)
        by (intros L; destruct (Hlast L); [lia|assumption]).
      destruct (transfer_step opts piece_num fb to_read st)
        as [o1 st1] eqn:S.
      destruct o1 as [to_read1|e|]; [|discriminate ..].
      pose proof (transfer_step_targets _ _ _ _ _ _ S) as Et.
      assert (Hfs : files st <> []) by (rewrite Hf; discriminate).
      pose proof (transfer_step_done opts input chunk_nonneg _ _ _ _ _ _
                    Hok Hfs Hpos S) as (Hok1 & _ & Hdec & _ & Hall).
      assert (Htr' : 1 <= to_read <= bytes_available st) by lia.
      destruct (transfer_step_detail _ _ _ _ _ _ cur older Hok Hf
                  Htr' Hlast' S)
        as (w1 & Hf1 & Hba1 & Hw1 & Hfb1 & Hend).
      assert (Hba : 0 <= bytes_available st1).
      { destruct Hok1 as [_ _ _ Ho Hn Ha _]. lia. }
      assert (Hlast1 : piece_num = num_pieces opts - 1 ->
                       to_read1 = 0 \/ to_read1 = bytes_available st1).
      { intros K. right. apply Hall; [exact chunk_positive | exact K|].
        apply Hlast'. exact K. }
      intros L.
      destruct (IH false to_read1 st1 st' (cur ++ w1) older Hok1 Hf1
                  ltac:(destruct Hend; lia) ltac:(lia) Hlast1 L)
        as (w2 & Hf2 & Et2 & Hnil & Hrest).
      exists (w1 ++ w2). rewrite app_assoc.
      split; [exact Hf2|]. split; [congruence|]. split; [lia|].
      intros _.
      destruct Hend as [[Hp E1]|[Z0 G]].
      * destruct (Hrest Hp) as (R1 & R2 & _).
        rewrite length_app, Nat2Z.inj_add.
        repeat split; [lia | exact R2 | intros F; specialize (Hfb1 F); lia].
      * rewrite (Hnil Z0), !app_nil_r.
        repeat split; [lia | exact G | exact Hfb1].
Qed.

(** What the files of a run that ends satisfy: every file ends at a good
    offset, is not empty and exceeds its target by less than two chunks. *)
Lemma pieces_loop_detail rounds :
  forall piece_num st st',
    engine_ok B input st ->
    Forall call_ok (log st) ->
    Z.of_nat rounds = Z.max 0 (num_pieces opts - piece_num) ->
    pieces_loop opts rounds piece_num st = (Done tt, st') ->
    cuts_good good_cut (files st) ->
    Forall2 (fun t p => 1 <= Z.of_nat (length p) <= t - 1 + 2 * B)
            (rev (targets (log st))) (files st) ->
    cuts_good good_cut (files st')
    /\ Forall2 (fun t p => 1 <= Z.of_nat (length p) <= t - 1 + 2 * B)
               (rev (targets (log st'))) (files st').
Proof.
  induction rounds as [|rounds IH]; intros k st st' Hok Hlog Hr.
  - cbn [pieces_loop]. intros [= <-]. tauto.
  - cbn [pieces_loop].
    replace (k <? num_pieces opts) with true
      by (symmetry; apply Z.ltb_lt; lia).
    set (to_read := piece_target opts (bytes_available st) k).
    assert (Hba : 0 <= bytes_available st).
    { destruct Hok as [_ _ _ Ho Hn Ha _]. lia. }
    assert (Htr : 0 <= to_read)
      by (apply (piece_target_nonneg opts); lia).
    assert (Hle : to_read <= bytes_available st).
    { apply piece_target_ceiling; [lia | lia | nia]. }
    destruct (to_read =? 0) eqn:E0; [discriminate|]. bool_to_prop.
    set (st1 := {| double_buff := double_buff st;
                   data_start := data_start st;
                   data_end := data_end st;
                   bytes_available := bytes_available st;
                   bytes_not_read := bytes_not_read st;
                   input_rest := input_rest st;
                   files := [] :: files st;
                   log := PieceTarget k to_read :: log st |}).
    assert (Hok1 : engine_ok B input st1)
      by (apply engine_ok_new_piece; assumption).
    assert (Hf1 : files st1 <> []) by discriminate.
    assert (Hfuel : 0 <= to_read <= Z.of_nat (Z.to_nat to_read)) by lia.
    assert (Hlog1 : Forall call_ok (log st1))
      by (constructor; [exact I | assumption]).
    assert (Hlast : k = num_pieces opts - 1 ->
                    to_read = 0 \/ to_read = bytes_available st1).
    { intros K. right. unfold to_read. apply piece_target_last. lia. }
    destruct (transfer_loop opts (Z.to_nat to_read) k true to_read st1)
      as [o2 st2] eqn:L.
    destruct (transfer_loop_spec opts input chunk_nonneg k _ _ _ _ _ _
                Hok1 Hf1 Hfuel Hlog1 Hlast L) as (_ & T2 & _ & T4).
    destruct o2 as [[]|e|]; [|discriminate ..].
    destruct (T4 eq_refl) as (Hok2 & _ & _).
    assert (Hav : 0 <= to_read <= bytes_available st1)
      by (cbn [st1 bytes_available]; lia).
    destruct (transfer_loop_detail k (Z.to_nat to_read) true to_read st1 st2
                [] (files st) Hok1 eq_refl Hav (proj2 Hfuel) Hlast L)
      as (w & Hf2 & Et & _ & Hw).
    destruct (Hw ltac:(lia)) as (W1 & W2 & W3).
    cbn [app] in Hf2, W2.
    intros R Hcuts Htargets.
    apply (IH (k + 1) st2 st' Hok2 T2 ltac:(lia) R).
    + rewrite Hf2. cbn [cuts_good]. split; assumption.
    + rewrite Hf2, Et. cbn [st1 log].
      change (targets (PieceTarget k to_read :: log st))
        with (targets (log st) ++ [to_read]).
      rewrite rev_app_distr. cbn [rev app].
      constructor; [|exact Htargets].
      specialize (W3 eq_refl). lia.
Qed.

Lemma split_source_detail st' :
  split_SplitSource opts input = (Done tt, st') ->
  cuts_good good_cut (files st')
  /\ Forall2 (fun t p => 1 <= Z.of_nat (length p) <= t - 1 + 2 * B)
             (rev (targets (log st'))) (files st').
Proof.
  unfold split_SplitSource. intros R.
  assert (Hr : Z.of_nat (Z.to_nat (num_pieces opts))
               = Z.max 0 (num_pieces opts - 0)) by lia.
  apply (pieces_loop_detail _ 0 (initial opts input) st'
           (initial_ok opts input chunk_nonneg) (Forall_nil _) Hr R).
  - exact I.
  - constructor.
Qed.

End Pieces.

Lemma Forall2_rev {A C : Type} (R : A -> C -> Prop) l1 l2 :
  Forall2 R l1 l2 -> Forall2 R (rev l1) (rev l2).
Proof.
  induction 1 as [|x y l1 l2 H H' IH]; cbn [rev]; [constructor|].
  apply Forall2_app; [exact IH | repeat constructor; exact H].
Qed.

Lemma cuts_good_pieces (good_cut : Z -> Prop) fs :
  cuts_good good_cut fs ->
  forall before p after,
    rev fs = before ++ p :: after ->
    good_cut (Z.of_nat (length (concat before)) + Z.of_nat (length p)).
Proof.
  induction fs as [|f older IH]; intros H before p after E.
  - destruct before; discriminate.
  - cbn [cuts_good] in H. destruct H as [H1 H2]. cbn [rev] in E.
    destruct (rev after) as [|l after'] eqn:Ea.
    + apply (f_equal (@rev _)) in Ea. rewrite rev_involutive in Ea.
      cbn [rev] in Ea. subst after.
      apply app_inj_tail in E. destruct E as [E1 E2].
      rewrite <- E1, <- E2. exact H1.
    + apply (f_equal (@rev _)) in Ea. rewrite rev_involutive in Ea.
      cbn [rev] in Ea. subst after.
      change (before ++ p :: rev after' ++ [l])
        with (before ++ (p :: rev after') ++ [l]) in E.
      rewrite app_assoc in E.
      apply app_inj_tail in E. destruct E as [E _].
      apply (IH H2 before p (rev after') E).
Qed.

(** X10. In a run that ends, with chunks of a byte or more, no piece is
    empty. *)
Theorem pieces_not_empty :
  forall opts input st',
    1 <= buffer_size opts ->
    split_SplitSource opts input = (Done tt, st') ->
    Forall (fun p => p <> []) (pieces_of (Done tt, st')).
Proof.
  intros opts input st' HB R.
  destruct (split_source_detail opts input (fun _ => True) HB I
              (fun _ _ _ _ _ _ _ _ => I) st' R) as [_ H].
  unfold pieces_of. cbn [snd]. apply Forall_rev.
  induction H as [|t p ts ps Hp _ IH]; constructor; [|exact IH].
  intros ->. cbn [length] in Hp. lia.
Qed.

Lemma pieces_not_empty_witness :
  Forall (fun p => p <> [])
         (pieces_of (Done tt, snd (split_SplitSource (mk_opts 2 5)
                                                     two_elements))).
Proof.
  apply (pieces_not_empty (mk_opts 2 5) two_elements).
  - vm_compute. discriminate.
  - vm_compute. reflexivity.
Defined.

(** X11. In a run that ends, with chunks of a byte or more, every piece
    exceeds its target by less than two chunks. *)
Theorem pieces_near_targets :
  forall opts input st',
    1 <= buffer_size opts ->
    split_SplitSource opts input = (Done tt, st') ->
    Forall2 (fun t p => Z.of_nat (length p) < t + 2 * buffer_size opts)
            (targets (log st')) (pieces_of (Done tt, st')).
Proof.
  intros opts input st' HB R.
  destruct (split_source_detail opts input (fun _ => True) HB I
              (fun _ _ _ _ _ _ _ _ => I) st' R) as [_ H].
  unfold pieces_of. cbn [snd].
  rewrite <- (rev_involutive (targets (log st'))).
  apply Forall2_rev.
  induction H as [|t p ts ps Hp _ IH]; constructor; [lia | exact IH].
Qed.

Lemma pieces_near_targets_witness :
  Forall2 (fun t p => Z.of_nat (length p) < t + 2 * buffer_size (mk_opts 2 5))
          (targets (log (snd (split_SplitSource (mk_opts 2 5) two_elements))))
          (pieces_of (Done tt, snd (split_SplitSource (mk_opts 2 5)
                                                      two_elements))).
Proof.
  apply (pieces_near_targets (mk_opts 2 5) two_elements).
  - vm_compute. discriminate.
  - vm_compute. reflexivity.
Defined.

Lemma cut_ok_by_locator input pre w rest projected_bound is_first_block :
  input = pre ++ w ++ rest ->
  0 <= projected_bound < Z.of_nat (length w) ->
  split_FindBound w projected_bound (Z.of_nat (length w)) is_first_block
  <> SPLIT_BOUND_NOT_FOUND ->
  cut_ok input
    (Z.of_nat (length pre)
     + split_FindBound w projected_bound (Z.of_nat (length w)) is_first_block
     + 1) = true.
Proof.
  intros E Hp N.
  set (n := Z.of_nat (length w)) in *.
  set (r := split_FindBound w projected_bound n is_first_block) in *.
  assert (Hc : forall k, 0 <= k < n ->
                 char_at input (Z.of_nat (length pre) + k) = char_at w k).
  { intros k Hk. rewrite E, char_at_app_r by lia. apply char_at_app_l.
    exact Hk. }
  unfold cut_ok.
  destruct (find_bound_cases w projected_bound n is_first_block Hp)
    as [[F _] | [(i & Hi & _ & U & Er) | [(i & Hi & Hn & _ & U & _ & Er)
                                         | (i & _ & L & _ & Er)]]];
    cbv zeta in *; try fold r in Er.
  - contradiction.
  - unfold usable_start in U. apply andb_true_iff in U. destruct U as [U _].
    replace (Z.of_nat (length pre) + r + 1)
      with (Z.of_nat (length pre) + (projected_bound - i)) by lia.
    rewrite Hc, U by lia. apply orb_true_iff. left. apply orb_true_r.
  - unfold usable_start in U. apply andb_true_iff in U. destruct U as [U _].
    replace (Z.of_nat (length pre) + r + 1)
      with (Z.of_nat (length pre) + (projected_bound + i)) by lia.
    rewrite Hc, U by lia. apply orb_true_iff. left. apply orb_true_r.
  - replace (Z.of_nat (length pre) + r + 1 - 1)
      with (Z.of_nat (length pre) + (n - 1)) by lia.
    rewrite Hc, L by lia.
    replace (1 <=? Z.of_nat (length pre) + r + 1) with true
      by (symmetry; apply Z.leb_le; lia).
    apply orb_true_r.
Qed.

(** X12. In a run that ends, with chunks of a byte or more, every piece
    ends where the input ends, before a ['>'] or after a line end. *)
Theorem pieces_end_at_boundaries :
  forall opts input st' before p after,
    1 <= buffer_size opts ->
    split_SplitSource opts input = (Done tt, st') ->
    pieces_of (Done tt, st') = before ++ p :: after ->
    cut_ok input (Z.of_nat (length (concat before ++ p))) = true.
Proof.
  intros opts input st' before p after HB R E.
  destruct (split_source_detail opts input
              (fun c => cut_ok input c = true) HB) with (st' := st')
    as [H _].
  - unfold cut_ok. rewrite Z.eqb_refl. reflexivity.
  - intros pre w rest pb fb. apply cut_ok_by_locator.
  - exact R.
  - rewrite length_app, Nat2Z.inj_add.
    apply (cuts_good_pieces _ _ H before p after). exact E.
Qed.

Lemma pieces_end_at_boundaries_witness :
  cut_ok two_elements
    (Z.of_nat (length (concat [] ++ [x3e; x61; x0a; x41; x43; x0a]))) = true.
Proof.
  apply (pieces_end_at_boundaries (mk_opts 2 5) two_elements
           (snd (split_SplitSource (mk_opts 2 5) two_elements))
           [] [x3e; x61; x0a; x41; x43; x0a]
           [[x3e; x62; x0a; x47; x54; x0a]]).
  - vm_compute. discriminate.
  - vm_compute. reflexivity.
  - vm_compute. reflexivity.
Defined.

(** X13. The target of a piece is the number of bytes not yet in a piece
    over the number of pieces not yet made, rounded up; it is never more
    than what is left and is 0 only when no byte is left. *)
Theorem piece_target_rounds_up :
  forall opts bytes piece_num,
    0 <= bytes ->
    piece_num < num_pieces opts ->
    let t := piece_target opts bytes piece_num in
    (num_pieces opts - piece_num) * (t - 1) < bytes
    <= (num_pieces opts - piece_num) * t
    /\ t <= bytes
    /\ (t = 0 <-> bytes = 0).
Proof.
  intros opts bytes k Hb Hk. cbv zeta. unfold piece_target.
  set (m := num_pieces opts - k) in *.
  rewrite Z.quot_div_nonneg, Z.rem_mod_nonneg by lia.
  pose proof (Z.div_mod bytes m ltac:(lia)) as D.
  pose proof (Z.mod_pos_bound bytes m ltac:(lia)) as M.
  destruct (Z.eqb_spec (bytes mod m) 0) as [E|E]; cbn [negb];
    repeat split; try nia.
Qed.

Lemma piece_target_rounds_up_witness :
  (num_pieces (mk_opts 3 5) - 0) * (piece_target (mk_opts 3 5) 14 0 - 1) < 14
  <= (num_pieces (mk_opts 3 5) - 0) * piece_target (mk_opts 3 5) 14 0
  /\ piece_target (mk_opts 3 5) 14 0 <= 14
  /\ (piece_target (mk_opts 3 5) 14 0 = 0 <-> 14 = 0).
Proof.
  apply (piece_target_rounds_up (mk_opts 3 5) 14 0).
  - lia.
  - vm_compute. reflexivity.
Defined.

(** *** The targets of a run *)

(** A pass leaves the older files as they are. *)
Lemma transfer_step_older opts piece_num is_first_block to_read st o st'
      cur older :
  files st = cur :: older ->
  transfer_step opts piece_num is_first_block to_read st = (o, st') ->
  exists cur', files st' = cur' :: older.
Proof.
  intros Hf. unfold transfer_step.
  destruct (refill opts st) as [st0|e|] eqn:R;
    [|intros [= <- <-]; exists cur; exact Hf ..].
  destruct (refill_files opts st st0 R) as [Ef _].
  destruct (split_CalcUpperBoundOfOutputTransfer _ _ _ _ _ _ _ _)
    as [oce|e|];
    [|intros [= <- <-]; fields; exists cur; congruence ..].
  destruct (split_WriteOutput _ _ _ _) as [[n file]|e|];
    [|intros [= <- <-]; fields; exists cur; congruence ..].
  destruct (slide opts _ _ _) as [[buff2 ds2] de2].
  intros [= <- <-]. fields. rewrite Ef, Hf. cbn [write_newest].
  exists file. reflexivity.
Qed.

(** The [while] loop of a piece, whatever its outcome, changes the file of
    the piece only and adds no target. *)
Lemma transfer_loop_older opts piece_num fuel :
  forall is_first_block to_read st o st' cur older,
    files st = cur :: older ->
    transfer_loop opts fuel piece_num is_first_block to_read st = (o, st') ->
    exists cur',
      files st' = cur' :: older /\ targets (log st') = targets (log st).
Proof.
  induction fuel as [|fuel IH]; intros fb to_read st o st' cur older Hf;
    cbn [transfer_loop].
  - destruct (to_read =? 0); intros [= <- <-]; exists cur; split;
      [exact Hf | reflexivity | exact Hf | reflexivity].
  - destruct (to_read =? 0);
      [intros [= <- <-]; exists cur; split; [exact Hf | reflexivity]|].
    destruct (transfer_step opts piece_num fb to_read st) as [o1 st1] eqn:S.
    pose proof (transfer_step_targets _ _ _ _ _ _ _ S) as Et.
    destruct (transfer_step_older _ _ _ _ _ _ _ _ _ Hf S) as [cur1 Hf1].
    destruct o1 as [to_read1|e|].
    + intros L. destruct (IH _ _ _ _ _ _ _ Hf1 L) as (cur' & H1 & H2).
      exists cur'. split; [exact H1 | congruence].
    + intros [= <- <-]. exists cur1. split; assumption.
    + intros [= <- <-]. exists cur1. split; assumption.
Qed.

(** Between two passes the bytes still available are the bytes of the input
    that are in no file yet. *)
Lemma available_is_unwritten opts input st :
  0 <= buffer_size opts ->
  engine_ok (buffer_size opts) input st ->
  bytes_available st
  = Z.of_nat (length input) - Z.of_nat (length (concat (rev (files st)))).
Proof.
  intros HB [Hlen Hs He Ho Hn Ha Hb].
  assert (L : Z.of_nat (length (slice (double_buff st) (data_start st)
                                  (data_end st - data_start st + 1)))
              = data_end st - data_start st + 1)
    by (apply slice_length; lia).
  rewrite <- Hb at 1. rewrite !length_app. lia.
Qed.

(** The loop over the pieces, whatever its outcome: the targets it logs
    and the files it makes. *)
Lemma pieces_loop_targets opts input rounds :
  0 <= buffer_size opts ->
  forall piece_num st o st',
    engine_ok (buffer_size opts) input st ->
    Forall call_ok (log st) ->
    Z.of_nat rounds = Z.max 0 (num_pieces opts - piece_num) ->
    pieces_loop opts rounds piece_num st = (o, st') ->
    exists ts ps,
      targets (log st') = targets (log st) ++ ts
      /\ rev (files st') = rev (files st) ++ ps
      /\ targets_follow opts (bytes_available st) piece_num ts ps.
Proof.
  intros HB.
  induction rounds as [|rounds IH]; intros k st o st' Hok Hlog Hr.
  - cbn [pieces_loop]. intros [= <- <-]. exists [], [].
    rewrite !app_nil_r. repeat split.
  - cbn [pieces_loop].
    replace (k <? num_pieces opts) with true
      by (symmetry; apply Z.ltb_lt; lia).
    set (to_read := piece_target opts (bytes_available st) k).
    assert (Hba : 0 <= bytes_available st).
    { destruct Hok as [_ _ _ Ho Hn Ha _]. lia. }
    assert (Htr : 0 <= to_read)
      by (apply (piece_target_nonneg opts); lia).
    destruct (to_read =? 0) eqn:E0; bool_to_prop.
    + intros [= <- <-]. fields. exists [to_read], [].
      rewrite app_nil_r. cbn [targets_follow].
      repeat split; try reflexivity; lia.
    + set (st1 := {| double_buff := double_buff st;
                     data_start := data_start st;
                     data_end := data_end st;
                     bytes_available := bytes_available st;
                     bytes_not_read := bytes_not_read st;
                     input_rest := input_rest st;
                     files := [] :: files st;
                     log := PieceTarget k to_read :: log st |}).
      assert (Hok1 : engine_ok (buffer_size opts) input st1)
        by (apply engine_ok_new_piece; assumption).
      assert (Hf1 : files st1 <> []) by discriminate.
      assert (Hfuel : 0 <= to_read <= Z.of_nat (Z.to_nat to_read)) by lia.
      assert (Hlog1 : Forall call_ok (log st1))
        by (constructor; [exact I | assumption]).
      assert (Hlast : k = num_pieces opts - 1 ->
                      to_read = 0 \/ to_read = bytes_available st1).
      { intros K. right. unfold to_read. apply piece_target_last. lia. }
      destruct (transfer_loop opts (Z.to_nat to_read) k true to_read st1)
        as [o2 st2] eqn:L.
      destruct (transfer_loop_older opts k (Z.to_nat to_read) true to_read
                  st1 o2 st2 [] (files st) eq_refl L)
        as (cur & Hf2 & Et2).
      assert (Et : targets (log st2) = targets (log st) ++ [to_read])
        by (rewrite Et2; reflexivity).
      destruct (transfer_loop_spec opts input HB k _ _ _ _ _ _
                  Hok1 Hf1 Hfuel Hlog1 Hlast L) as (_ & T2 & _ & T4).
      assert (Hstop : (o, st') = (o2, st2) ->
                exists ts ps,
                  targets (log st') = targets (log st) ++ ts
                  /\ rev (files st') = rev (files st) ++ ps
                  /\ targets_follow opts (bytes_available st) k ts ps).
      { intros [= -> ->]. exists [to_read], [cur].
        rewrite Hf2. cbn [rev targets_follow].
        repeat split; try assumption; try reflexivity; lia. }
      destruct o2 as [[]|e|];
        [|intros E; apply Hstop; symmetry; exact E ..].
      destruct (T4 eq_refl) as (Hok2 & _ & _).
      intros R.
      destruct (IH (k + 1) st2 o st' Hok2 T2 ltac:(lia) R)
        as (ts & ps & I1 & I2 & I3).
      exists (to_read :: ts), (cur :: ps).
      rewrite I1, I2, Et, Hf2. cbn [rev]. rewrite <- !app_assoc.
      cbn [app targets_follow].
      split; [reflexivity|]. split; [reflexivity|].
      split; [reflexivity|]. split; [exact Hba|]. split; [lia|].
      replace (bytes_available st - Z.of_nat (length cur))
        with (bytes_available st2); [exact I3|].
      rewrite (available_is_unwritten opts input st2 HB Hok2).
      rewrite (available_is_unwritten opts input st HB Hok).
      rewrite Hf2. cbn [rev]. rewrite concat_app, length_app. cbn [concat].
      rewrite app_nil_r. lia.
Qed.

(** When a piece takes its target or more, the target of the next piece,
    computed from what is left, is not larger. *)
Lemma target_after_full_piece opts bytes piece_num written :
  0 <= bytes ->
  piece_num + 1 < num_pieces opts ->
  piece_target opts bytes piece_num <= written <= bytes ->
  piece_target opts (bytes - written) (piece_num + 1)
  <= piece_target opts bytes piece_num.
Proof.
  intros Hb Hk Hw.
  apply piece_target_ceiling; [lia|lia|].
  assert (H : bytes <= piece_target opts bytes piece_num
                       * (num_pieces opts - piece_num))
    by (apply piece_target_ceiling; lia).
  nia.
Qed.

Lemma targets_follow_next opts : forall j bytes piece_num ts ps t t' p,
  targets_follow opts bytes piece_num ts ps ->
  nth_error ts j = Some t ->
  nth_error ts (S j) = Some t' ->
  nth_error ps j = Some p ->
  t <= Z.of_nat (length p) ->
  t' <= t.
Proof.
  induction j as [|j IH]; intros bytes k ts ps t t' p F Ht Ht' Hp Hfull.
  - destruct ts as [|t0 [|t1 ts]]; try discriminate.
    destruct ps as [|p0 ps]; try discriminate.
    cbn [nth_error] in Ht, Ht', Hp.
    injection Ht as ->. injection Ht' as ->. injection Hp as ->.
    cbn [targets_follow] in F.
    destruct F as (-> & Hb & Hk & -> & Hb' & Hk' & _).
    apply target_after_full_piece; lia.
  - destruct ts as [|t0 ts]; try discriminate.
    destruct ps as [|p0 ps]; try discriminate.
    cbn [targets_follow] in F. destruct F as (_ & _ & _ & F).
    apply (IH _ _ ts ps t t' p F Ht Ht' Hp Hfull).
Qed.

(** The target of every piece of a run is computed from the bytes that the
    pieces before it left. *)
Lemma targets_follow_nth opts : forall j bytes piece_num ts ps t,
  targets_follow opts bytes piece_num ts ps ->
  nth_error ts j = Some t ->
  t = piece_target opts
        (bytes - Z.of_nat (length (concat (firstn j ps))))
        (piece_num + Z.of_nat j).
Proof.
  induction j as [|j IH]; intros bytes k ts ps t F Ht.
  - destruct ts as [|t0 ts]; [discriminate|].
    cbn [nth_error] in Ht. injection Ht as ->.
    cbn [targets_follow] in F. destruct F as (-> & _).
    cbn [firstn concat length Z.of_nat]. f_equal; lia.
  - destruct ts as [|t0 ts]; [discriminate|].
    cbn [nth_error] in Ht. cbn [targets_follow] in F.
    destruct F as (_ & _ & _ & F).
    destruct ps as [|p0 ps]; [subst ts; destruct j; discriminate|].
    rewrite (IH _ _ ts ps t F Ht).
    cbn [firstn concat]. rewrite length_app. f_equal; lia.
Qed.

(** C5, as amended, on the targets and the pieces of a run, whatever its
    outcome.  The target of a piece is the ceiling of the bytes that the
    pieces before it left over the number of pieces still to make; and when
    piece [k] holds at least as many bytes as its target, the target of
    piece [k + 1] is at most the target of piece [k]. *)
Theorem next_target_not_larger :
  forall opts input k t t' p,
    0 <= buffer_size opts ->
    nth_error (targets (log (snd (split_SplitSource opts input)))) k
    = Some t ->
    nth_error (targets (log (snd (split_SplitSource opts input)))) (S k)
    = Some t' ->
    nth_error (pieces_of (split_SplitSource opts input)) k = Some p ->
    t' = piece_target opts
           (Z.of_nat (length input)
            - Z.of_nat (length (concat (firstn (S k)
                 (pieces_of (split_SplitSource opts input))))))
           (Z.of_nat (S k))
    /\ (t <= Z.of_nat (length p) -> t' <= t).
Proof.
  intros opts input k t t' p HB Ht Ht' Hp.
  unfold pieces_of in *.
  destruct (split_SplitSource opts input) as [o st'] eqn:R.
  cbn [snd] in *. unfold split_SplitSource in R.
  assert (Hr : Z.of_nat (Z.to_nat (num_pieces opts))
               = Z.max 0 (num_pieces opts - 0)) by lia.
  destruct (pieces_loop_targets opts input _ HB 0 (initial opts input) o st'
              (initial_ok opts input HB) (Forall_nil _) Hr R)
    as (ts & ps & E1 & E2 & F).
  cbn [initial log files targets rev flat_map app bytes_available]
    in E1, E2, F.
  rewrite E1 in Ht, Ht'. rewrite E2 in Hp |- *. split.
  - rewrite (targets_follow_nth opts (S k) _ _ ts ps t' F Ht').
    f_equal.
  - intros Hfull.
    apply (targets_follow_next opts k _ _ ts ps t t' p F Ht Ht' Hp Hfull).
Qed.

Lemma next_target_not_larger_witness :
  5 = piece_target (mk_opts 3 5)
        (Z.of_nat (length three_elements)
         - Z.of_nat (length (concat (firstn 1
              (pieces_of (split_SplitSource (mk_opts 3 5)
                                            three_elements))))))
        (Z.of_nat 1)
  /\ (5 <= Z.of_nat (length [x3e; x61; x0a; x41; x0a]) -> 5 <= 5).
Proof.
  apply (next_target_not_larger (mk_opts 3 5) three_elements 0 5 5
           [x3e; x61; x0a; x41; x0a]).
  - vm_compute. discriminate.
  - vm_compute. reflexivity.
  - vm_compute. reflexivity.
  - vm_compute. reflexivity.
Defined.

(** ** A run, whatever its outcome *)

Section Traces.

Variable opts : split_Opts_t.
Variable input : list byte.

Local Abbreviation B := (buffer_size opts).

Hypothesis chunk_size_nonneg : 0 <= B.

Lemma refill_steady st st0 :
  engine_ok B input st ->
  steady B st ->
  refill opts st = Done st0 ->
  0 < bytes_not_read st0 -> data_end st0 = 2 * B - 1.
Proof.
  intros [Hlen Hs He Ho Hn Ha Hb] St. unfold refill.
  destruct (data_end st =? B - 1) eqn:E; bool_to_prop.
  - unfold split_FillUpperBuffHalfFromInput.
    destruct (bytes_not_read st =? 0) eqn:N; bool_to_prop.
    + intros [= <-]. fields. lia.
    + set (io_size := if B >? bytes_not_read st
                      then bytes_not_read st else B).
      assert (Hio : 0 <= io_size <= bytes_not_read st
                    /\ (io_size < bytes_not_read st -> io_size = B)).
      { unfold io_size. destruct (B >? bytes_not_read st) eqn:G;
          bool_to_prop; lia. }
      assert (Ld : Z.of_nat (length (firstn (Z.to_nat io_size)
                                       (input_rest st))) = io_size)
        by (rewrite length_firstn; lia).
      rewrite Ld, Z.eqb_refl. cbn [negb].
      intros [= <-]. fields. lia.
  - intros [= <-] Hnr. destruct (St Hnr); lia.
Qed.

Lemma slide_end buff data_start data_end buff2 data_start2 data_end2 :
  slide opts buff data_start data_end = (buff2, data_start2, data_end2) ->
  data_end2 = B - 1 \/ data_end2 = data_end.
Proof.
  unfold slide.
  destruct ((data_start >=? B) && (data_end - data_start >=? 0)).
  - destruct (_ >? _); intros [= <- <- <-]; now left.
  - destruct (_ >? _); intros [= <- <- <-]; [now left | now right].
Qed.

Lemma prefix_of_ok st :
  engine_ok B input st ->
  exists suffix, concat (rev (files st)) ++ suffix = input.
Proof. intros [_ _ _ _ _ _ Hb]. eexists. exact Hb. Qed.

(** One pass, whatever its outcome. *)
Lemma transfer_step_trace piece_num is_first_block to_read st o st' :
  engine_ok B input st ->
  steady B st ->
  1 <= to_read ->
  Forall call_bounds (log st) ->
  transfer_step opts piece_num is_first_block to_read st = (o, st') ->
  Forall call_bounds (log st')
  /\ o <> OutOfFuel
  /\ (forall to_read', o = Done to_read' -> steady B st')
  /\ (forall e, o = Fatal e ->
        e = NoItemBound /\ files st' = files st
        /\ exists c n, B <= n /\ no_start_inside input c n).
Proof.
  intros Hok St Htr Hlog. unfold transfer_step.
  destruct (refill_done opts input chunk_size_nonneg st Hok)
    as (st0 & R & Hok0 & Eds & Eba & Ef & El & _).
  rewrite R.
  pose proof (refill_steady st st0 Hok St R) as St0.
  destruct Hok0 as [Hlen Hs He Ho Hn Ha Hb].
  assert (Hfull : (bytes_not_read st0 =? 0) = false ->
                  B <= data_end st0 - data_start st0 + 1).
  { intros N. bool_to_prop. specialize (St0 ltac:(lia)). lia. }
  assert (Hcall : Forall call_bounds
            (CalcCall B (data_start st0) (data_end st0) to_read
               is_first_block (bytes_not_read st0 =? 0)
               (piece_num =? num_pieces opts - 1) :: log st0)).
  { constructor; [|rewrite El; exact Hlog].
    cbn [call_bounds]. repeat split; try lia; exact Hfull. }
  destruct (split_CalcUpperBoundOfOutputTransfer _ _ _ _ _ _ _ _)
    as [oce|e|] eqn:C.
  - pose proof (calc_range _ _ _ _ _ _ _ _ _ chunk_size_nonneg Ho Htr C)
      as Hr.
    rewrite write_output_done by lia.
    destruct (slide opts (double_buff st0) (oce + 1) (data_end st0))
      as [[buff2 ds2] de2] eqn:S.
    apply slide_end in S.
    intros [= <- <-]. fields.
    split; [exact Hcall|]. split; [discriminate|].
    split; [|intros e [=]].
    intros tr' _ Hnr. fields. specialize (St0 Hnr). lia.
  - intros [= <- <-]. fields.
    split; [exact Hcall|]. split; [discriminate|].
    split; [intros tr' [=]|].
    intros e' [= <-]. revert C.
    unfold split_CalcUpperBoundOfOutputTransfer, calc_upper_bound_with.
    destruct (to_read >? _) eqn:E1;
      [destruct (_ >=? B); discriminate|].
    destruct (piece_num =? num_pieces opts - 1); [discriminate|].
    destruct (negb (_ =? SPLIT_BOUND_NOT_FOUND)) eqn:E3; [discriminate|].
    destruct (bytes_not_read st0 =? 0) eqn:E4; [discriminate|].
    intros [= <-]. bool_to_prop.
    split; [reflexivity|]. split; [exact Ef|].
    set (n := data_end st0 - data_start st0 + 1) in *.
    exists (Z.of_nat (length (concat (rev (files st0))))), n.
    split; [apply Hfull; reflexivity|].
    assert (Lact : Z.of_nat (length (slice (double_buff st0)
                                       (data_start st0) n)) = n)
      by (apply slice_length; lia).
    split; [lia|]. split.
    + rewrite <- Hb, !length_app. lia.
    + intros j Hj.
      rewrite <- Hb, char_at_app_r, char_at_app_l, char_at_slice by lia.
      rewrite <- char_at_skipn by lia.
      pose proof (find_bound_cases
                    (skipn (Z.to_nat (data_start st0)) (double_buff st0))
                    (to_read - 1) n is_first_block ltac:(lia)) as F.
      cbv zeta in F.
      destruct F as [[_ S] | [(i & Hi & _ & _ & E)
                             | [(i & Hi & _ & _ & _ & _ & E)
                               | (i & _ & _ & _ & E)]]];
        try (rewrite E3 in E; unfold SPLIT_BOUND_NOT_FOUND in E; lia).
      specialize (S j ltac:(lia) ltac:(lia)).
      unfold usable_start in S.
      replace (j =? 0) with false in S by (symmetry; apply Z.eqb_neq; lia).
      cbn [negb orb] in S. rewrite andb_true_r in S.
      intros Eq. rewrite Eq in S. discriminate.
  - intros [= <- <-]. exfalso.
    apply (calc_outcome opts (double_buff st0) (data_start st0)
             (data_end st0) to_read is_first_block
             (bytes_not_read st0 =? 0) (piece_num =? num_pieces opts - 1)).
    exact C.
Qed.

(** The [while] loop of a piece, whatever its outcome. *)
Lemma transfer_loop_trace piece_num fuel :
  forall is_first_block to_read st o st',
    engine_ok B input st ->
    steady B st ->
    files st <> [] ->
    0 <= to_read ->
    Forall call_bounds (log st) ->
    transfer_loop opts fuel piece_num is_first_block to_read st = (o, st') ->
    Forall call_bounds (log st')
    /\ (exists suffix, concat (rev (files st')) ++ suffix = input)
    /\ (o = Done tt -> engine_ok B input st' /\ steady B st')
    /\ (forall e, o = Fatal e ->
          e = NoItemBound
          /\ exists c n, B <= n /\ no_start_inside input c n).
Proof.
  induction fuel as [|fuel IH];
    intros fb to_read st o st' Hok St Hf Htr Hlog.
  - cbn [transfer_loop]. destruct (to_read =? 0); intros [= <- <-].
    + split; [assumption|]. split; [apply prefix_of_ok; assumption|].
      split; [tauto | intros e [=]].
    + split; [assumption|]. split; [apply prefix_of_ok; assumption|].
      split; [discriminate | intros e [=]].
  - cbn [transfer_loop].
    destruct (to_read =? 0) eqn:E0; bool_to_prop.
    + intros [= <- <-].
      split; [assumption|]. split; [apply prefix_of_ok; assumption|].
      split; [tauto | intros e [=]].
    + assert (Hpos : 1 <= to_read) by lia.
      destruct (transfer_step opts piece_num fb to_read st)
        as [o1 st1] eqn:S.
      destruct (transfer_step_trace _ _ _ _ _ _ Hok St Hpos Hlog S)
        as (Hlog1 & Hfuel1 & Hst1 & Hfatal1).
      destruct o1 as [to_read1|e|]; [|intros [= <- <-]|contradiction].
      * pose proof (transfer_step_done opts input chunk_size_nonneg
                      _ _ _ _ _ _ Hok Hf Hpos S)
          as (Hok1 & Hlen1 & Hdec & _ & _).
        assert (Hf1 : files st1 <> []).
        { intros N. rewrite N in Hlen1. destruct (files st); [|discriminate].
          contradiction. }
        apply (IH false to_read1 st1 o st' Hok1 (Hst1 _ eq_refl) Hf1
                  ltac:(lia) Hlog1).
      * destruct (Hfatal1 e eq_refl) as (-> & Efs & Hstretch).
        split; [assumption|]. split.
        { rewrite Efs. apply prefix_of_ok. assumption. }
        split; [discriminate|].
        intros e' [= <-]. split; [reflexivity | exact Hstretch].
Qed.

Lemma steady_new_piece st l :
  steady B st ->
  steady B
    {| double_buff := double_buff st; data_start := data_start st;
       data_end := data_end st; bytes_available := bytes_available st;
       bytes_not_read := bytes_not_read st; input_rest := input_rest st;
       files := [] :: files st; log := l |}.
Proof. intros St. exact St. Qed.

(** The loop over the pieces, whatever its outcome. *)
Lemma pieces_loop_trace rounds :
  forall piece_num st o st',
    engine_ok B input st ->
    steady B st ->
    Forall call_bounds (log st) ->
    pieces_loop opts rounds piece_num st = (o, st') ->
    Forall call_bounds (log st')
    /\ (exists suffix, concat (rev (files st')) ++ suffix = input)
    /\ (forall n, o = Fatal (CouldNotProducePieces n) ->
          concat (rev (files st')) = input)
    /\ (o = Fatal NoItemBound ->
        exists c n, B <= n /\ no_start_inside input c n).
Proof.
  induction rounds as [|rounds IH]; intros k st o st' Hok St Hlog.
  - cbn [pieces_loop]. intros [= <- <-].
    split; [assumption|]. split; [apply prefix_of_ok; assumption|].
    split; [intros n [=] | intros [=]].
  - cbn [pieces_loop].
    destruct (k <? num_pieces opts) eqn:Ek; bool_to_prop.
    2:{ intros [= <- <-].
        split; [assumption|]. split; [apply prefix_of_ok; assumption|].
        split; [intros n [=] | intros [=]]. }
    set (to_read := piece_target opts (bytes_available st) k).
    assert (Hba : 0 <= bytes_available st).
    { destruct Hok as [_ _ _ Ho Hn Ha _]. lia. }
    assert (Htr : 0 <= to_read)
      by (apply (piece_target_nonneg opts); lia).
    destruct (to_read =? 0) eqn:E0; bool_to_prop.
    + intros [= <- <-]. fields.
      split; [constructor; [exact I | assumption]|].
      split; [apply prefix_of_ok; assumption|].
      split; [|intros [=]].
      intros n _.
      assert (Hz : bytes_available st <= 0).
      { pose proof (piece_target_ceiling opts (bytes_available st) k 0
                      Hba ltac:(lia)) as [T _].
        fold to_read in T. specialize (T ltac:(lia)). lia. }
      destruct Hok as [_ _ _ Ho Hn Ha Hb].
      assert (Hrest : input_rest st = [])
        by (apply length_zero_iff_nil; lia).
      rewrite Hrest, slice_nil, !app_nil_r in Hb by lia. exact Hb.
    + set (st1 := {| double_buff := double_buff st;
                     data_start := data_start st;
                     data_end := data_end st;
                     bytes_available := bytes_available st;
                     bytes_not_read := bytes_not_read st;
                     input_rest := input_rest st;
                     files := [] :: files st;
                     log := PieceTarget k to_read :: log st |}).
      assert (Hok1 : engine_ok B input st1)
        by (apply engine_ok_new_piece; assumption).
      assert (St1 : steady B st1) by (apply steady_new_piece; assumption).
      assert (Hf1 : files st1 <> []) by discriminate.
      assert (Hlog1 : Forall call_bounds (log st1))
        by (constructor; [exact I | assumption]).
      destruct (transfer_loop opts (Z.to_nat to_read) k true to_read st1)
        as [o2 st2] eqn:L.
      destruct (transfer_loop_trace k _ _ _ _ _ _ Hok1 St1 Hf1 Htr Hlog1 L)
        as (T1 & T2 & T3 & T4).
      destruct o2 as [[]|e|].
      * destruct (T3 eq_refl) as [Hok2 St2].
        intros R. apply (IH (k + 1) st2 o st' Hok2 St2 T1 R).
      * intros [= <- <-]. destruct (T4 e eq_refl) as [-> Hstretch].
        split; [assumption|]. split; [assumption|].
        split; [intros n [=] | intros _; exact Hstretch].
      * intros [= <- <-].
        split; [assumption|]. split; [assumption|].
        split; [intros n [=] | intros [=]].
Qed.

Lemma initial_steady : steady B (initial opts input).
Proof. intros _. left. reflexivity. Qed.

Lemma split_source_trace :
  Forall call_bounds (log (snd (split_SplitSource opts input)))
  /\ (exists suffix,
        concat (pieces_of (split_SplitSource opts input)) ++ suffix = input)
  /\ (forall n, fst (split_SplitSource opts input)
                = Fatal (CouldNotProducePieces n) ->
        concat (pieces_of (split_SplitSource opts input)) = input)
  /\ (fst (split_SplitSource opts input) = Fatal NoItemBound ->
      exists c n, B <= n /\ no_start_inside input c n).
Proof.
  unfold pieces_of.
  destruct (split_SplitSource opts input) as [o st'] eqn:R.
  cbn [fst snd]. unfold split_SplitSource in R.
  apply (pieces_loop_trace _ 0 (initial opts input) o st'
           (initial_ok opts input chunk_size_nonneg) initial_steady
           (Forall_nil _) R).
Qed.

End Traces.

(** X14. At every call of the decision layer in a run, the active data
    lie in the buffer where [SPLIT_ASSERT( data_end >= buff_size - 1)] and
    [SPLIT_ASSERT( data_start <= buff_size)] want them, a byte or more is
    asked for, and while input is left a chunk or more is active, which is
    [SPLIT_ASSERT( active_data_size >= buff_size)]. *)
Theorem calls_within_buffer :
  forall opts input b s e p fb eoi lp,
    0 <= buffer_size opts ->
    In (CalcCall b s e p fb eoi lp)
       (log (snd (split_SplitSource opts input))) ->
    0 <= s <= b /\ b - 1 <= e <= 2 * b - 1 /\ s <= e + 1 /\ 1 <= p
    /\ (eoi = false -> b <= e - s + 1).
Proof.
  intros opts input b s e p fb eoi lp HB Hin.
  destruct (split_source_trace opts input HB) as (L & _).
  rewrite Forall_forall in L. apply (L _ Hin).
Qed.

Lemma calls_within_buffer_witness :
  0 <= 0 <= 5 /\ 5 - 1 <= 9 <= 2 * 5 - 1 /\ 0 <= 9 + 1 /\ 1 <= 10
  /\ (true = false -> 5 <= 9 - 0 + 1).
Proof.
  apply (calls_within_buffer (mk_opts 2 5) three_elements 5 0 9 10 true true
           true).
  - vm_compute. discriminate.
  - vm_compute. left. reflexivity.
Defined.

(** X15. Whatever the outcome of a run, the pieces hold, in order, the
    bytes the input starts with: no byte is written twice, changed or out
    of place. *)
Theorem pieces_are_prefix :
  forall opts input,
    0 <= buffer_size opts ->
    exists suffix,
      concat (pieces_of (split_SplitSource opts input)) ++ suffix = input.
Proof.
  intros opts input HB.
  apply (split_source_trace opts input HB).
Qed.

Lemma pieces_are_prefix_witness :
  exists suffix,
    concat (pieces_of (split_SplitSource (mk_opts 2 2) long_element))
    ++ suffix = long_element.
Proof.
  apply (pieces_are_prefix (mk_opts 2 2) long_element).
  vm_compute. discriminate.
Defined.

(** X16. A run that stops because no byte is left for the next piece has
    written the whole input to the pieces it made. *)
Theorem short_of_pieces_keeps_input :
  forall opts input n,
    0 <= buffer_size opts ->
    fst (split_SplitSource opts input) = Fatal (CouldNotProducePieces n) ->
    concat (pieces_of (split_SplitSource opts input)) = input.
Proof.
  intros opts input n HB.
  apply (split_source_trace opts input HB).
Qed.

Lemma short_of_pieces_keeps_input_witness :
  concat (pieces_of (split_SplitSource (mk_opts 2 100) one_element))
  = one_element.
Proof.
  apply (short_of_pieces_keeps_input (mk_opts 2 100) one_element 1).
  - vm_compute. discriminate.
  - vm_compute. reflexivity.
Defined.

(** X17. A run stops with [SPLIT_ERROR( "No item bound found inside a
    data chunk. ...")] only when the input holds a chunk or more of bytes of
    which none after the first is a ['>']: an element as long as a chunk. *)
Theorem no_item_bound_means_long_element :
  forall opts input,
    0 <= buffer_size opts ->
    fst (split_SplitSource opts input) = Fatal NoItemBound ->
    exists c n, buffer_size opts <= n /\ no_start_inside input c n.
Proof.
  intros opts input HB.
  apply (split_source_trace opts input HB).
Qed.

Lemma no_item_bound_means_long_element_witness :
  exists c n, buffer_size (mk_opts 2 2) <= n
              /\ no_start_inside long_element c n.
Proof.
  apply (no_item_bound_means_long_element (mk_opts 2 2) long_element).
  - vm_compute. discriminate.
  - vm_compute. reflexivity.
Defined.

(** ** Whole elements *)

Lemma fasta_run_app s l1 l2 :
  fasta_run s (l1 ++ l2) = fasta_run (fasta_run s l1) l2.
Proof. apply fold_left_app. Qed.

Lemma fasta_run_malformed l : fasta_run Malformed l = Malformed.
Proof. induction l as [|x l IH]; [reflexivity | exact IH]. Qed.

Lemma fasta_run_cons s x l :
  fasta_run s (x :: l) = fasta_run (fasta_step s x) l.
Proof. reflexivity. Qed.

Lemma well_formed_prefix s l1 l2 :
  fasta_run s (l1 ++ l2) <> Malformed -> fasta_run s l1 <> Malformed.
Proof.
  rewrite fasta_run_app. intros H E. rewrite E, fasta_run_malformed in H.
  contradiction.
Qed.

(** An element start is met outside an element only. *)
Lemma start_is_outside s pre rest :
  fasta_run s (pre ++ element_start :: rest) <> Malformed ->
  fasta_run s pre = Outside.
Proof.
  rewrite fasta_run_app, fasta_run_cons. intros H.
  destruct (fasta_run s pre); cbn [fasta_step] in H;
    change (Byte.eqb element_start element_start) with true in H;
    cbv iota in H;
    try reflexivity; rewrite fasta_run_malformed in H; contradiction.
Qed.

Lemma two_newlines_weaker l : forall c c',
  c' <= c ->
  two_newlines_per_element c l = true ->
  two_newlines_per_element c' l = true.
Proof.
  induction l as [|x l IH]; intros c c' Hc; cbn [two_newlines_per_element];
    [reflexivity|].
  destruct (Byte.eqb x element_start); [tauto|].
  destruct (Byte.eqb x new_line); [|apply IH; assumption].
  intros H. apply andb_true_iff in H. destruct H as [H1 H2].
  apply Z.leb_le in H1. apply andb_true_iff. split.
  - apply Z.leb_le. lia.
  - apply (IH (c + 1)); [lia | assumption].
Qed.

Lemma two_newlines_prefix l1 l2 : forall c,
  two_newlines_per_element c (l1 ++ l2) = true ->
  two_newlines_per_element c l1 = true.
Proof.
  induction l1 as [|x l1 IH]; intros c; cbn [two_newlines_per_element app];
    [reflexivity|].
  destruct (Byte.eqb x element_start); [apply IH|].
  destruct (Byte.eqb x new_line); [|apply IH].
  intros H. apply andb_true_iff in H. destruct H as [H1 H2].
  apply andb_true_iff. split; [assumption | apply (IH _ H2)].
Qed.

(** Bytes the automaton accepts have at most two line ends per element. *)
Lemma well_formed_two_newlines l : forall s,
  fasta_run s l <> Malformed ->
  two_newlines_per_element (lines_met s) l = true.
Proof.
  induction l as [|x l IH]; intros s H; [reflexivity|].
  rewrite fasta_run_cons in H. cbn [two_newlines_per_element].
  specialize (IH (fasta_step s x) H).
  destruct s; cbn [fasta_step lines_met] in *;
    try (rewrite fasta_run_malformed in H; contradiction).
  - destruct (Byte.eqb x element_start); [exact IH|].
    rewrite fasta_run_malformed in H. contradiction.
  - destruct (Byte.eqb x element_start);
      [rewrite fasta_run_malformed in H; contradiction|].
    destruct (Byte.eqb x new_line); exact IH.
  - destruct (Byte.eqb x element_start);
      [rewrite fasta_run_malformed in H; contradiction|].
    destruct (Byte.eqb x new_line); exact IH.
Qed.

(** A window of well-formed bytes is in the format the counter of the
    locator is written for. *)
Lemma window_two_newlines pre w rest :
  whole_elements (pre ++ w ++ rest) = true ->
  two_newlines_per_element 0 w = true.
Proof.
  unfold whole_elements. intros H.
  assert (N : fasta_run Outside (pre ++ w ++ rest) <> Malformed).
  { intros E. rewrite E in H. discriminate. }
  rewrite fasta_run_app in N.
  apply well_formed_two_newlines, two_newlines_prefix in N.
  apply (two_newlines_weaker w (lines_met (fasta_run Outside pre)));
    [destruct (fasta_run Outside pre); cbn [lines_met]; lia | exact N].
Qed.

(** Bytes without an element start and without a line end. *)
Lemma run_inside_line l : forall s,
  no_element_start l = true ->
  count_new_lines l = 0 ->
  (s = InIdentifier \/ s = InSequence) ->
  fasta_run s l = s.
Proof.
  induction l as [|x l IH]; intros s F C Hs; [reflexivity|].
  cbn [no_element_start forallb] in F. apply andb_true_iff in F.
  destruct F as [Fx Fl]. apply negb_true_iff in Fx.
  cbn [count_new_lines] in C.
  assert (P : 0 <= count_new_lines l).
  { clear. induction l as [|y l IH]; cbn [count_new_lines]; [lia|].
    destruct (Byte.eqb y new_line); lia. }
  destruct (Byte.eqb x new_line) eqn:Ex; [lia|].
  rewrite fasta_run_cons.
  replace (fasta_step s x) with s
    by (destruct Hs as [-> | ->]; cbn [fasta_step]; rewrite Fx, Ex;
        reflexivity).
  apply IH; [exact Fl | lia | exact Hs].
Qed.

Lemma count_new_lines_nonneg l : 0 <= count_new_lines l.
Proof.
  induction l as [|y l IH]; cbn [count_new_lines]; [lia|].
  destruct (Byte.eqb y new_line); lia.
Qed.

Lemma lines_met_range s : 0 <= lines_met s <= 2.
Proof. destruct s; cbn [lines_met]; lia. Qed.

Lemma lines_met_outside s : lines_met s = 2 -> s = Outside.
Proof. destruct s; cbn [lines_met]; intros H; try lia; reflexivity. Qed.

(** Through bytes without an element start the automaton counts the line
    ends. *)
Lemma run_counts l : forall s,
  no_element_start l = true ->
  fasta_run s l <> Malformed ->
  lines_met (fasta_run s l) = lines_met s + count_new_lines l.
Proof.
  induction l as [|x l IH]; intros s F N; [cbn; lia|].
  cbn [no_element_start forallb] in F. apply andb_true_iff in F.
  destruct F as [Fx Fl]. apply negb_true_iff in Fx.
  rewrite fasta_run_cons in *. cbn [count_new_lines].
  specialize (IH (fasta_step s x) Fl N). rewrite IH.
  destruct s; cbn [fasta_step] in *.
  - rewrite Fx, fasta_run_malformed in N. contradiction.
  - rewrite Fx. destruct (Byte.eqb x new_line); cbn [lines_met]; lia.
  - rewrite Fx. destruct (Byte.eqb x new_line); cbn [lines_met]; lia.
  - rewrite fasta_run_malformed in N. contradiction.
Qed.

Lemma no_element_start_tail x t :
  (forall j, 1 <= j < Z.of_nat (length (x :: t)) ->
             char_at (x :: t) j <> element_start) ->
  no_element_start t = true.
Proof.
  intros H. apply forallb_forall. intros y Hy.
  destruct (In_nth t y x00 Hy) as (j & Hj & <-).
  apply negb_true_iff, byte_eqb_false.
  specialize (H (Z.of_nat (S j)) ltac:(cbn [length]; lia)).
  unfold char_at in H. rewrite Nat2Z.id in H. exact H.
Qed.

(** Bytes with two line ends and no element start after the first byte
    close an element. *)
Lemma region_closes l s :
  (forall j, 1 <= j < Z.of_nat (length l) -> char_at l j <> element_start) ->
  count_new_lines l = 2 ->
  fasta_run s l <> Malformed ->
  fasta_run s l = Outside.
Proof.
  intros F C N. destruct l as [|x t]; [discriminate|].
  pose proof (no_element_start_tail x t F) as Ft.
  destruct (Byte.eqb x element_start) eqn:Ex.
  - apply byte_dec_bl in Ex. subst x.
    cbn [count_new_lines] in C.
    change (Byte.eqb element_start new_line) with false in C.
    rewrite fasta_run_cons in *.
    destruct s; cbn [fasta_step] in *;
      change (Byte.eqb element_start element_start) with true in *;
      cbv iota in *;
      try (rewrite fasta_run_malformed in N; contradiction).
    apply lines_met_outside. rewrite (run_counts t _ Ft N).
    cbn [lines_met]. lia.
  - assert (Fl : no_element_start (x :: t) = true).
    { cbn [no_element_start forallb]. rewrite Ex. exact Ft. }
    apply lines_met_outside.
    pose proof (run_counts _ s Fl N) as E.
    pose proof (lines_met_range s). pose proof (lines_met_range
                                                  (fasta_run s (x :: t))).
    lia.
Qed.

Lemma char_incr_next c : c <= 2 -> char_incr c = c + 1.
Proof.
  intros H. unfold char_incr. destruct (Z.gtb_spec (c + 1) 127); lia.
Qed.

Section Leaves.

Variable buff : list byte.
Variables projected_bound buff_size : Z.
Variable is_first_block : bool.

Hypothesis bound_inside : 0 <= projected_bound < buff_size.
Hypothesis in_buffer : buff_size <= Z.of_nat (length buff).
Hypothesis format : two_newlines_per_element 0 (window buff buff_size) = true.

Local Abbreviation low := (low_probe projected_bound).
Local Abbreviation top := (top_probe projected_bound buff_size).

(** A pass that leaves the function: before an element start, or at the
    end of the window after two line ends that no element start follows. *)
Lemma pass_leaves i c r :
  0 <= i ->
  counted buff projected_bound buff_size i c ->
  find_bound_body buff projected_bound buff_size is_first_block i c
  = Return r ->
  (0 <= r + 1 < buff_size /\ char_at buff (r + 1) = element_start)
  \/ (r = buff_size - 1
      /\ exists a, 0 <= a < buff_size
           /\ new_lines_before buff buff_size - new_lines_before buff a = 2
           /\ forall k, a <= k < buff_size -> 1 <= k ->
                        char_at buff k <> element_start).
Proof.
  intros Hi (Hc2 & Hc & Hfree) Bd.
  destruct (left_probe_counted buff projected_bound buff_size bound_inside
              in_buffer i Hi) as (dl & Edl & Hdl & Pl & Fl).
  destruct (right_probe_counted buff projected_bound buff_size bound_inside
              in_buffer i Hi) as (dr & Edr & Hdr & Pr & Fr).
  unfold find_bound_body in Bd.
  destruct (Byte.eqb (left_symb _ _ i) element_start
            && ((i <? distance_to_l_bound projected_bound - 1)
                || negb is_first_block)) eqn:CL.
  { injection Bd as <-. left. apply andb_true_iff in CL.
    destruct CL as [CL _].
    pose proof (left_start_inside buff projected_bound i CL) as Hin.
    unfold left_symb, distance_to_l_bound in CL.
    replace (i >=? projected_bound + 1) with false in CL
      by (symmetry; rewrite Z.geb_leb; apply Z.leb_gt; lia).
    apply byte_dec_bl in CL.
    replace (projected_bound - i - 1 + 1) with (projected_bound - i) by lia.
    split; [lia | exact CL]. }
  destruct (Byte.eqb (right_symb _ _ _ i) element_start && negb (i =? 0))
    eqn:CR.
  { injection Bd as <-. left. apply andb_true_iff in CR.
    destruct CR as [CR CR0].
    pose proof (right_start_inside buff projected_bound buff_size i CR)
      as Hin.
    unfold right_symb, distance_to_u_bound in CR.
    replace (i >=? buff_size - projected_bound) with false in CR
      by (symmetry; rewrite Z.geb_leb; apply Z.leb_gt; lia).
    apply byte_dec_bl in CR. bool_to_prop.
    replace (projected_bound + i - 1 + 1) with (projected_bound + i) by lia.
    split; [lia | exact CR]. }
  right.
  assert (Free' : forall k, low (i + 1) <= k < top (i + 1) -> 1 <= k ->
                            char_at buff k <> element_start).
  { intros k Hk Hk1.
    destruct (Z.lt_ge_cases k (low i)) as [Hlow|Hlow].
    - destruct (Fl k ltac:(lia)) as (Ek & Hin & Es).
      rewrite <- Es. intros Eq. rewrite Eq in CL. cbn [Byte.eqb] in CL.
      replace (i <? distance_to_l_bound projected_bound - 1) with true in CL;
        [discriminate|].
      symmetry. apply Z.ltb_lt. unfold distance_to_l_bound. lia.
    - destruct (Z.lt_ge_cases k (top i)) as [Htop|Htop].
      + apply Hfree; lia.
      + destruct (Fr k ltac:(lia)) as (Ek & Hin & Es).
        rewrite <- Es. intros Eq. rewrite Eq in CR.
        apply andb_false_iff in CR. destruct CR as [CR|CR];
          [discriminate|bool_to_prop; lia]. }
  assert (Sum : new_lines_before buff (top (i + 1))
                - new_lines_before buff (low (i + 1)) = c + dl + dr) by lia.
  assert (Le : c + dl + dr <= 2).
  { rewrite <- Sum.
    replace (top (i + 1)) with (top (i + 1) - 1 + 1) by lia.
    apply (new_lines_between buff buff_size in_buffer format);
      unfold low_probe, top_probe in *; try lia.
    intros k Hk. apply Free'; lia. }
  cbv zeta in Bd.
  assert (E1 : (if Byte.eqb (left_symb buff projected_bound i) new_line
                then char_incr c else c) = c + dl).
  { rewrite <- Edl.
    destruct (Byte.eqb (left_symb buff projected_bound i) new_line);
      [apply char_incr_next|]; lia. }
  rewrite E1 in Bd.
  assert (E2 : (if Byte.eqb (right_symb buff projected_bound buff_size i)
                     new_line && negb (i =? 0)
                then char_incr (c + dl) else c + dl) = c + dl + dr).
  { rewrite <- Edr.
    destruct (Byte.eqb (right_symb buff projected_bound buff_size i)
                       new_line && negb (i =? 0));
      [apply char_incr_next|]; lia. }
  rewrite E2 in Bd.
  destruct ((c + dl + dr =? 2)
            && (i >=? distance_to_u_bound projected_bound buff_size - 1)
            && Byte.eqb (char_at buff (buff_size - 1)) new_line) eqn:T;
    [|discriminate].
  injection Bd as <-. unfold distance_to_u_bound in T. bool_to_prop.
  split; [reflexivity|].
  assert (Et : top (i + 1) = buff_size)
    by (unfold top_probe; lia).
  rewrite Et in *.
  exists (low (i + 1)). split; [unfold low_probe; lia|].
  split; [lia | exact Free'].
Qed.

(** What the locator returns on a window in the format. *)
Lemma find_bound_leaves :
  let r := split_FindBound buff projected_bound buff_size is_first_block in
  r = SPLIT_BOUND_NOT_FOUND
  \/ (0 <= r + 1 < buff_size /\ char_at buff (r + 1) = element_start)
  \/ (r = buff_size - 1
      /\ exists a, 0 <= a < buff_size
           /\ new_lines_before buff buff_size - new_lines_before buff a = 2
           /\ forall k, a <= k < buff_size -> 1 <= k ->
                        char_at buff k <> element_start).
Proof.
  cbv zeta. unfold split_FindBound.
  destruct (loop_returns buff projected_bound buff_size is_first_block
              (counted buff projected_bound buff_size)
              (body_keeps_count buff projected_bound buff_size
                 is_first_block bound_inside in_buffer format)
              (Z.to_nat (Z.max (distance_to_l_bound projected_bound)
                               (distance_to_u_bound projected_bound
                                                    buff_size)))
              0 0 ltac:(lia))
    as [(N & _) | (i & c & Hi & K & Bd)].
  - unfold counted, low_probe, top_probe.
    replace (Z.min buff_size (projected_bound + Z.max 0 1))
      with (projected_bound + 1) by lia.
    replace (Z.max 0 (projected_bound - 0 + 1))
      with (projected_bound + 1) by lia.
    repeat split; lia.
  - lia.
  - left. exact N.
  - right. apply (pass_leaves i c _ Hi K Bd).
Qed.

End Leaves.

Lemma whole_elements_run l :
  whole_elements l = true <-> fasta_run Outside l = Outside.
Proof.
  unfold whole_elements. destruct (fasta_run Outside l); split;
    intros H; try reflexivity; discriminate.
Qed.

Lemma firstn_length_app (l1 l2 : list byte) k :
  k = Z.of_nat (length l1) -> firstn (Z.to_nat k) (l1 ++ l2) = l1.
Proof.
  intros ->. rewrite Nat2Z.id, firstn_app, Nat.sub_diag, firstn_all.
  cbn [firstn]. apply app_nil_r.
Qed.

(** On a well-formed input the locator returns the end of an element. *)
Lemma whole_by_locator input pre w rest projected_bound is_first_block :
  whole_elements input = true ->
  input = pre ++ w ++ rest ->
  0 <= projected_bound < Z.of_nat (length w) ->
  split_FindBound w projected_bound (Z.of_nat (length w)) is_first_block
  <> SPLIT_BOUND_NOT_FOUND ->
  whole_elements
    (firstn (Z.to_nat
               (Z.of_nat (length pre)
                + split_FindBound w projected_bound (Z.of_nat (length w))
                                  is_first_block + 1)) input) = true.
Proof.
  intros W E Hp N.
  set (n := Z.of_nat (length w)) in *.
  set (r := split_FindBound w projected_bound n is_first_block) in *.
  assert (Hfmt : two_newlines_per_element 0 (window w n) = true).
  { unfold window, n. rewrite Nat2Z.id, firstn_all.
    apply (window_two_newlines pre w rest). rewrite <- E. exact W. }
  assert (NM : fasta_run Outside input <> Malformed).
  { apply whole_elements_run in W. rewrite W. discriminate. }
  destruct (find_bound_leaves w projected_bound n is_first_block Hp
              ltac:(lia) Hfmt)
    as [F | [(Hr & C) | (Er & a & Ha & Cnt & Free)]];
    cbv zeta in *; try fold r in F; try fold r in Hr; try fold r in C;
    try fold r in Er.
  - contradiction.
  - (* before an element start *)
    set (m := Z.to_nat (r + 1)).
    assert (Ew : w = firstn m w ++ element_start :: skipn (S m) w).
    { rewrite <- (firstn_skipn m w) at 1. f_equal.
      rewrite (skipn_nth_cons w m) by lia. f_equal.
      unfold char_at in C. exact C. }
    apply whole_elements_run.
    replace (firstn (Z.to_nat (Z.of_nat (length pre) + r + 1)) input)
      with (pre ++ firstn m w).
    + apply (start_is_outside Outside (pre ++ firstn m w)
               (skipn (S m) w ++ rest)).
      rewrite <- app_assoc. cbn [app].
      replace (pre ++ firstn m w ++ element_start :: skipn (S m) w ++ rest)
        with input; [exact NM|].
      rewrite E. rewrite Ew at 1. rewrite <- app_assoc. reflexivity.
    + symmetry. rewrite E. rewrite Ew at 1. rewrite <- app_assoc, app_assoc.
      apply firstn_length_app.
      rewrite length_app, length_firstn. lia.
  - (* at the end of the window, after two line ends *)
    apply whole_elements_run.
    replace (firstn (Z.to_nat (Z.of_nat (length pre) + r + 1)) input)
      with (pre ++ w).
    2:{ symmetry. rewrite E, app_assoc. apply firstn_length_app.
        rewrite length_app. lia. }
    rewrite <- (firstn_skipn (Z.to_nat a) w), app_assoc, fasta_run_app.
    apply region_closes.
    + intros j Hj. rewrite length_skipn in Hj.
      rewrite char_at_skipn by lia. apply Free; lia.
    + unfold new_lines_before in Cnt.
      unfold n in Cnt at 1. rewrite Nat2Z.id, firstn_all in Cnt.
      rewrite <- (firstn_skipn (Z.to_nat a) w) in Cnt at 1.
      rewrite count_new_lines_app in Cnt. lia.
    + rewrite <- fasta_run_app, <- app_assoc, firstn_skipn.
      apply (well_formed_prefix Outside (pre ++ w) rest).
      rewrite <- app_assoc, <- E. exact NM.
Qed.

Lemma whole_concat ps :
  Forall (fun p => whole_elements p = true) ps ->
  fasta_run Outside (concat ps) = Outside.
Proof.
  induction 1 as [|p ps Hp _ IH]; [reflexivity|].
  cbn [concat]. rewrite fasta_run_app.
  apply whole_elements_run in Hp. rewrite Hp. exact IH.
Qed.

(** Pieces that end where elements end hold whole elements. *)
Lemma whole_pieces input : forall ps suffix,
  concat ps ++ suffix = input ->
  (forall before p after,
     ps = before ++ p :: after ->
     whole_elements
       (firstn (Z.to_nat (Z.of_nat (length (concat before))
                          + Z.of_nat (length p))) input) = true) ->
  Forall (fun p => whole_elements p = true) ps.
Proof.
  induction ps as [|p ps IH] using rev_ind; intros suffix E H;
    [constructor|].
  rewrite concat_app in E. cbn [concat] in E.
  rewrite app_nil_r, <- !app_assoc in E.
  assert (Hps : Forall (fun p => whole_elements p = true) ps).
  { apply (IH (p ++ suffix) E).
    intros before q after Eq. apply (H before q (after ++ [p])).
    rewrite Eq, <- app_assoc. reflexivity. }
  apply Forall_app. split; [exact Hps|]. constructor; [|constructor].
  specialize (H ps p [] eq_refl).
  replace (firstn _ input) with (concat ps ++ p) in H.
  - apply whole_elements_run. apply whole_elements_run in H.
    rewrite fasta_run_app, (whole_concat ps Hps) in H. exact H.
  - symmetry. rewrite <- E, app_assoc. apply firstn_length_app.
    rewrite length_app. lia.
Qed.

(** The pieces of a run that ends, on an input of whole elements. *)
Lemma run_pieces_whole opts input st' :
  1 <= buffer_size opts ->
  whole_elements input = true ->
  split_SplitSource opts input = (Done tt, st') ->
  Forall (fun p => whole_elements p = true) (rev (files st'))
  /\ Forall (fun p => p <> []) (rev (files st'))
  /\ (1 <= num_pieces opts ->
      concat (rev (files st')) = input
      /\ Z.of_nat (length (rev (files st'))) = num_pieces opts).
Proof.
  intros HB W R.
  assert (HB0 : 0 <= buffer_size opts) by lia.
  destruct (split_source_detail opts input
              (fun c => whole_elements (firstn (Z.to_nat c) input) = true)
              HB) with (st' := st') as [H T].
  - rewrite Nat2Z.id, firstn_all. exact W.
  - intros pre w rest pb fb. apply whole_by_locator. exact W.
  - exact R.
  - split; [|split].
    + destruct (split_source_trace opts input HB0)
        as (_ & [suffix P] & _).
      rewrite R in P. unfold pieces_of in P. cbn [snd] in P.
      apply (whole_pieces input _ suffix P).
      intros before p after E.
      apply (cuts_good_pieces _ _ H before p after). exact E.
    + apply Forall_rev. clear -T.
      induction T as [|t p ts ps Hp _ IH]; constructor; [|exact IH].
      intros ->. cbn [length] in Hp. lia.
    + intros HP.
      destruct (split_source_spec opts input HB0 _ _ R)
        as (_ & _ & _ & _ & D).
      apply (D eq_refl HB HP).
Qed.

(** X18. On an input of whole elements, each [">IDENTIFIER\n"]
    ["SEQUENCE\n"], with chunks of a byte or more, every piece of a run
    that ends holds whole elements. *)
Theorem pieces_hold_whole_elements :
  forall opts input st',
    1 <= buffer_size opts ->
    whole_elements input = true ->
    split_SplitSource opts input = (Done tt, st') ->
    Forall (fun p => whole_elements p = true) (pieces_of (Done tt, st')).
Proof.
  intros opts input st' HB W R.
  apply (run_pieces_whole opts input st' HB W R).
Qed.

Lemma pieces_hold_whole_elements_witness :
  Forall (fun p => whole_elements p = true)
         (pieces_of (Done tt, snd (split_SplitSource (mk_opts 2 5)
                                                     three_elements))).
Proof.
  apply (pieces_hold_whole_elements (mk_opts 2 5) three_elements).
  - vm_compute. discriminate.
  - vm_compute. reflexivity.
  - vm_compute. reflexivity.
Defined.

Lemma count_element_starts_app l1 l2 :
  count_element_starts (l1 ++ l2)
  = count_element_starts l1 + count_element_starts l2.
Proof.
  induction l1 as [|x l1 IH]; cbn [count_element_starts app]; [reflexivity|].
  rewrite IH. lia.
Qed.

Lemma count_element_starts_nonneg l : 0 <= count_element_starts l.
Proof.
  induction l as [|x l IH]; cbn [count_element_starts]; [lia|].
  destruct (Byte.eqb x element_start); lia.
Qed.

(** Whole elements that are not empty start with an element start. *)
Lemma whole_has_start p :
  whole_elements p = true -> p <> [] -> 1 <= count_element_starts p.
Proof.
  intros W N. destruct p as [|x t]; [contradiction|].
  apply whole_elements_run in W. rewrite fasta_run_cons in W.
  cbn [fasta_step count_element_starts] in *.
  pose proof (count_element_starts_nonneg t).
  destruct (Byte.eqb x element_start); [lia|].
  rewrite fasta_run_malformed in W. discriminate.
Qed.

Lemma pieces_count_starts ps :
  Forall (fun p => whole_elements p = true) ps ->
  Forall (fun p => p <> []) ps ->
  Z.of_nat (length ps) <= count_element_starts (concat ps).
Proof.
  induction 1 as [|p ps Hp _ IH]; intros N; [cbn; lia|].
  inversion N as [|p' ps' Np Nps]; subst.
  cbn [length concat]. rewrite count_element_starts_app.
  pose proof (whole_has_start p Hp Np). specialize (IH Nps). lia.
Qed.

(** X19. On an input of whole elements, with chunks of a byte or more,
    a run ends only when the input has as many elements as pieces are asked
    for: every piece holds one element or more. *)
Theorem pieces_at_most_elements :
  forall opts input st',
    1 <= buffer_size opts ->
    whole_elements input = true ->
    split_SplitSource opts input = (Done tt, st') ->
    num_pieces opts <= count_element_starts input.
Proof.
  intros opts input st' HB W R.
  destruct (run_pieces_whole opts input st' HB W R) as (Hw & Hn & Hall).
  destruct (Z.le_gt_cases 1 (num_pieces opts)) as [HP|HP].
  - destruct (Hall HP) as [Ec El].
    rewrite <- El, <- Ec. apply pieces_count_starts; assumption.
  - pose proof (count_element_starts_nonneg input). lia.
Qed.

Lemma pieces_at_most_elements_witness :
  num_pieces (mk_opts 2 5) <= count_element_starts three_elements.
Proof.
  apply (pieces_at_most_elements (mk_opts 2 5) three_elements
           (snd (split_SplitSource (mk_opts 2 5) three_elements))).
  - vm_compute. discriminate.
  - vm_compute. reflexivity.
  - vm_compute. reflexivity.
Defined.

(** X20. On a window of an input of whole elements, a bound the locator
    returns is the last byte of an element. *)
Theorem find_bound_returns_element_end :
  forall pre w rest projected_bound is_first_block,
    whole_elements (pre ++ w ++ rest) = true ->
    0 <= projected_bound < Z.of_nat (length w) ->
    split_FindBound w projected_bound (Z.of_nat (length w)) is_first_block
    <> SPLIT_BOUND_NOT_FOUND ->
    whole_elements
      (pre ++ firstn (Z.to_nat
                        (split_FindBound w projected_bound
                           (Z.of_nat (length w)) is_first_block + 1)) w)
    = true.
Proof.
  intros pre w rest pb fb W Hp N.
  pose proof (whole_by_locator (pre ++ w ++ rest) pre w rest pb fb W eq_refl
                Hp N) as H.
  pose proof (find_bound_range w pb (Z.of_nat (length w)) fb Hp) as [R _].
  cbv zeta in R. destruct R as [R|R]; [contradiction|].
  set (r := split_FindBound w pb (Z.of_nat (length w)) fb) in *.
  replace (firstn (Z.to_nat (Z.of_nat (length pre) + r + 1))
                  (pre ++ w ++ rest))
    with (pre ++ firstn (Z.to_nat (r + 1)) w) in H; [exact H|].
  symmetry. rewrite firstn_app, (firstn_all2 pre) by lia. f_equal.
  rewrite firstn_app.
  replace (Z.to_nat (Z.of_nat (length pre) + r + 1) - length pre)%nat
    with (Z.to_nat (r + 1)) by lia.
  replace (Z.to_nat (r + 1) - length w)%nat with O by lia.
  cbn [firstn]. rewrite app_nil_r. reflexivity.
Qed.

Lemma find_bound_returns_element_end_witness :
  whole_elements
    ([] ++ firstn (Z.to_nat (split_FindBound two_elements 5
                               (Z.of_nat (length two_elements)) true + 1))
                  two_elements) = true.
Proof.
  apply (find_bound_returns_element_end [] two_elements [] 5 true).
  - vm_compute. reflexivity.
  - vm_compute. split; [discriminate | reflexivity].
  - vm_compute. discriminate.
Defined.

(** ** An empty input, a chunk size of 0 *)

(** X21. An empty input gives no piece, whatever the chunk size and
    whatever the system answers: the run leaves before the loop over the
    pieces, when the input file cannot be opened or sought or the buffer
    cannot be allocated, or it stops at piece 0, which no byte is left
    for; no output file is made. *)
Theorem empty_input_makes_no_piece :
  forall sys opts,
    1 <= num_pieces opts ->
    OnSystem.pieces_of (OnSystem.split_SplitSource sys opts []) = []
    /\ (fst (OnSystem.split_SplitSource sys opts [])
        = Ended (Fatal (CouldNotProducePieces 0))
        \/ (fst (OnSystem.split_SplitSource sys opts [])
            = Failed CannotOpenInput /\ open_input sys = false)
        \/ (fst (OnSystem.split_SplitSource sys opts [])
            = Failed CannotSeekInput
            /\ (seek_end sys = false \/ seek_start sys = false))
        \/ (fst (OnSystem.split_SplitSource sys opts [])
            = Failed (CannotAllocateBuffer (2 * buffer_size opts))
            /\ allocate_buffer sys (2 * buffer_size opts) = false))
    /\ (open_input sys = true ->
        seek_end sys = true -> seek_start sys = true ->
        allocate_buffer sys (2 * buffer_size opts) = true ->
        fst (OnSystem.split_SplitSource sys opts [])
        = Ended (Fatal (CouldNotProducePieces 0))).
Proof.
  intros sys opts H.
  unfold OnSystem.split_SplitSource, OnSystem.pieces_of,
    OnSystem.split_GetInputSize.
  destruct (open_input sys); cbn [negb];
    [|split; [reflexivity|]; split; [|discriminate];
      right; left; split; reflexivity].
  destruct (seek_end sys); cbn [negb];
    [|split; [reflexivity|]; split; [|discriminate];
      right; right; left; split; [reflexivity | left; reflexivity]].
  destruct (seek_start sys); cbn [negb];
    [|split; [reflexivity|]; split; [|discriminate];
      right; right; left; split; [reflexivity | right; reflexivity]].
  destruct (allocate_buffer sys (2 * buffer_size opts)); cbn [negb];
    [|split; [reflexivity|]; split; [|discriminate];
      right; right; right; split; reflexivity].
  destruct (Z.to_nat (num_pieces opts)) as [|rounds] eqn:E; [lia|].
  cbn [OnSystem.pieces_loop state initial bytes_available length Z.of_nat].
  replace (0 <? num_pieces opts) with true
    by (symmetry; apply Z.ltb_lt; lia).
  unfold piece_target. rewrite Z.sub_0_r, Z.quot_0_l, Z.rem_0_l by lia.
  cbn. split; [reflexivity|]. split; [left; reflexivity|].
  intros _ _ _ _. reflexivity.
Qed.

Lemma empty_input_makes_no_piece_witness :
  OnSystem.pieces_of (OnSystem.split_SplitSource obliging (mk_opts 2 5) [])
  = []
  /\ (fst (OnSystem.split_SplitSource obliging (mk_opts 2 5) [])
      = Ended (Fatal (CouldNotProducePieces 0))
      \/ (fst (OnSystem.split_SplitSource obliging (mk_opts 2 5) [])
          = Failed CannotOpenInput /\ open_input obliging = false)
      \/ (fst (OnSystem.split_SplitSource obliging (mk_opts 2 5) [])
          = Failed CannotSeekInput
          /\ (seek_end obliging = false \/ seek_start obliging = false))
      \/ (fst (OnSystem.split_SplitSource obliging (mk_opts 2 5) [])
          = Failed (CannotAllocateBuffer (2 * buffer_size (mk_opts 2 5)))
          /\ allocate_buffer obliging (2 * buffer_size (mk_opts 2 5))
             = false))
  /\ (open_input obliging = true ->
      seek_end obliging = true -> seek_start obliging = true ->
      allocate_buffer obliging (2 * buffer_size (mk_opts 2 5)) = true ->
      fst (OnSystem.split_SplitSource obliging (mk_opts 2 5) [])
      = Ended (Fatal (CouldNotProducePieces 0))).
Proof.
  apply (empty_input_makes_no_piece obliging (mk_opts 2 5)).
  vm_compute. discriminate.
Defined.

Section ChunkSizeZero.

Variable opts : split_Opts_t.
Variable input : list byte.

Hypothesis chunk_size_zero : buffer_size opts = 0.
Hypothesis input_not_empty : input <> [].

Lemma input_length_positive : 1 <= Z.of_nat (length input).
Proof. destruct input; [contradiction | cbn [length]; lia]. Qed.

(** A pass reads no byte, writes no byte and ends the piece. *)
Lemma idle_step piece_num is_first_block to_read st :
  idle input st ->
  1 <= to_read ->
  exists st',
    transfer_step opts piece_num is_first_block to_read st = (Done 0, st')
    /\ idle input st'
    /\ files st' = write_newest (files st) (newest (files st)).
Proof.
  intros (Hb & Hs & He & Ha & Hn & Hr) Htr.
  pose proof input_length_positive as Hl.
  unfold transfer_step, refill, split_FillUpperBuffHalfFromInput.
  rewrite chunk_size_zero, Hb, Hs, He, Hn, Hr.
  decide_tests.
  change (Z.to_nat 0) with O. cbn [firstn skipn length Z.of_nat].
  cbn [Z.eqb negb]. fields.
  unfold split_CalcUpperBoundOfOutputTransfer, calc_upper_bound_with.
  decide_tests.
  unfold split_WriteOutput, slice.
  replace (0 + 0 - 1 - 0 + 1) with 0 by lia.
  change (Z.to_nat 0) with O. cbn [firstn skipn length Z.of_nat].
  cbn [Z.eqb negb]. rewrite app_nil_r.
  unfold slide. rewrite chunk_size_zero.
  decide_tests. cbn [andb]. decide_tests.
  eexists. split; [reflexivity|]. fields.
  split; [|reflexivity].
  unfold idle. fields. unfold store. cbn [firstn skipn app length].
  repeat split; try lia; try assumption.
Qed.

Lemma idle_loop piece_num is_first_block to_read fuel st :
  idle input st ->
  1 <= to_read ->
  exists st',
    transfer_loop opts (S fuel) piece_num is_first_block to_read st
    = (Done tt, st')
    /\ idle input st'
    /\ files st' = write_newest (files st) (newest (files st)).
Proof.
  intros Hi Htr. cbn [transfer_loop].
  replace (to_read =? 0) with false by (symmetry; apply Z.eqb_neq; lia).
  destruct (idle_step piece_num is_first_block to_read st Hi Htr)
    as (st' & E & Hi' & Hf).
  rewrite E. exists st'.
  destruct fuel; cbn [transfer_loop Z.eqb];
    (split; [reflexivity | split; assumption]).
Qed.

Lemma idle_pieces rounds : forall piece_num st,
  idle input st ->
  Z.of_nat rounds = Z.max 0 (num_pieces opts - piece_num) ->
  exists st',
    pieces_loop opts rounds piece_num st = (Done tt, st')
    /\ files st' = repeat [] rounds ++ files st.
Proof.
  induction rounds as [|rounds IH]; intros k st Hi Hr.
  - exists st. split; reflexivity.
  - cbn [pieces_loop].
    replace (k <? num_pieces opts) with true
      by (symmetry; apply Z.ltb_lt; lia).
    pose proof input_length_positive as Hl.
    destruct Hi as (Hb & Hs & He & Ha & Hn & Hrest).
    set (to_read := piece_target opts (bytes_available st) k).
    assert (Htr : 1 <= to_read).
    { pose proof (piece_target_ceiling opts (bytes_available st) k 0
                    ltac:(lia) ltac:(lia)) as [T _].
      fold to_read in T.
      destruct (Z.le_gt_cases to_read 0) as [Le|Gt]; [|lia].
      specialize (T Le). lia. }
    replace (to_read =? 0) with false by (symmetry; apply Z.eqb_neq; lia).
    set (st1 := {| double_buff := double_buff st;
                   data_start := data_start st;
                   data_end := data_end st;
                   bytes_available := bytes_available st;
                   bytes_not_read := bytes_not_read st;
                   input_rest := input_rest st;
                   files := [] :: files st;
                   log := PieceTarget k to_read :: log st |}).
    assert (Hi1 : idle input st1) by (repeat split; assumption).
    assert (Ef : Z.to_nat to_read = S (Z.to_nat to_read - 1)) by lia.
    rewrite Ef.
    destruct (idle_loop k true to_read (Z.to_nat to_read - 1) st1 Hi1 Htr)
      as (st2 & E & Hi2 & Hf2).
    rewrite E.
    destruct (IH (k + 1) st2 Hi2 ltac:(lia)) as (st' & E' & Hf').
    exists st'. split; [exact E'|].
    rewrite Hf', Hf2. cbn [st1 files newest write_newest].
    change (repeat [] rounds ++ [] :: files st)
      with (repeat (@nil byte) rounds ++ [[]] ++ files st).
    rewrite app_assoc. f_equal.
    change [[]] with (repeat (@nil byte) 1).
    rewrite <- repeat_app. f_equal. lia.
Qed.

End ChunkSizeZero.

(** X22. With a chunk size of 0, which [--cs 0] gives, a run on an
    input that is not empty ends without an error and every piece it makes
    is empty. *)
Theorem chunk_size_zero_makes_empty_pieces :
  forall opts input,
    buffer_size opts = 0 ->
    input <> [] ->
    fst (split_SplitSource opts input) = Done tt
    /\ pieces_of (split_SplitSource opts input)
       = repeat [] (Z.to_nat (num_pieces opts)).
Proof.
  intros opts input HB Hne. unfold split_SplitSource, pieces_of.
  destruct (idle_pieces opts input HB Hne (Z.to_nat (num_pieces opts)) 0
              (initial opts input)) as (st' & E & Hf).
  - unfold idle, initial. rewrite HB. cbn. repeat split; reflexivity.
  - lia.
  - rewrite E. cbn [fst snd]. split; [reflexivity|].
    rewrite Hf. cbn [initial files]. rewrite app_nil_r.
    clear. induction (Z.to_nat (num_pieces opts)) as [|n IH];
      [reflexivity|].
    cbn [repeat rev]. rewrite IH. symmetry. apply repeat_cons.
Qed.

Lemma chunk_size_zero_makes_empty_pieces_witness :
  fst (split_SplitSource (mk_opts 3 0) one_element) = Done tt
  /\ pieces_of (split_SplitSource (mk_opts 3 0) one_element)
     = repeat [] (Z.to_nat (num_pieces (mk_opts 3 0))).
Proof.
  apply (chunk_size_zero_makes_empty_pieces (mk_opts 3 0) one_element).
  - reflexivity.
  - discriminate.
Defined.

(** ** The helpers of split.cpp *)

Lemma calc_num_width_loop_digits fuel : forall num num_digits,
  0 <= num <= Z.of_nat fuel ->
  exists k,
    calc_num_width_loop fuel num num_digits = Some (num_digits + k)
    /\ 0 <= k
    /\ (num = 0 -> k = 0)
    /\ (0 < num -> 10 ^ (k - 1) <= num < 10 ^ k).
Proof.
  induction fuel as [|fuel IH]; intros num d H.
  - assert (num = 0) by lia. subst num. exists 0. cbn [calc_num_width_loop].
    rewrite Z.add_0_r. repeat split; lia.
  - cbn [calc_num_width_loop].
    destruct (Z.eqb_spec num 0) as [->|N].
    + exists 0. rewrite Z.add_0_r. repeat split; lia.
    + assert (Q : 0 <= Z.quot num 10 < num).
      { rewrite Z.quot_div_nonneg by lia.
        pose proof (Z.div_mod num 10 ltac:(lia)).
        pose proof (Z.mod_pos_bound num 10 ltac:(lia)). lia. }
      destruct (IH (Z.quot num 10) (d + 1) ltac:(lia))
        as (k & E & Hk & Hz & Hp).
      exists (k + 1). rewrite E. split; [f_equal; lia|].
      split; [lia|]. split; [lia|]. intros _.
      replace (k + 1 - 1) with k by lia.
      assert (P1 : 10 ^ (k + 1) = 10 * 10 ^ k)
        by (rewrite <- Z.pow_succ_r; [f_equal|]; lia).
      rewrite P1.
      pose proof (Z.div_mod num 10 ltac:(lia)) as D.
      pose proof (Z.mod_pos_bound num 10 ltac:(lia)) as M.
      rewrite Z.quot_div_nonneg in * by lia.
      destruct (Z.eq_dec (num / 10) 0) as [Z0|NZ].
      * rewrite (Hz Z0). cbn. lia.
      * specialize (Hp ltac:(lia)).
        assert (1 <= k).
        { destruct (Z.eq_dec k 0) as [->|]; [cbn in Hp|]; lia. }
        assert (P0 : 10 ^ k = 10 * 10 ^ (k - 1))
          by (rewrite <- Z.pow_succ_r; [f_equal|]; lia).
        rewrite P0 in *. lia.
Qed.

(** X23. For two pieces or more [split_CalcNumWidth] returns the number
    of decimal digits of the largest piece number, [num - 1]. *)
Theorem calc_num_width_digits :
  forall num,
    2 <= num ->
    exists w,
      split_CalcNumWidth num = Some w
      /\ 1 <= w
      /\ 10 ^ (w - 1) <= num - 1 < 10 ^ w.
Proof.
  intros num H. unfold split_CalcNumWidth.
  destruct (calc_num_width_loop_digits (Z.to_nat (Z.abs (num - 1)))
              (num - 1) 0 ltac:(lia)) as (k & E & Hk & _ & Hp).
  exists k. rewrite E. specialize (Hp ltac:(lia)).
  split; [reflexivity|]. split; [|exact Hp].
  destruct (Z.eq_dec k 0) as [->|]; [cbn in Hp|]; lia.
Qed.

Lemma calc_num_width_digits_witness :
  exists w,
    split_CalcNumWidth 100 = Some w /\ 1 <= w
    /\ 10 ^ (w - 1) <= 100 - 1 < 10 ^ w.
Proof.
  apply (calc_num_width_digits 100). lia.
Defined.

Lemma digit_char_value d :
  0 <= d <= 9 -> char_value (digit_char d) - 48 = d.
Proof.
  intros H.
  assert (C : d = 0 \/ d = 1 \/ d = 2 \/ d = 3 \/ d = 4 \/ d = 5 \/ d = 6
              \/ d = 7 \/ d = 8 \/ d = 9) by lia.
  repeat (destruct C as [->|C]; [reflexivity|]). subst d. reflexivity.
Qed.

(** Reading the digits written gives the number back. *)
Lemma decimal_digits_value fuel : forall n acc,
  0 <= n <= Z.of_nat fuel ->
  fold_left (fun a x => 10 * a + (char_value x - 48))
            (decimal_digits fuel n acc) 0
  = fold_left (fun a x => 10 * a + (char_value x - 48)) acc n.
Proof.
  induction fuel as [|fuel IH]; intros n acc H.
  - assert (n = 0) by lia. subst n. reflexivity.
  - cbn [decimal_digits].
    destruct (Z.eqb_spec n 0) as [->|N]; [reflexivity|].
    rewrite Z.quot_div_nonneg, Z.rem_mod_nonneg by lia.
    pose proof (Z.div_mod n 10 ltac:(lia)) as D.
    pose proof (Z.mod_pos_bound n 10 ltac:(lia)) as M.
    rewrite IH by lia. cbn [fold_left].
    rewrite digit_char_value by lia. f_equal. lia.
Qed.

Lemma decimal_zeros m s : decimal (repeat x30 m ++ s) = decimal s.
Proof.
  unfold decimal. rewrite fold_left_app. f_equal.
  induction m as [|m IH]; [reflexivity|]. cbn [repeat fold_left].
  exact IH.
Qed.

Lemma decimal_print_0ld width n :
  0 <= n -> decimal (print_0ld width n) = n.
Proof.
  intros H. unfold print_0ld. rewrite decimal_zeros. unfold print_ld.
  destruct (Z.eqb_spec n 0) as [->|N]; [reflexivity|].
  unfold decimal. rewrite decimal_digits_value by lia. reflexivity.
Qed.

(** The loop that writes the digits makes the passes of the loop of
    [split_CalcNumWidth]. *)
Lemma decimal_digits_length fuel : forall n acc num_digits,
  0 <= n <= Z.of_nat fuel ->
  calc_num_width_loop fuel n num_digits
  = Some (num_digits + Z.of_nat (length (decimal_digits fuel n acc))
          - Z.of_nat (length acc)).
Proof.
  induction fuel as [|fuel IH]; intros n acc d H.
  - assert (n = 0) by lia. subst n. cbn. f_equal. lia.
  - cbn [decimal_digits calc_num_width_loop].
    destruct (Z.eqb_spec n 0) as [->|N]; [f_equal; lia|].
    assert (Q : 0 <= Z.quot n 10 < n).
    { rewrite Z.quot_div_nonneg by lia.
      pose proof (Z.div_mod n 10 ltac:(lia)).
      pose proof (Z.mod_pos_bound n 10 ltac:(lia)). lia. }
    rewrite (IH _ (digit_char (Z.rem n 10) :: acc)) by lia.
    cbn [length]. f_equal. lia.
Qed.

Lemma print_ld_length n width :
  0 <= n < 10 ^ width -> 1 <= width ->
  Z.of_nat (length (print_ld n)) <= width.
Proof.
  intros H Hw. unfold print_ld.
  destruct (Z.eqb_spec n 0) as [->|N]; [cbn [length]; lia|].
  destruct (calc_num_width_loop_digits (Z.to_nat n) n 0 ltac:(lia))
    as (k & E & Hk & _ & Hp).
  rewrite (decimal_digits_length (Z.to_nat n) n [] 0) in E by lia.
  injection E as E. cbn [length] in E.
  specialize (Hp ltac:(lia)).
  assert (k - 1 < width); [|lia].
  apply (Z.pow_lt_mono_r_iff 10); lia.
Qed.

Lemma print_0ld_length n width :
  0 <= n < 10 ^ width -> 1 <= width ->
  Z.of_nat (length (print_0ld width n)) = width.
Proof.
  intros H Hw. pose proof (print_ld_length n width H Hw) as L.
  unfold print_0ld. rewrite length_app, repeat_length. lia.
Qed.

(** X24. The names of the pieces of a run have the same length and
    differ: the number of every piece is written with as many digits as
    the largest has. *)
Theorem piece_names_differ :
  forall dir_name file_name num_pieces num_digits k1 k2,
    2 <= num_pieces ->
    split_CalcNumWidth num_pieces = Some num_digits ->
    0 <= k1 < num_pieces ->
    0 <= k2 < num_pieces ->
    length (piece_name dir_name file_name num_digits k1)
    = length (piece_name dir_name file_name num_digits k2)
    /\ Z.of_nat (length (print_0ld num_digits k1)) = num_digits
    /\ (piece_name dir_name file_name num_digits k1
        = piece_name dir_name file_name num_digits k2 -> k1 = k2).
Proof.
  intros dir file num w k1 k2 Hn Hw H1 H2.
  unfold split_CalcNumWidth in Hw.
  destruct (calc_num_width_loop_digits (Z.to_nat (Z.abs (num - 1)))
              (num - 1) 0 ltac:(lia)) as (w' & E & Hk & _ & Hp).
  rewrite Hw in E. injection E as E. cbn in E. subst w'.
  specialize (Hp ltac:(lia)).
  assert (Hw1 : 1 <= w).
  { destruct (Z.eq_dec w 0) as [->|]; [cbn in Hp|]; lia. }
  assert (L1 : Z.of_nat (length (print_0ld w k1)) = w)
    by (apply print_0ld_length; lia).
  assert (L2 : Z.of_nat (length (print_0ld w k2)) = w)
    by (apply print_0ld_length; lia).
  split; [|split; [exact L1|]].
  - unfold piece_name. rewrite !length_app. lia.
  - unfold piece_name. intros E.
    repeat apply app_inv_head in E.
    apply (f_equal decimal) in E.
    rewrite !decimal_print_0ld in E by lia. exact E.
Qed.

Lemma piece_names_differ_witness :
  length (piece_name [x2e] [x61] 2 7) = length (piece_name [x2e] [x61] 2 42)
  /\ Z.of_nat (length (print_0ld 2 7)) = 2
  /\ (piece_name [x2e] [x61] 2 7 = piece_name [x2e] [x61] 2 42 -> 7 = 42).
Proof.
  apply (piece_names_differ [x2e] [x61] 100 2 7 42).
  - lia.
  - vm_compute. reflexivity.
  - lia.
  - lia.
Defined.

(** X25. The size report rounds down to whole units: the value printed
    for a piece is the number of whole units, of the largest unit the piece
    fills, and a piece below 1024 bytes is reported in bytes. *)
Theorem size_report_rounds_down :
  forall piece_size,
    0 <= piece_size ->
    match piece_size_report piece_size with
    | SizeUnknown => False
    | SizeBytes s => s = piece_size /\ piece_size < 1024
    | SizeUnits value units s =>
        s = piece_size
        /\ In units [x47; x4d; x4b]
        /\ 1 <= value
        /\ value * unit_size units <= piece_size
           < (value + 1) * unit_size units
        /\ (units <> x47 -> value < 1024)
    end.
Proof.
  intros s H. unfold piece_size_report.
  replace (s =? -1) with false by (symmetry; apply Z.eqb_neq; lia).
  cbn [negb].
  change (1024 * 1024 * 1024) with 1073741824.
  change (1024 * 1024) with 1048576.
  rewrite !Z.quot_div_nonneg by lia.
  pose proof (Z.div_mod s 1073741824 ltac:(lia)) as D3.
  pose proof (Z.mod_pos_bound s 1073741824 ltac:(lia)) as M3.
  pose proof (Z.div_mod s 1048576 ltac:(lia)) as D2.
  pose proof (Z.mod_pos_bound s 1048576 ltac:(lia)) as M2.
  pose proof (Z.div_mod s 1024 ltac:(lia)) as D1.
  pose proof (Z.mod_pos_bound s 1024 ltac:(lia)) as M1.
  destruct (Z.eqb_spec (s / 1073741824) 0) as [E3|E3]; cbn [negb].
  - destruct (Z.eqb_spec (s / 1048576) 0) as [E2|E2]; cbn [negb].
    + destruct (Z.eqb_spec (s / 1024) 0) as [E1|E1]; cbn [negb].
      * split; [reflexivity | lia].
      * split; [reflexivity|]. split; [cbn; tauto|].
        change (unit_size x4b) with 1024.
        repeat split; lia.
    + split; [reflexivity|]. split; [cbn; tauto|].
      change (unit_size x4d) with 1048576.
      repeat split; lia.
  - split; [reflexivity|]. split; [cbn; tauto|].
    change (unit_size x47) with 1073741824.
    repeat split; try lia. intros N. exfalso. apply N. reflexivity.
Qed.

Lemma size_report_rounds_down_witness :
  match piece_size_report 2147483647 with
  | SizeUnknown => False
  | SizeBytes s => s = 2147483647 /\ 2147483647 < 1024
  | SizeUnits value units s =>
      s = 2147483647
      /\ In units [x47; x4d; x4b]
      /\ 1 <= value
      /\ value * unit_size units <= 2147483647 < (value + 1) * unit_size units
      /\ (units <> x47 -> value < 1024)
  end.
Proof.
  apply (size_report_rounds_down 2147483647). lia.
Defined.

(** *** The command line *)

Lemma isdigit_plain x :
  isdigit x = true ->
  isspace x = false /\ x <> x2d /\ x <> x2b /\ 0 <= char_value x - 48 <= 9.
Proof.
  unfold isdigit. intros H. apply andb_true_iff in H. destruct H as [H1 H2].
  apply Z.leb_le in H1, H2.
  repeat split; try lia; destruct x; try reflexivity; try discriminate;
    vm_compute in H1, H2; try congruence; exfalso;
    first [apply H1; reflexivity | apply H2; reflexivity].
Qed.

Lemma digits_value_nonneg s : forall acc,
  0 <= acc -> 0 <= fst (digits_value s acc).
Proof.
  induction s as [|x s IH]; intros acc H; cbn [digits_value fst]; [lia|].
  destruct (isdigit x) eqn:D; [|cbn [fst]; lia].
  apply IH. apply isdigit_plain in D. lia.
Qed.

(** On a string that starts with a digit [strtol] returns a value from 0 to
    [INT64_MAX]. *)
Lemma strtol_of_digit s err_no :
  isdigit (hd x00 s) = true ->
  0 <= fst (fst (strtol s err_no)) <= INT64_MAX.
Proof.
  intros D. unfold strtol.
  destruct s as [|x r]; [discriminate|]. cbn [hd] in D.
  destruct (isdigit_plain x D) as (Sp & Nm & Np & _).
  cbn [skip_spaces]. rewrite Sp.
  assert (E : match x :: r with
              | x2d :: r0 => (true, r0)
              | x2b :: r0 => (false, r0)
              | _ => (false, x :: r)
              end = (false, x :: r)).
  { destruct x; try reflexivity; congruence. }
  rewrite E. cbn [hd]. rewrite D.
  pose proof (digits_value_nonneg (x :: r) 0 ltac:(lia)) as P.
  destruct (digits_value (x :: r) 0) as [v endptr]. cbn [fst] in P.
  destruct (Z.gtb_spec v INT64_MAX); [cbn; unfold INT64_MAX; lia|].
  destruct (Z.ltb_spec v INT64_MIN); cbn [fst];
    unfold INT64_MIN, INT64_MAX in *; lia.
Qed.

Lemma strtol_ok_digit first_symb err_no curr_symb :
  split_IsStrtolOK first_symb err_no curr_symb 10 = true ->
  isdigit first_symb = true.
Proof.
  unfold split_IsStrtolOK, isdigit. cbv zeta. intros H.
  apply negb_true_iff in H.
  apply orb_false_iff in H. destruct H as [H _].
  apply orb_false_iff in H. destruct H as [H _].
  apply orb_false_iff in H. destruct H as [H1 H2].
  rewrite Z.gtb_ltb in H2.
  apply Z.ltb_ge in H1, H2. apply andb_true_iff.
  split; apply Z.leb_le; lia.
Qed.

Lemma chunk_size_option_bounds optarg err_no buffer_size :
  chunk_size_option optarg err_no = inr buffer_size ->
  0 <= buffer_size /\ 2 * buffer_size <= INT64_MAX.
Proof.
  revert optarg err_no buffer_size.
  intros optarg e b. unfold chunk_size_option.
  destruct optarg as [|x r] eqn:Eo; [discriminate|]. rewrite <- Eo. clear Eo.
  destruct (if (char_value (last optarg x00) <? 48)
               || (char_value (last optarg x00) >? 57)
            then (last optarg x00, removelast optarg)
            else (x00, optarg)) as [unit arg_copy].
  destruct (strtol arg_copy e) as [[v c_ptr] e'] eqn:S.
  destruct (split_IsStrtolOK (hd x00 arg_copy) e' (hd x00 c_ptr) 10) eqn:K;
    [|discriminate].
  cbn [negb].
  pose proof (strtol_of_digit arg_copy e (strtol_ok_digit _ _ _ K)) as R.
  rewrite S in R. cbn [fst] in R.
  destruct (units_shift unit) as [sh|] eqn:U; [|discriminate].
  destruct (Z.gtb_spec v (Z.shiftr INT64_MAX (sh + 1))) as [G|G];
    [discriminate|].
  intros [= <-].
  assert (Hs : sh = 0 \/ sh = 10 \/ sh = 20 \/ sh = 30).
  { destruct unit; try discriminate; injection U as <-; lia. }
  assert (H0 : 0 <= sh) by lia.
  rewrite Z.shiftr_div_pow2 in G by lia.
  rewrite Z.shiftl_mul_pow2 by lia.
  assert (P : 0 < 2 ^ sh) by (apply Z.pow_pos_nonneg; lia).
  assert (P1 : 2 ^ (sh + 1) = 2 * 2 ^ sh)
    by (rewrite <- Z.pow_succ_r; [f_equal|]; lia).
  rewrite P1 in G.
  pose proof (Z.mul_div_le INT64_MAX (2 * 2 ^ sh) ltac:(lia)) as M.
  set (q := INT64_MAX / (2 * 2 ^ sh)) in *.
  set (p := 2 ^ sh) in *.
  split; nia.
Qed.

(** X26. A chunk size the case of [--cs] takes is not negative, and
    twice the chunk size, the size of the buffer, fits [int64_t]. *)
Theorem chunk_size_option_range :
  forall optarg err_no buffer_size,
    chunk_size_option optarg err_no = inr buffer_size ->
    0 <= buffer_size /\ 2 * buffer_size <= INT64_MAX.
Proof.
  intros optarg e b H. exact (chunk_size_option_bounds optarg e b H).
Qed.

Lemma chunk_size_option_range_witness :
  0 <= 4194304 /\ 2 * 4194304 <= INT64_MAX.
Proof.
  apply (chunk_size_option_range [x34; x4d] 0 4194304).
  vm_compute. reflexivity.
Defined.

Lemma num_pieces_option_bounds optarg err_no num_pieces :
  num_pieces_option optarg err_no = inr num_pieces ->
  2 <= num_pieces <= INT64_MAX.
Proof.
  revert optarg err_no num_pieces.
  intros optarg e n. unfold num_pieces_option.
  destruct (strtol optarg e) as [[v c_ptr] e'] eqn:S.
  destruct (split_IsStrtolOK (hd x00 optarg) e' (hd x00 c_ptr) 10) eqn:K;
    [|discriminate].
  cbn [negb].
  pose proof (strtol_of_digit optarg e (strtol_ok_digit _ _ _ K)) as R.
  rewrite S in R. cbn [fst] in R.
  destruct (Z.ltb_spec v 2); [discriminate|].
  intros [= <-]. lia.
Qed.

(** X27. A number of pieces the case of [-n] takes is two or more. *)
Theorem num_pieces_option_range :
  forall optarg err_no num_pieces,
    num_pieces_option optarg err_no = inr num_pieces ->
    2 <= num_pieces <= INT64_MAX.
Proof.
  intros optarg e n H. exact (num_pieces_option_bounds optarg e n H).
Qed.

Lemma num_pieces_option_range_witness : 2 <= 16 <= INT64_MAX.
Proof.
  apply (num_pieces_option_range [x31; x36] 0 16).
  vm_compute. reflexivity.
Defined.

Lemma digits_value_all digits : forall acc,
  forallb isdigit digits = true ->
  digits_value digits acc
  = (fold_left (fun a x => 10 * a + (char_value x - 48)) digits acc, []).
Proof.
  induction digits as [|x r IH]; intros acc H; [reflexivity|].
  cbn [forallb] in H. apply andb_true_iff in H. destruct H as [Hx Hr].
  cbn [digits_value fold_left]. rewrite Hx. apply IH. exact Hr.
Qed.

Lemma decimal_nonneg digits :
  forallb isdigit digits = true -> 0 <= decimal digits.
Proof.
  intros H. unfold decimal.
  pose proof (digits_value_nonneg digits 0 ltac:(lia)) as P.
  rewrite (digits_value_all digits 0 H) in P. exact P.
Qed.

(** [strtol] on a string of digits. *)
Lemma strtol_digits digits err_no :
  digits <> [] ->
  forallb isdigit digits = true ->
  strtol digits err_no
  = if decimal digits >? INT64_MAX then (INT64_MAX, [], ERANGE)
    else (decimal digits, [], err_no).
Proof.
  intros N H. unfold strtol.
  destruct digits as [|x r]; [contradiction|].
  assert (D : isdigit x = true).
  { cbn [forallb] in H. apply andb_true_iff in H. tauto. }
  destruct (isdigit_plain x D) as (Sp & Nm & Np & _).
  cbn [skip_spaces]. rewrite Sp.
  assert (E : match x :: r with
              | x2d :: r0 => (true, r0)
              | x2b :: r0 => (false, r0)
              | _ => (false, x :: r)
              end = (false, x :: r)).
  { destruct x; try reflexivity; congruence. }
  rewrite E. cbn [hd]. rewrite D.
  rewrite (digits_value_all (x :: r) 0 H). fold (decimal (x :: r)).
  pose proof (decimal_nonneg (x :: r) H) as P.
  destruct (decimal (x :: r) >? INT64_MAX); [reflexivity|].
  destruct (Z.ltb_spec (decimal (x :: r)) INT64_MIN); [|reflexivity].
  unfold INT64_MIN in *. lia.
Qed.

Lemma last_digit digits :
  digits <> [] ->
  forallb isdigit digits = true ->
  isdigit (last digits x00) = true.
Proof.
  intros N H. rewrite forallb_forall in H. apply H.
  destruct (exists_last N) as (l & a & ->). rewrite last_last.
  apply in_or_app. right. left. reflexivity.
Qed.

Lemma units_no_digit unit shift_val :
  units_shift unit = Some shift_val ->
  unit <> x00 ->
  (char_value unit <? 48) || (char_value unit >? 57) = true.
Proof.
  intros U N. destruct unit; try discriminate; reflexivity.
Qed.

(** X28. What [--cs] means: a string of digits, alone or with one of
    the units [b B k K m M g G] after it, gives the number times the size
    of the unit, unless the number is too large. *)
Theorem chunk_size_option_value :
  forall digits unit shift_val err_no,
    digits <> [] ->
    forallb isdigit digits = true ->
    units_shift unit = Some shift_val ->
    err_no <> ERANGE ->
    chunk_size_option
      (digits ++ (if Byte.eqb unit x00 then [] else [unit])) err_no
    = if decimal digits >? INT64_MAX then inl IntegerWithUnitsExpected
      else if decimal digits >? Z.shiftr INT64_MAX (shift_val + 1)
      then inl ChunkSizeTooBig
      else inr (decimal digits * 2 ^ shift_val).
Proof.
  intros digits unit sh e N H U Ne. unfold chunk_size_option.
  destruct (digits ++ (if Byte.eqb unit x00 then [] else [unit]))
    as [|x r] eqn:Eo; [destruct digits; [contradiction | discriminate]|].
  rewrite <- Eo. clear Eo x r.
  assert (Hd : isdigit (hd x00 digits) = true).
  { destruct digits as [|x r]; [contradiction|].
    cbn [forallb] in H. apply andb_true_iff in H. cbn [hd]. tauto. }
  assert (Split :
            (if (char_value
                   (last (digits ++ (if Byte.eqb unit x00 then [] else [unit]))
                         x00) <? 48)
                || (char_value
                      (last (digits
                             ++ (if Byte.eqb unit x00 then [] else [unit]))
                            x00) >? 57)
             then (last (digits ++ (if Byte.eqb unit x00 then [] else [unit]))
                        x00,
                   removelast
                     (digits ++ (if Byte.eqb unit x00 then [] else [unit])))
             else (x00, digits ++ (if Byte.eqb unit x00 then [] else [unit])))
            = (unit, digits)).
  { destruct (Byte.eqb unit x00) eqn:E0.
    - apply byte_dec_bl in E0. subst unit. rewrite app_nil_r.
      pose proof (last_digit digits N H) as L. unfold isdigit in L.
      apply andb_true_iff in L. destruct L as [L1 L2].
      apply Z.leb_le in L1, L2.
      replace (char_value (last digits x00) <? 48) with false
        by (symmetry; apply Z.ltb_ge; lia).
      replace (char_value (last digits x00) >? 57) with false
        by (symmetry; rewrite Z.gtb_ltb; apply Z.ltb_ge; lia).
      reflexivity.
    - assert (Nu : unit <> x00) by (intros ->; discriminate).
      rewrite last_last, removelast_last, (units_no_digit unit sh U Nu).
      reflexivity. }
  rewrite Split, (strtol_digits digits e N H).
  destruct (decimal digits >? INT64_MAX) eqn:Big.
  - unfold split_IsStrtolOK. cbv zeta. rewrite Z.eqb_refl.
    rewrite !orb_true_r. reflexivity.
  - assert (K : split_IsStrtolOK (hd x00 digits) e (hd x00 []) 10 = true).
    { unfold split_IsStrtolOK, isdigit in *. cbv zeta.
      apply andb_true_iff in Hd. destruct Hd as [D1 D2].
      apply Z.leb_le in D1, D2.
      replace (char_value (hd x00 digits) <? 48) with false
        by (symmetry; apply Z.ltb_ge; lia).
      replace (char_value (hd x00 digits) >? 48 + 10 - 1) with false
        by (symmetry; rewrite Z.gtb_ltb; apply Z.ltb_ge; lia).
      replace (e =? ERANGE) with false by (symmetry; apply Z.eqb_neq; exact Ne).
      reflexivity. }
    rewrite K, U. cbn [negb].
    destruct (decimal digits >? Z.shiftr INT64_MAX (sh + 1)); [reflexivity|].
    rewrite Z.shiftl_mul_pow2; [reflexivity|].
    destruct unit; try discriminate; injection U as <-; lia.
Qed.

Lemma chunk_size_option_value_witness :
  chunk_size_option ([x34] ++ (if Byte.eqb x4d x00 then [] else [x4d])) 0
  = if decimal [x34] >? INT64_MAX then inl IntegerWithUnitsExpected
    else if decimal [x34] >? Z.shiftr INT64_MAX (20 + 1)
    then inl ChunkSizeTooBig
    else inr (decimal [x34] * 2 ^ 20).
Proof.
  apply (chunk_size_option_value [x34] x4d 20 0).
  - discriminate.
  - reflexivity.
  - reflexivity.
  - vm_compute. discriminate.
Defined.

(** What the loop keeps of the options it was given. *)
Lemma parse_options_range options : forall opts err_no opts',
  0 <= buffer_size opts /\ 2 * buffer_size opts <= INT64_MAX ->
  num_pieces opts = 0 \/ 2 <= num_pieces opts <= INT64_MAX ->
  parse_options options opts err_no = inr opts' ->
  (0 <= buffer_size opts' /\ 2 * buffer_size opts' <= INT64_MAX)
  /\ (num_pieces opts' = 0 \/ 2 <= num_pieces opts' <= INT64_MAX).
Proof.
  induction options as [|o rest IH]; intros opts e opts' Hb Hn;
    cbn [parse_options].
  - intros [= <-]. split; assumption.
  - destruct o as [d|f|c|n| |]; try discriminate.
    + apply IH; assumption.
    + apply IH; assumption.
    + destruct (chunk_size_option c e) as [err|size] eqn:C; [discriminate|].
      apply IH; [|exact Hn].
      apply (chunk_size_option_bounds c e size C).
    + destruct (num_pieces_option n e) as [err|k] eqn:N; [discriminate|].
      apply IH; [exact Hb|]. right.
      apply (num_pieces_option_bounds n e k N).
Qed.

Lemma parsed_options_range argc options operands err_no opts :
  split_ParseCmdLine argc options operands split_InitOpts err_no
  = Parsed opts ->
  2 <= num_pieces opts <= INT64_MAX
  /\ 0 <= buffer_size opts /\ 2 * buffer_size opts <= INT64_MAX.
Proof.
  unfold split_ParseCmdLine.
  destruct (parse_options options split_InitOpts err_no) as [e|opts'] eqn:P;
    [discriminate|].
  destruct (operands =? 0); [destruct (argc =? 1); discriminate|].
  destruct (Z.eqb_spec (num_pieces opts') 0) as [Z0|NZ]; [discriminate|].
  intros [= <-].
  destruct (parse_options_range options split_InitOpts err_no opts')
    as [Hb Hn].
  - cbn. unfold INT64_MAX. lia.
  - left. reflexivity.
  - exact P.
  - destruct Hn as [Hn|Hn]; [contradiction|]. tauto.
Qed.

(** X29. The options a command line leaves when [split_ParseCmdLine]
    returns: two pieces or more, and a chunk size that is not negative and
    whose double fits [int64_t]; without [--cs] it is 4 MB. *)
Theorem command_line_options_range :
  forall argc options operands err_no opts,
    split_ParseCmdLine argc options operands split_InitOpts err_no
    = Parsed opts ->
    2 <= num_pieces opts <= INT64_MAX
    /\ 0 <= buffer_size opts /\ 2 * buffer_size opts <= INT64_MAX
    /\ ((forall optarg, ~ In (ChunkSize optarg) options) ->
        buffer_size opts = 4194304).
Proof.
  intros argc options operands e opts H.
  destruct (parsed_options_range argc options operands e opts H)
    as (Hn & Hb & Hm).
  split; [exact Hn|]. split; [exact Hb|]. split; [exact Hm|].
  intros Hno. revert H. unfold split_ParseCmdLine.
  destruct (parse_options options split_InitOpts e) as [err|opts'] eqn:P;
    [discriminate|].
  destruct (operands =? 0); [destruct (argc =? 1); discriminate|].
  destruct (num_pieces opts' =? 0); [discriminate|].
  intros [= <-].
  change 4194304 with (buffer_size split_InitOpts).
  revert P Hno. generalize split_InitOpts. clear.
  induction options as [|o rest IH]; intros opts0 P Hno;
    cbn [parse_options] in P.
  - injection P as <-. reflexivity.
  - assert (Hrest : forall optarg, ~ In (ChunkSize optarg) rest).
    { intros optarg Hin. apply (Hno optarg). right. exact Hin. }
    destruct o as [d|f|c|n| |]; try discriminate.
    + apply (IH _ P Hrest).
    + apply (IH _ P Hrest).
    + exfalso. apply (Hno c). left. reflexivity.
    + destruct (num_pieces_option n e) as [err|k]; [discriminate|].
      apply (IH _ P Hrest).
Qed.

Lemma command_line_options_range_witness :
  2 <= num_pieces (mk_opts 2 5) <= INT64_MAX
  /\ 0 <= buffer_size (mk_opts 2 5) /\ 2 * buffer_size (mk_opts 2 5)
     <= INT64_MAX
  /\ ((forall optarg,
         ~ In (ChunkSize optarg) [NumPieces [x32]; ChunkSize [x35]]) ->
      buffer_size (mk_opts 2 5) = 4194304).
Proof.
  apply (command_line_options_range 6 [NumPieces [x32]; ChunkSize [x35]] 1 0
           (mk_opts 2 5)).
  vm_compute. reflexivity.
Defined.

(** ** The run on a system whose calls can fail *)

Lemma stopped_not_reliable {A : Type} sys (r : ending A) :
  stopped_by sys r -> ~ reliable sys.
Proof.
  intros S (O & S1 & S2 & N & M & C & R & W & F).
  destruct r as [[a|[| |a b|a b]|]|e]; cbn [stopped_by] in S;
    try contradiction.
  - destruct S as (n & bytes & E). rewrite R in E. discriminate.
  - destruct S as (n & bytes & E). rewrite W in E. discriminate.
  - destruct e as [| | |size|k| | |]; cbn [caused] in S.
    + congruence.
    + congruence.
    + destruct S; congruence.
    + rewrite M in S. discriminate.
    + rewrite C in S. discriminate.
    + destruct S as (n & E). rewrite R in E. discriminate.
    + destruct S as (n & E). rewrite W in E. discriminate.
    + destruct S as (k & E). rewrite F in E. discriminate.
Qed.

Lemma partial_is_whole bytes (data : list byte) :
  length (firstn (Z.to_nat bytes) data) = length data ->
  firstn (Z.to_nat bytes) data = data.
Proof.
  intros H. apply firstn_all2. rewrite length_firstn in H. lia.
Qed.

(** [read] and [write]: the answer is [-1], or fewer bytes than the
    data, or the call is as on a system that answers every call. *)
Lemma transferred_cases answer data :
  (answer = Declined /\ transferred answer data = (-1, []))
  \/ ((exists bytes, answer = Partial bytes)
      /\ 0 <= fst (transferred answer data) < Z.of_nat (length data))
  \/ transferred answer data = (Z.of_nat (length data), data).
Proof.
  destruct answer as [|bytes|]; cbn [transferred].
  - left. split; reflexivity.
  - destruct (Nat.eq_dec (length (firstn (Z.to_nat bytes) data))
                         (length data)) as [E|E].
    + right. right. rewrite (partial_is_whole _ _ E). reflexivity.
    + right. left. split; [exists bytes; reflexivity|]. cbn [fst].
      rewrite length_firstn in *. lia.
  - right. right. reflexivity.
Qed.

Lemma fill_follows answer input double_buff buff_size bytes_available :
  OnSystem.split_FillUpperBuffHalfFromInput answer input double_buff
    buff_size bytes_available
  = Ended (split_FillUpperBuffHalfFromInput input double_buff buff_size
             bytes_available)
  \/ (OnSystem.split_FillUpperBuffHalfFromInput answer input double_buff
        buff_size bytes_available = Failed CannotRead
      /\ answer = Declined)
  \/ (exists a b bytes,
        OnSystem.split_FillUpperBuffHalfFromInput answer input double_buff
          buff_size bytes_available = Ended (Fatal (ShortRead a b))
        /\ answer = Partial bytes).
Proof.
  unfold OnSystem.split_FillUpperBuffHalfFromInput,
    split_FillUpperBuffHalfFromInput.
  destruct (bytes_available =? 0); [left; reflexivity|].
  set (io_size := if buff_size >? bytes_available then bytes_available
                  else buff_size).
  set (data := firstn (Z.to_nat io_size) input).
  assert (Ld : Z.of_nat (length data) <= Z.max 0 io_size)
    by (unfold data; rewrite length_firstn; lia).
  destruct (transferred_cases answer data) as [[Ea E]|[[[k Ea] E]|E]].
  - rewrite E. cbn [Z.eqb Pos.eqb]. right. left. split; [reflexivity|].
    exact Ea.
  - destruct (transferred answer data) as [n part]. cbn [fst] in E.
    replace (n =? -1) with false by (symmetry; apply Z.eqb_neq; lia).
    replace (n =? io_size) with false by (symmetry; apply Z.eqb_neq; lia).
    right. right. exists n, io_size, k. split; [reflexivity | exact Ea].
  - rewrite E.
    replace (Z.of_nat (length data) =? -1) with false
      by (symmetry; apply Z.eqb_neq; lia).
    left. destruct (negb _); reflexivity.
Qed.

Lemma write_follows answer file buff data_start data_end :
  (exists bytes_written file',
     OnSystem.split_WriteOutput answer file buff data_start data_end
     = (Ended (Done bytes_written), file')
     /\ split_WriteOutput file buff data_start data_end
        = Done (bytes_written, file'))
  \/ (exists e file',
        OnSystem.split_WriteOutput answer file buff data_start data_end
        = (Ended (Fatal e), file')
        /\ split_WriteOutput file buff data_start data_end = Fatal e)
  \/ (exists file',
        OnSystem.split_WriteOutput answer file buff data_start data_end
        = (Failed CannotWrite, file')
        /\ answer = Declined)
  \/ (exists a b file' bytes,
        OnSystem.split_WriteOutput answer file buff data_start data_end
        = (Ended (Fatal (ShortWrite a b)), file')
        /\ answer = Partial bytes).
Proof.
  unfold OnSystem.split_WriteOutput, split_WriteOutput.
  set (io_size := data_end - data_start + 1).
  set (data := slice buff data_start io_size).
  assert (Ld : Z.of_nat (length data) <= Z.max 0 io_size)
    by (unfold data, slice; rewrite length_firstn; lia).
  destruct (transferred_cases answer data) as [[Ea E]|[[[k Ea] E]|E]].
  - rewrite E. cbn [Z.eqb Pos.eqb]. right. right. left.
    eexists. split; [reflexivity | exact Ea].
  - destruct (transferred answer data) as [n part]. cbn [fst] in E.
    replace (n =? -1) with false by (symmetry; apply Z.eqb_neq; lia).
    replace (n =? io_size) with false by (symmetry; apply Z.eqb_neq; lia).
    right. right. right. exists n, io_size. eexists. exists k.
    split; [reflexivity | exact Ea].
  - rewrite E.
    replace (Z.of_nat (length data) =? -1) with false
      by (symmetry; apply Z.eqb_neq; lia).
    destruct (negb _).
    + right. left. eexists _, _. split; reflexivity.
    + left. eexists _, _. split; reflexivity.
Qed.

Section Following.

Variable sys : system.
Variable opts : split_Opts_t.

Lemma refill_follows p :
  match refill opts (state p) with
  | Done st0 =>
      exists p0, OnSystem.refill sys opts p = Ended (Done p0)
                 /\ state p0 = st0
  | Fatal e => OnSystem.refill sys opts p = Ended (Fatal e)
  | OutOfFuel => OnSystem.refill sys opts p = Ended OutOfFuel
  end
  \/ stopped_by sys (OnSystem.refill sys opts p).
Proof.
  unfold OnSystem.refill, refill.
  destruct (data_end (state p) =? buffer_size opts - 1).
  - destruct (fill_follows (read_answer sys (reads p))
                (input_rest (state p)) (double_buff (state p))
                (buffer_size opts) (bytes_not_read (state p)))
      as [E|[[E Ea]|(a & b & k & E & Ea)]]; rewrite E.
    + left.
      destruct (split_FillUpperBuffHalfFromInput _ _ _ _)
        as [[[bytes_read buff] rest]|e|]; try reflexivity.
      eexists. split; reflexivity.
    + right. exists (reads p). exact Ea.
    + right. exists (reads p), k. exact Ea.
  - left. exists p. split; reflexivity.
Qed.

Lemma transfer_step_follows piece_num is_first_block to_read p :
  follows (OnSystem.transfer_step sys opts piece_num is_first_block to_read
             p)
          (transfer_step opts piece_num is_first_block to_read (state p))
  \/ stopped_by sys (fst (OnSystem.transfer_step sys opts piece_num
                            is_first_block to_read p)).
Proof.
  unfold OnSystem.transfer_step, transfer_step, follows.
  destruct (refill_follows p) as [R|R].
  2:{ right.
      destruct (OnSystem.refill sys opts p) as [[p0|e|]|e];
        try contradiction; exact R. }
  destruct (refill opts (state p)) as [st0|e|].
  2:{ rewrite R. left. split; [reflexivity | discriminate]. }
  2:{ rewrite R. left. split; [reflexivity | discriminate]. }
  destruct R as (p0 & -> & <-).
  destruct (split_CalcUpperBoundOfOutputTransfer _ _ _ _ _ _ _ _)
    as [oce|e|];
    [|left; split; [reflexivity | discriminate] ..].
  destruct (write_follows (write_answer sys (writes p0))
              (newest (files (state p0))) (double_buff (state p0))
              (data_start (state p0)) oce)
    as [(n & file & -> & ->)|[(e & file & -> & ->)
                             |[(file & -> & Ea)|(a & b & file & k & -> & Ea)]]].
  - left. destruct (slide opts _ _ _) as [[buff2 ds2] de2].
    split; [reflexivity|]. intros a _. reflexivity.
  - left. split; [reflexivity | discriminate].
  - right. exists (writes p0). exact Ea.
  - right. exists (writes p0), k. exact Ea.
Qed.

Lemma transfer_loop_follows piece_num fuel :
  forall is_first_block to_read p,
    follows (OnSystem.transfer_loop sys opts fuel piece_num is_first_block
               to_read p)
            (transfer_loop opts fuel piece_num is_first_block to_read
               (state p))
    \/ stopped_by sys (fst (OnSystem.transfer_loop sys opts fuel piece_num
                              is_first_block to_read p)).
Proof.
  induction fuel as [|fuel IH]; intros fb to_read p;
    cbn [OnSystem.transfer_loop transfer_loop].
  - left. destruct (to_read =? 0); split; try reflexivity; discriminate.
  - destruct (to_read =? 0); [left; split; reflexivity|].
    destruct (transfer_step_follows piece_num fb to_read p)
      as [[F1 F2]|W].
    + destruct (OnSystem.transfer_step sys opts piece_num fb to_read p)
        as [o p'].
      destruct (transfer_step opts piece_num fb to_read (state p))
        as [o0 st'].
      cbn [fst snd] in F1, F2. subst o.
      destruct o0 as [to_read'|e|].
      * rewrite <- (F2 to_read' eq_refl). apply IH.
      * left. split; [reflexivity | discriminate].
      * left. split; [reflexivity | discriminate].
    + right.
      destruct (OnSystem.transfer_step sys opts piece_num fb to_read p)
        as [[[to_read'|e|]|e] p']; cbn [fst] in W |- *;
        try contradiction; exact W.
Qed.

Lemma pieces_loop_follows rounds :
  forall piece_num p,
    follows (OnSystem.pieces_loop sys opts rounds piece_num p)
            (pieces_loop opts rounds piece_num (state p))
    \/ stopped_by sys (fst (OnSystem.pieces_loop sys opts rounds piece_num
                              p)).
Proof.
  induction rounds as [|rounds IH]; intros k p;
    cbn [OnSystem.pieces_loop pieces_loop].
  - left. split; reflexivity.
  - destruct (k <? num_pieces opts); [|left; split; reflexivity].
    destruct (piece_target opts (bytes_available (state p)) k =? 0);
      [left; split; [reflexivity | discriminate]|].
    unfold OnSystem.split_StartNewPiece, OnSystem.split_FinalizePiece.
    destruct (create_output sys k) eqn:Create; cbn [negb];
      [|right; exact Create].
    match goal with
    | |- context [OnSystem.transfer_loop sys opts ?f k true ?t ?q] =>
        destruct (transfer_loop_follows k f true t q) as [[F1 F2]|W];
        destruct (OnSystem.transfer_loop sys opts f k true t q)
          as [o p2] eqn:L
    end.
    + cbn [state] in F1, F2.
      destruct (transfer_loop opts _ k true _ _) as [o0 st2].
      cbn [fst snd] in F1, F2. subst o.
      destruct o0 as [[]|e|];
        [|left; split; [reflexivity | discriminate] ..].
      destruct (sync_output sys k) eqn:Sync; cbn [negb].
      * rewrite <- (F2 tt eq_refl). apply IH.
      * right. exists k. exact Sync.
    + right. cbn [fst] in W.
      destruct o as [[[]|e|]|e]; try contradiction; exact W.
Qed.

Lemma split_source_follows input :
  follows (OnSystem.split_SplitSource sys opts input)
          (split_SplitSource opts input)
  \/ stopped_by sys (fst (OnSystem.split_SplitSource sys opts input)).
Proof.
  unfold OnSystem.split_SplitSource, split_SplitSource,
    OnSystem.split_GetInputSize.
  destruct (open_input sys) eqn:O; cbn [negb]; [|right; exact O].
  destruct (seek_end sys) eqn:S1; cbn [negb]; [|right; left; exact S1].
  destruct (seek_start sys) eqn:S2; cbn [negb]; [|right; right; exact S2].
  destruct (allocate_buffer sys (2 * buffer_size opts)) eqn:M; cbn [negb];
    [|right; exact M].
  apply pieces_loop_follows.
Qed.

End Following.

Lemma obliging_reliable : reliable obliging.
Proof. repeat split. Qed.

(** The run on any system, and what it has of the run on a system that
    answers every call. *)
Lemma split_source_on_system sys opts input :
  0 <= buffer_size opts ->
  fst (OnSystem.split_SplitSource sys opts input) <> Ended OutOfFuel
  /\ (reliable sys ->
      fst (OnSystem.split_SplitSource sys opts input) = Ended (Done tt)
      \/ fst (OnSystem.split_SplitSource sys opts input)
         = Ended (Fatal NoItemBound)
      \/ exists n, fst (OnSystem.split_SplitSource sys opts input)
                   = Ended (Fatal (CouldNotProducePieces n)))
  /\ (forall a b,
        fst (OnSystem.split_SplitSource sys opts input)
        = Ended (Fatal (ShortRead a b))
        \/ fst (OnSystem.split_SplitSource sys opts input)
           = Ended (Fatal (ShortWrite a b)) ->
        exists n bytes, read_answer sys n = Partial bytes
                        \/ write_answer sys n = Partial bytes)
  /\ (fst (OnSystem.split_SplitSource sys opts input) = Ended (Done tt) ->
      1 <= buffer_size opts -> 1 <= num_pieces opts ->
      concat (OnSystem.pieces_of (OnSystem.split_SplitSource sys opts input))
      = input
      /\ Z.of_nat (length (OnSystem.pieces_of
                             (OnSystem.split_SplitSource sys opts input)))
         = num_pieces opts).
Proof.
  intros HB.
  destruct (split_source_follows sys opts input) as [[F S]|W].
  - destruct (split_SplitSource opts input) as [o st'] eqn:R.
    destruct (split_source_spec opts input HB _ _ R)
      as (T & _ & _ & E & D).
    cbn [fst snd] in F, S. rewrite F. split; [|split; [|split]].
    + intros [= H]. contradiction.
    + intros _. destruct o as [[]|e|]; [now left | | contradiction].
      right. destruct (E e eq_refl) as [-> | [n ->]]; [now left|].
      right. exists n. reflexivity.
    + intros a b [[= H]|[= H]]; subst o;
        destruct (E _ eq_refl) as [H | [n H]]; discriminate.
    + intros [= ->] H1 H2. unfold OnSystem.pieces_of.
      rewrite (S tt eq_refl). apply (D eq_refl); assumption.
  - split; [|split; [|split]].
    + intros H. rewrite H in W. exact W.
    + intros H. exfalso. apply (stopped_not_reliable sys _ W H).
    + intros a b [H|H]; rewrite H in W; cbn [stopped_by] in W;
        destruct W as (n & bytes & W); exists n, bytes; tauto.
    + intros H. rewrite H in W. contradiction.
Qed.

(** X2. Whatever the system answers, the fuel of the [while] loop never
    runs out: [split_SplitSource] returns or leaves through [SPLIT_ERROR].
    An error of the system is reported only after a call that failed and an
    error of [read] or [write] only after a call that transferred a part of
    what it was asked for: the engine itself asks [read] for no more than
    the file holds and [write] for nothing outside the buffer.  So on a
    system that answers every call the run returns or leaves through one of
    the two errors of the engine. *)
Theorem split_source_total :
  forall sys opts input,
    0 <= buffer_size opts ->
    fst (OnSystem.split_SplitSource sys opts input) <> Ended OutOfFuel
    /\ (forall e, fst (OnSystem.split_SplitSource sys opts input) = Failed e ->
        caused sys e)
    /\ (forall a b,
          fst (OnSystem.split_SplitSource sys opts input)
          = Ended (Fatal (ShortRead a b))
          \/ fst (OnSystem.split_SplitSource sys opts input)
             = Ended (Fatal (ShortWrite a b)) ->
          exists n bytes, read_answer sys n = Partial bytes
                          \/ write_answer sys n = Partial bytes)
    /\ (reliable sys ->
        fst (OnSystem.split_SplitSource sys opts input) = Ended (Done tt)
        \/ fst (OnSystem.split_SplitSource sys opts input)
           = Ended (Fatal NoItemBound)
        \/ exists n, fst (OnSystem.split_SplitSource sys opts input)
                     = Ended (Fatal (CouldNotProducePieces n))).
Proof.
  intros sys opts input HB.
  destruct (split_source_on_system sys opts input HB) as (T & R & P & _).
  split; [exact T|]. split; [|split; [exact P | exact R]].
  intros e H.
  destruct (split_source_follows sys opts input) as [[F _]|W].
  - rewrite H in F. discriminate.
  - rewrite H in W. exact W.
Qed.

Lemma split_source_total_witness :
  fst (OnSystem.split_SplitSource piece_1_exists (mk_opts 2 5) two_elements)
  <> Ended OutOfFuel
  /\ (forall e,
        fst (OnSystem.split_SplitSource piece_1_exists (mk_opts 2 5)
               two_elements) = Failed e ->
        caused piece_1_exists e)
  /\ (forall a b,
        fst (OnSystem.split_SplitSource piece_1_exists (mk_opts 2 5)
               two_elements) = Ended (Fatal (ShortRead a b))
        \/ fst (OnSystem.split_SplitSource piece_1_exists (mk_opts 2 5)
                  two_elements) = Ended (Fatal (ShortWrite a b)) ->
        exists n bytes, read_answer piece_1_exists n = Partial bytes
                        \/ write_answer piece_1_exists n = Partial bytes)
  /\ (reliable piece_1_exists ->
      fst (OnSystem.split_SplitSource piece_1_exists (mk_opts 2 5)
             two_elements) = Ended (Done tt)
      \/ fst (OnSystem.split_SplitSource piece_1_exists (mk_opts 2 5)
                two_elements) = Ended (Fatal NoItemBound)
      \/ exists n, fst (OnSystem.split_SplitSource piece_1_exists
                          (mk_opts 2 5) two_elements)
                   = Ended (Fatal (CouldNotProducePieces n))).
Proof.
  apply (split_source_total piece_1_exists (mk_opts 2 5) two_elements).
  vm_compute. discriminate.
Defined.

(** The run on [two_elements] when a file with the name of piece 1
    exists: piece 0 is written and the run leaves through
    [SPLIT_ERROR( "Cannot create output file ...")]; when every call is
    answered the run is the run of the engine. *)
Lemma scenario_piece_exists :
  fst (OnSystem.split_SplitSource piece_1_exists (mk_opts 2 5) two_elements)
  = Failed (CannotCreateOutput 1)
  /\ OnSystem.pieces_of (OnSystem.split_SplitSource piece_1_exists
                           (mk_opts 2 5) two_elements)
     = [[x3e; x61; x0a; x41; x43; x0a]]
  /\ fst (OnSystem.split_SplitSource obliging (mk_opts 2 5) two_elements)
     = Ended (Done tt)
  /\ OnSystem.pieces_of (OnSystem.split_SplitSource obliging (mk_opts 2 5)
                           two_elements)
     = pieces_of (split_SplitSource (mk_opts 2 5) two_elements).
Proof. repeat split; vm_compute; reflexivity. Qed.

(** X30. The program as a whole, whatever the system answers: when the
    command line is taken, the run is on two pieces or more and the fuel of
    its loops never runs out; it is the run of [split_SplitSource] unless
    the buffer for the base name of the pieces cannot be allocated; on a
    system that answers every call it returns or leaves through one of the
    two errors of the engine; and when it returns and the chunk size is
    not 0 the pieces are the input, in as many files as were asked for. *)
Theorem main_splits_input :
  forall sys argc options operands err_no input r,
    OnSystem.main sys argc options operands err_no input = inr r ->
    exists opts,
      split_ParseCmdLine argc options operands split_InitOpts err_no
      = Parsed opts
      /\ 2 <= num_pieces opts
      /\ (r = OnSystem.split_SplitSource sys opts input
          \/ (fst r = Failed CannotAllocateName
              /\ allocate_name sys = false /\ output_file options = []))
      /\ fst r <> Ended OutOfFuel
      /\ (reliable sys ->
          fst r = Ended (Done tt) \/ fst r = Ended (Fatal NoItemBound)
          \/ exists n, fst r = Ended (Fatal (CouldNotProducePieces n)))
      /\ (fst r = Ended (Done tt) -> buffer_size opts <> 0 ->
          concat (OnSystem.pieces_of r) = input
          /\ Z.of_nat (length (OnSystem.pieces_of r)) = num_pieces opts).
Proof.
  intros sys argc options operands e input r.
  unfold OnSystem.main, OnSystem.split_ParseCmdLine.
  destruct (split_ParseCmdLine argc options operands split_InitOpts e)
    as [opts| |err] eqn:P; try discriminate.
  destruct (parsed_options_range argc options operands e opts P)
    as (Hn & Hb & _).
  destruct (split_source_on_system sys opts input Hb) as (T & R & _ & D).
  assert (Run : r = OnSystem.split_SplitSource sys opts input ->
            fst r <> Ended OutOfFuel
            /\ (reliable sys ->
                fst r = Ended (Done tt) \/ fst r = Ended (Fatal NoItemBound)
                \/ exists n, fst r = Ended (Fatal (CouldNotProducePieces n)))
            /\ (fst r = Ended (Done tt) -> buffer_size opts <> 0 ->
                concat (OnSystem.pieces_of r) = input
                /\ Z.of_nat (length (OnSystem.pieces_of r))
                   = num_pieces opts)).
  { intros ->. split; [exact T|]. split; [exact R|].
    intros Hd Hnz. apply D; [exact Hd | lia | lia]. }
  destruct (output_file options) as [|x name] eqn:Name.
  - destruct (allocate_name sys) eqn:A; cbn [negb]; intros [= <-];
      exists opts; (split; [reflexivity|]); (split; [lia|]).
    + split; [left; reflexivity | apply Run; reflexivity].
    + cbn [fst]. split; [right; repeat split|].
      split; [discriminate|]. split; [|discriminate].
      intros (_ & _ & _ & N & _). congruence.
  - intros [= <-]. exists opts. split; [reflexivity|]. split; [lia|].
    split; [left; reflexivity | apply Run; reflexivity].
Qed.

Lemma main_splits_input_witness :
  exists opts,
    split_ParseCmdLine 6 [NumPieces [x32]; ChunkSize [x35]] 1 split_InitOpts 0
    = Parsed opts
    /\ 2 <= num_pieces opts
    /\ (OnSystem.split_SplitSource obliging (mk_opts 2 5) two_elements
        = OnSystem.split_SplitSource obliging opts two_elements
        \/ (fst (OnSystem.split_SplitSource obliging (mk_opts 2 5)
                   two_elements) = Failed CannotAllocateName
            /\ allocate_name obliging = false
            /\ output_file [NumPieces [x32]; ChunkSize [x35]] = []))
    /\ fst (OnSystem.split_SplitSource obliging (mk_opts 2 5) two_elements)
       <> Ended OutOfFuel
    /\ (reliable obliging ->
        fst (OnSystem.split_SplitSource obliging (mk_opts 2 5) two_elements)
        = Ended (Done tt)
        \/ fst (OnSystem.split_SplitSource obliging (mk_opts 2 5)
                  two_elements) = Ended (Fatal NoItemBound)
        \/ exists n, fst (OnSystem.split_SplitSource obliging (mk_opts 2 5)
                            two_elements)
                     = Ended (Fatal (CouldNotProducePieces n)))
    /\ (fst (OnSystem.split_SplitSource obliging (mk_opts 2 5) two_elements)
        = Ended (Done tt) ->
        buffer_size opts <> 0 ->
        concat (OnSystem.pieces_of
                  (OnSystem.split_SplitSource obliging (mk_opts 2 5)
                                              two_elements))
        = two_elements
        /\ Z.of_nat (length (OnSystem.pieces_of
                               (OnSystem.split_SplitSource obliging
                                  (mk_opts 2 5) two_elements)))
           = num_pieces opts).
Proof.
  apply (main_splits_input obliging 6 [NumPieces [x32]; ChunkSize [x35]] 1 0
           two_elements
           (OnSystem.split_SplitSource obliging (mk_opts 2 5) two_elements)).
  vm_compute. reflexivity.
Defined.
